(** * odesolvers/ODE.py: a shallow embedding and its properties

    The development follows the layout of [ODE.py]:
    - [Py]: the Python values, the exceptions, and the state-and-exception
      monad the methods of class [Solver] run in;
    - [Registry]: the global [_parameters] table and the per-instance copy;
    - [Config]: [Solver.set] and the checkers it calls;
    - [Array]: attribute access and the few numpy operations in use;
    - [TimeLoop]: [set_initial_condition], [set_internal_parameters],
      [validate_data] and [solve] of class [Solver];
    - [Multistep]: [constant_time_step] and the [validate_data] of the
      Adams-Bashforth family;
    - [Implicit]: [SolverImplicit.advance] with the four implicit schemes;
    - [Fehlberg]: [Adaptive.set_internal_parameters] and
      [RKFehlberg.advance].

    The instance dictionary [self.__dict__] is a [gmap] from attribute
    names to values, and a method is a function from the dictionary to an
    outcome and the dictionary it leaves.  One entry of the dictionary is
    kept apart: [self._parameters], which no method changes after the
    constructor has made it, is the registry that the methods of [Config]
    take as a parameter.  The numerical kernels
    ([Implicit], [Fehlberg]) are modelled on records of the attributes they
    read.  Python floats are modelled by exact numbers: by [Q] where the
    code only adds, multiplies, divides and compares, and by [R] in
    [Fehlberg], where a fourth root and a square root are taken.  Rounding
    is not modelled. *)

From Stdlib Require Import ZArith QArith Qabs Bool List Sorted Reals Lra.
From stdpp Require Import gmap strings pretty.
Import ListNotations.

Set Warnings "-register-all".

(* ===================================================================== *)
(** ** Python values, exceptions, and the monad of a method call *)
(* ===================================================================== *)

Module Py.

(** The values a keyword argument or an attribute can hold.  [VTuple],
    [VList] and [VArray] are [tuple], [list] and [numpy.ndarray];
    [VCallable] is any object for which [callable(v)] is true, named by a
    string.  Complex numbers and [long] are left out. *)
Inductive pyval : Type :=
| VNone
| VBool (b : bool)
| VInt (z : Z)
| VFloat (q : Q)
| VStr (s : string)
| VTuple (l : list pyval)
| VList (l : list pyval)
| VArray (l : list pyval)
| VDict (d : list (string * pyval))
| VCallable (name : string).

(** The classes that occur under the ['type'] key of [_parameters]. *)
Inductive pyclass : Type :=
| CTuple | CList | CNdarray | CDict | CBool | CFloat | CStr | CInt.

(** An entry of a ['type'] tuple: a class, the builtin [callable], or some
    other function object (the [lambda] registered for [specialtimes]). *)
Inductive pytype : Type :=
| TClass (c : pyclass)
| TCallable
| TFunction.

Inductive exn : Type :=
| TypeError | ValueError | AttributeError | IndexError | KeyError
| NameError.

Inductive result (A : Type) : Type :=
| Ok (a : A)
| Raise (e : exn).
Arguments Ok {A} a.
Arguments Raise {A} e.

Definition is_ok {A} (r : result A) : bool :=
  match r with Ok _ => true | Raise _ => false end.

(** [isinstance(v, c)] for a class [c]; [bool] is a subclass of [int]. *)
Definition isinstance (v : pyval) (c : pyclass) : bool :=
  match v, c with
  | VBool _, CBool | VBool _, CInt => true
  | VInt _, CInt => true
  | VFloat _, CFloat => true
  | VStr _, CStr => true
  | VTuple _, CTuple => true
  | VList _, CList => true
  | VArray _, CNdarray => true
  | VDict _, CDict => true
  | _, _ => false
  end.

Definition callable (v : pyval) : bool :=
  match v with VCallable _ => true | _ => false end.

Definition is_None (v : pyval) : bool :=
  match v with VNone => true | _ => false end.

(** The number behind a value for which
    [isinstance(value, (float, int, complex))] holds. *)
Definition as_number (v : pyval) : option Q :=
  match v with
  | VBool b => Some (if b then 1%Q else 0%Q)
  | VInt z => Some (inject_Z z)
  | VFloat q => Some q
  | _ => None
  end.

(** Python 2 ordering of a number [x] against any object [b]: numbers are
    compared by value, [None] is below everything, and every other object
    is above every number. *)
Definition cmp_number (x : Q) (b : pyval) : comparison :=
  match as_number b with
  | Some y => (x ?= y)%Q
  | None => if is_None b then Gt else Lt
  end.

(** [b <= x] and [b >= x] for a number [x]. *)
Definition le_number (b : pyval) (x : Q) : bool :=
  match cmp_number x b with Lt => false | _ => true end.
Definition ge_number (b : pyval) (x : Q) : bool :=
  match cmp_number x b with Gt => false | _ => true end.

(** [x in ranges] for a number [x]: [==] against each element. *)
Definition number_in (x : Q) (ranges : list pyval) : bool :=
  existsb (fun b => match cmp_number x b with Eq => true | _ => false end)
          ranges.

(** The instance dictionary [self.__dict__], its entry [_parameters]
    apart. *)
Abbreviation attrs := (gmap string pyval).

(** A method body: it reads and writes [self.__dict__] and either returns
    or raises; what it wrote before raising stays written. *)
Definition M (A : Type) : Type := attrs -> result A * attrs.

Definition ret {A} (a : A) : M A := fun s => (Ok a, s).
Definition raise {A} (e : exn) : M A := fun s => (Raise e, s).
Definition bind {A B} (m : M A) (k : A -> M B) : M B :=
  fun s => match m s with
           | (Ok a, s') => k a s'
           | (Raise e, s') => (Raise e, s')
           end.
Definition lift {A} (r : result A) : M A := fun s => (r, s).

(** Sequencing of computations that only return or raise. *)
Definition rbind {A B} (r : result A) (k : A -> result B) : result B :=
  match r with Ok a => k a | Raise e => Raise e end.

Definition hasattr (name : string) : M bool :=
  fun s => (Ok (bool_decide (is_Some (s !! name))), s).
Definition setattr (name : string) (v : pyval) : M unit :=
  fun s => (Ok tt, <[name := v]> s).
Definition delattr (name : string) : M unit :=
  fun s => (Ok tt, delete name s).

#[export] Instance M_ret : MRet M := @ret.
#[export] Instance M_bind : MBind M := fun A B k m => bind m k.

End Py.

Import Py.

Notation "x <~ r ; k" := (rbind r (fun x => k))
  (at level 200, r at level 100, k at level 200, right associativity).

(** A keyword-argument dictionary [**kwargs], in iteration order.  Python
    guarantees that its keys are distinct. *)
Abbreviation kwargs_t := (list (string * pyval)).

Definition kw_get (name : string) (kwargs : kwargs_t) : option pyval :=
  snd <$> List.find (fun p => String.eqb name (fst p)) kwargs.

Definition kw_has (name : string) (kwargs : kwargs_t) : bool :=
  bool_decide (is_Some (kw_get name kwargs)).

(** [del kwargs[name]] *)
Definition kw_del (name : string) (kwargs : kwargs_t) : kwargs_t :=
  List.filter (fun p => negb (String.eqb name (fst p))) kwargs.

(* ===================================================================== *)
(** ** The parameter registry *)
(* ===================================================================== *)

Module Registry.

(** The value under ['type']: one type, or a tuple of types. *)
Inductive pytypes : Type :=
| OneType (t : pytype)
| TypeTuple (ts : list pytype).

(** One entry of [_parameters].  A key that is absent from the entry's dict
    is [None] here.  An ['extra_check'] function returns [None] when the
    call raises.  A ['condition-list'] maps the printed value of the
    parameter to the parameters needed with it, each given as a list of
    alternatives. *)
Record ParameterSpec : Type := {
  help : string;
  type : option pytypes;
  default : option pyval;
  range : option (list pyval);
  extra_check : option (pyval -> option bool);
  condition_list : option (list (string * list (list string)))
}.

Definition spec (h : string) (t : pytypes) (d : option pyval)
    (r : option (list pyval)) : ParameterSpec :=
  {| help := h; type := Some t; default := d; range := r;
     extra_check := None; condition_list := None |}.

Abbreviation registry := (list (string * ParameterSpec)).

Definition reg_get (name : string) (p : registry) : option ParameterSpec :=
  snd <$> List.find (fun e => String.eqb name (fst e)) p.

Definition reg_has (name : string) (p : registry) : bool :=
  bool_decide (is_Some (reg_get name p)).

(** The entries of the module-level [_parameters] that the solver classes
    of [ODE.py] modelled below draw on ([Solver], [SolverImplicit],
    [ThetaRule], [Adaptive], the Adams-Bashforth family and
    [AdaptiveResidual]); the entries for the wrapped Fortran solvers are
    not listed. *)
Definition _parameters : registry :=
  [ ("f", spec "Right-hand side f(u,t) defining the ODE"
        (OneType TCallable) None None);
    ("f_args", spec "Extra positional arguments to f"
        (TypeTuple [TClass CTuple; TClass CList; TClass CNdarray])
        (Some (VTuple [])) None);
    ("f_kwargs", spec "Extra keyword arguments to f"
        (OneType (TClass CDict)) (Some (VDict [])) None);
    ("complex_valued", spec "True if f is complex valued"
        (OneType (TClass CBool)) (Some (VBool false)) None);
    ("jac", spec "Jacobian of right-hand side function f (df/du)"
        (OneType TCallable) (Some VNone) None);
    ("jac_args", spec "Extra positional arguments to jac"
        (TypeTuple [TClass CTuple; TClass CList]) (Some (VTuple [])) None);
    ("jac_kwargs", spec "Extra keyword arguments to jac"
        (OneType (TClass CDict)) (Some (VDict [])) None);
    ("h_in_fd_jac", spec "h in finite difference approximation of the Jacobian"
        (OneType (TClass CFloat)) (Some (VFloat (1 # 10000))) None);
    ("start_method", spec "Method for the first steps in multi-step solvers"
        (OneType (TClass CStr)) (Some (VStr "RK2")) None);
    ("nonlinear_solver", spec "Newton or Picard nonlinear solver"
        (OneType (TClass CStr)) (Some (VStr "Picard"))
        (Some [VStr "Newton"; VStr "Picard"]));
    ("eps_iter", spec "Max error measure in nonlinear solver"
        (OneType (TClass CFloat)) (Some (VFloat (1 # 10000))) None);
    ("max_iter", spec "Max no of iterations in nonlinear solver"
        (OneType (TClass CInt)) (Some (VInt 25)) None);
    ("theta", spec "Weight in [0,1] used for theta-rule finite difference approx."
        (TypeTuple [TClass CInt; TClass CFloat]) (Some (VFloat (1 # 2)))
        (Some [VInt 0; VInt 1]));
    ("atol", spec "absolute tolerance for solution"
        (TypeTuple [TClass CFloat; TClass CList; TClass CTuple; TClass CNdarray])
        (Some (VFloat (1 # 100000000))) None);
    ("rtol", spec "relative tolerance for solution"
        (TypeTuple [TClass CList; TClass CTuple; TClass CNdarray; TClass CFloat])
        (Some (VFloat (1 # 1000000))) None);
    ("min_step", spec "Minimum step size for an adaptive algorithm"
        (OneType (TClass CFloat)) None None);
    ("max_step", spec "Maximum step size for an adaptive algorithm"
        (OneType (TClass CFloat)) None None);
    ("first_step", spec "Suggested first time step size for an adaptive algorithm"
        (OneType (TClass CFloat)) None None);
    ("solver", spec "Name of solver class in solvers that need an extra solver"
        (OneType (TClass CStr)) (Some (VStr "RK4")) None);
    ("adams_or_bdf", spec "Method in vode or solvers in odepack: adams or bdf"
        (OneType (TClass CStr)) (Some (VStr "adams"))
        (Some [VStr "adams"; VStr "bdf"]));
    ("relaxation", spec "relaxation argument (r): new_solution = r*solution + (1-r)*old_solution"
        (OneType (TClass CFloat)) (Some (VFloat 1)) None)
  ].

(** [self._parameters] as [Solver.__init__] builds it: the entries of the
    global table whose key is in [_optional_parameters] or in
    [_required_parameters]. *)
Definition instance_parameters (global : registry)
    (optional required : list string) : registry :=
  List.filter (fun e => existsb (String.eqb (fst e)) optional
                        || existsb (String.eqb (fst e)) required) global.

(** The class attributes [_required_parameters] and [_optional_parameters]. *)
Definition Solver_required : list string := ["f"].
Definition Solver_optional : list string :=
  ["f_args"; "f_kwargs"; "complex_valued"].
Definition SolverImplicit_optional : list string :=
  (Solver_optional ++
   ["jac"; "jac_args"; "jac_kwargs"; "h_in_fd_jac";
    "nonlinear_solver"; "max_iter"; "eps_iter"; "relaxation"]).
Definition ThetaRule_optional : list string :=
  (SolverImplicit_optional ++ ["theta"]).
Definition Adaptive_optional : list string :=
  (Solver_optional ++
   ["rtol"; "atol"; "first_step"; "min_step"; "max_step"]).
Definition AdamsBashforth_optional : list string :=
  (Solver_optional ++ ["start_method"]).

(** The loop of [Solver.__init__] that turns every ['default'] into an
    attribute. *)
Definition set_defaults (p : registry) (self : attrs) : attrs :=
  fold_left (fun s e => match default (snd e) with
                        | Some d => <[fst e := d]> s
                        | None => s
                        end) p self.

End Registry.

Import Registry.

(* ===================================================================== *)
(** ** Solver configuration: [Solver.set] and its checkers *)
(* ===================================================================== *)

Module Config.

Section Solver.

(** [numpy.f2py.compile] followed by [import _callback]: [None] when either
    fails, otherwise the attribute lookup of the compiled module. *)
Variable f2py_compile : string -> option (string -> option pyval).

(** The builtin [str], used on parameter values by
    [check_conditional_parameters]. *)
Variable py_str : pyval -> string.

(** [self._parameters] *)
Variable parameters : registry.

Definition pytype_is_callable (tp : pytype) : bool :=
  match tp with TCallable => true | _ => false end.

(** [isinstance(kwargs[func], str) and func in _parameters and
    _parameters[func]['type'] is callable] *)
Definition is_string_function (e : string * pyval) : bool :=
  isinstance (snd e) CStr &&
  match reg_get (fst e) _parameters with
  | Some sp => match type sp with
               | Some (OneType TCallable) => true
               | _ => false
               end
  | None => false
  end.

Definition source_text (v : pyval) : string :=
  match v with VStr s => s | _ => EmptyString end.

(** ['\n'.join(...)] *)
Fixpoint join_lines (l : list string) : string :=
  match l with
  | [] => EmptyString
  | [s] => s
  | s :: rest => s +:+ String (Ascii.ascii_of_nat 10) (join_lines rest)
  end.

(** [kwargs[name] = v] *)
Fixpoint kw_set (name : string) (v : pyval) (kwargs : kwargs_t) : kwargs_t :=
  match kwargs with
  | [] => [(name, v)]
  | (k, w) :: rest =>
      if String.eqb name k then (k, v) :: rest
      else (k, w) :: kw_set name v rest
  end.

(** The loop [for func in str_funcs.keys()] inside the [try] block. *)
Fixpoint install_callbacks (callback : string -> option pyval)
    (funcs : list string) (kwargs : kwargs_t) : result kwargs_t :=
  match funcs with
  | [] => Ok kwargs
  | func :: rest =>
      match callback func with
      | None => Raise ValueError
      | Some v =>
          if String.eqb func "f" then install_callbacks callback rest kwargs
          else install_callbacks callback rest (kw_set func v kwargs)
      end
  end.

(** [compile_string_functions(None, **kwargs)], as [set] calls it; the
    returned [f] is dropped by the caller and is not modelled. *)
Definition compile_string_functions (kwargs : kwargs_t) : result kwargs_t :=
  let str_funcs := List.filter is_string_function kwargs in
  let string_to_compile := join_lines (List.map (fun e => source_text (snd e)) str_funcs) in
  if String.eqb string_to_compile EmptyString then Ok kwargs
  else match f2py_compile string_to_compile with
       | None => Raise ValueError
       | Some callback => install_callbacks callback (List.map fst str_funcs) kwargs
       end.

(** The first loop of [set], over the names of [kwargs_copy]. *)
Fixpoint set_names (strict : bool) (names : list string) (kwargs : kwargs_t)
    : M kwargs_t :=
  match names with
  | [] => mret kwargs
  | name :: rest =>
      if negb (reg_has name parameters) then
        if strict then raise ValueError
        else set_names strict rest (kw_del name kwargs)
      else
        match kw_get name kwargs with
        | None => raise KeyError
        | Some VNone =>
            present ← hasattr name;
            (if present : bool then delattr name else mret tt) ;;
            set_names strict rest (kw_del name kwargs)
        | Some _ => set_names strict rest kwargs
        end
  end.

(** The list comprehension shared by the three checkers:
    [[(name, parameters[name][key], kwargs[name]) for name in parameters
      if name in kwargs and key in parameters[name]]]. *)
Definition arg_list {A} (key : ParameterSpec -> option A) (kwargs : kwargs_t)
    : list (string * A * pyval) :=
  omap (fun e => match kw_get (fst e) kwargs, key (snd e) with
                 | Some v, Some a => Some (fst e, a, v)
                 | _, _ => None
                 end) parameters.

(** [isinstance(value, tp)] for an entry of a type list; a second argument
    that is not a class makes [isinstance] raise [TypeError]. *)
Definition isinstance_entry (value : pyval) (tp : pytype) : result bool :=
  match tp with
  | TClass c => Ok (isinstance value c)
  | TCallable | TFunction => Raise TypeError
  end.

(** The loop [for tp in types] of [check_input_types]. *)
Fixpoint check_types (types : list pytype) (value : pyval)
    (checked_type : bool) : result bool :=
  match types with
  | [] => Ok checked_type
  | tp :: rest =>
      if pytype_is_callable tp && callable value then
        check_types rest value true
      else
        match isinstance_entry value tp with
        | Ok b => check_types rest value (if b then true else checked_type)
        | Raise e => Raise e
        end
  end.

Definition type_list (types : pytypes) : list pytype :=
  match types with OneType t => [t] | TypeTuple ts => ts end.

Fixpoint check_input_types_loop (l : list (string * pytypes * pyval))
    : result bool :=
  match l with
  | [] => Ok true
  | (_, types, value) :: rest =>
      match check_types (type_list types) value false with
      | Ok true => check_input_types_loop rest
      | Ok false => Raise TypeError
      | Raise e => Raise e
      end
  end.

Definition check_input_types (kwargs : kwargs_t) : result bool :=
  check_input_types_loop (arg_list type kwargs).

(** The body of the loop of [check_input_range] for one parameter. *)
Definition check_range (ranges : list pyval) (value : pyval) : result unit :=
  match as_number value with
  | Some x =>
      match ranges with
      | [low; high] =>
          if (le_number low x && ge_number high x)
             || (ge_number low x && le_number high x)
          then Ok tt else Raise ValueError
      | _ => if number_in x ranges then Ok tt else Raise ValueError
      end
  | None => Ok tt
  end.

Fixpoint check_input_range_loop (l : list (string * list pyval * pyval))
    : result bool :=
  match l with
  | [] => Ok true
  | (_, ranges, value) :: rest =>
      match check_range ranges value with
      | Ok _ => check_input_range_loop rest
      | Raise e => Raise e
      end
  end.

Definition check_input_range (kwargs : kwargs_t) : result bool :=
  check_input_range_loop (arg_list range kwargs).

Fixpoint check_extra_loop
    (l : list (string * (pyval -> option bool) * pyval)) : result bool :=
  match l with
  | [] => Ok true
  | (_, check_funcs, value) :: rest =>
      match check_funcs value with
      | Some true => check_extra_loop rest
      | _ => Raise ValueError
      end
  end.

Definition check_extra (kwargs : kwargs_t) : result bool :=
  check_extra_loop (arg_list extra_check kwargs).

(** [found] for one entry of a condition tuple; a plain name is a list of
    one alternative. *)
Definition condition_found (self : attrs) (arg : list string) : bool :=
  existsb (fun p_name => bool_decide (is_Some (self !! p_name))) arg.

Fixpoint check_conditional_loop (self : attrs)
    (l : list (string * list (string * list (list string)) * pyval))
    : result bool :=
  match l with
  | [] => Ok true
  | (_, conditions, value) :: rest =>
      match List.find (fun c => String.eqb (py_str value) (fst c)) conditions with
      | Some (_, condition_args) =>
          if forallb (condition_found self) condition_args
          then check_conditional_loop self rest
          else Raise ValueError
      | None => check_conditional_loop self rest
      end
  end.

Definition check_conditional_parameters : M bool :=
  fun self =>
    (check_conditional_loop self
       (omap (fun e => match self !! fst e, condition_list (snd e) with
                       | Some v, Some c => Some (fst e, c, v)
                       | _, _ => None
                       end) parameters),
     self).

(** The loop [for name in kwargs: setattr(self, name, kwargs[name])]. *)
Fixpoint commit (kwargs : kwargs_t) : M unit :=
  match kwargs with
  | [] => mret tt
  | (name, v) :: rest => setattr name v ;; commit rest
  end.

Definition set (strict : bool) (kwargs : kwargs_t) : M unit :=
  kwargs ← lift (compile_string_functions kwargs);
  kwargs ← set_names strict (List.map fst kwargs) kwargs;
  lift (check_input_types kwargs) ;;
  lift (check_input_range kwargs) ;;
  lift (check_extra kwargs) ;;
  commit kwargs ;;
  check_conditional_parameters ;;
  mret tt.

(** [Solver.__init__] for a right-hand side given as a Python function
    (not as Fortran source): the defaults become attributes, the keyword
    arguments that are [None] are dropped, [set] is applied to the rest,
    and [f] is wrapped.  The first statement of the constructor,
    [self._parameters = dict(...)], builds the registry [parameters] after
    [adjust_parameters]; the attribute [_parameters] it binds is that
    registry and is no entry of the dictionary here. *)
Definition init (f : pyval) (kwargs : kwargs_t) : M unit :=
  (fun self => (Ok tt, set_defaults parameters self)) ;;
  set false (List.filter (fun e => negb (is_None (snd e))) kwargs) ;;
  if is_None f then mret tt
  else
    setattr "users_f" f ;;
    if callable f then setattr "f" (VCallable "lambda u, t") else raise TypeError.

(** No removal request ([name=None]) in [kwargs] hits an attribute that
    is set. *)
Definition no_removal (kwargs : kwargs_t) (self : attrs) : Prop :=
  forall name, kw_get name kwargs = Some VNone -> self !! name = None.

(** No entry of the registry carries a ['condition-list']; this holds for
    every entry of [_parameters] in [ODE.py]. *)
Definition no_condition_lists : Prop :=
  Forall (fun e => condition_list (snd e) = None) parameters.

(** [get(parameter_name)] and [get()], for names that [hasattr] and
    [getattr] find in the instance dictionary or not at all, as they do
    every key of [_parameters]: no method and no class attribute of
    [Solver] has the name of a parameter.  [Getattr] has the lookup that
    goes on to the class. *)
Definition get (parameter_name : string) : M pyval :=
  fun self => match self !! parameter_name with
              | Some value => (Ok value, self)
              | None => (Raise AttributeError, self)
              end.

Definition get_all : M (list (string * pyval)) :=
  fun self =>
    (Ok (omap (fun e => (fun v => (fst e, v)) <$> self !! fst e) parameters),
     self).

End Solver.

End Config.

(* ===================================================================== *)
(** ** Arrays and attribute access *)
(* ===================================================================== *)

Module Array.

(** [self.name]: [AttributeError] when the attribute is not set. *)
Definition getattr (name : string) : M pyval :=
  fun self => match self !! name with
              | Some v => (Ok v, self)
              | None => (Raise AttributeError, self)
              end.

(** [len(v)]; [None] stands for the [TypeError] of an object without
    [__len__]. *)
Definition py_len (v : pyval) : option nat :=
  match v with
  | VStr s => Some (String.length s)
  | VTuple l | VList l | VArray l => Some (length l)
  | VDict d => Some (length d)
  | VNone | VBool _ | VInt _ | VFloat _ | VCallable _ => None
  end.

(** [np.asarray(v)].  A list or tuple becomes a one-dimensional array of
    its items; the zero-dimensional array numpy wraps around any other
    object is represented by the object. *)
Definition asarray (v : pyval) : pyval :=
  match v with
  | VTuple l | VList l | VArray l => VArray l
  | _ => v
  end.

(** [float(v)] on an [int]. *)
Definition float (v : pyval) : pyval :=
  match as_number v with
  | Some q => VFloat q
  | None => v
  end.

(** The items of a one-dimensional array; indexing anything else is an
    [IndexError]. *)
Definition items (a : pyval) : result (list pyval) :=
  match a with
  | VArray l => Ok l
  | _ => Raise IndexError
  end.

(** [a[i]] for [i >= 0] *)
Definition getitem (a : pyval) (i : nat) : result pyval :=
  match items a with
  | Ok l => match l !! i with
            | Some v => Ok v
            | None => Raise IndexError
            end
  | Raise e => Raise e
  end.

(** [a[-1]] *)
Definition getlast (a : pyval) : result pyval :=
  match items a with
  | Ok l => match last l with
            | Some v => Ok v
            | None => Raise IndexError
            end
  | Raise e => Raise e
  end.

(** [a[i] = v] for [i >= 0]: in place, [IndexError] out of range. *)
Definition setitem (a : pyval) (i : nat) (v : pyval) : result pyval :=
  match items a with
  | Ok l => if bool_decide (i < length l)%nat then Ok (VArray (<[i := v]> l))
            else Raise IndexError
  | Raise e => Raise e
  end.

(** [a[:k]] *)
Definition slice_to (a : pyval) (k : nat) : pyval :=
  match a with
  | VArray l => VArray (take k l)
  | _ => a
  end.

(** [a.size] of a one-dimensional array; a zero-dimensional one has size 1. *)
Definition size (a : pyval) : nat :=
  match a with
  | VArray l => length l
  | _ => 1
  end.

(** The item stored into an array of dtype [float] when a number is
    assigned to one of its slots. *)
Definition as_float (v : pyval) : result pyval :=
  match as_number v with
  | Some q => Ok (VFloat q)
  | None => Raise ValueError
  end.

Fixpoint as_floats (l : list pyval) : result (list pyval) :=
  match l with
  | [] => Ok []
  | v :: rest =>
      match as_float v, as_floats rest with
      | Ok x, Ok xs => Ok (x :: xs)
      | Raise e, _ => Raise e
      | _, Raise e => Raise e
      end
  end.

(** The numbers held by a scalar or by a one-dimensional array. *)
Fixpoint all_numbers (l : list pyval) : option (list Q) :=
  match l with
  | [] => Some []
  | v :: rest =>
      match as_number v, all_numbers rest with
      | Some q, Some qs => Some (q :: qs)
      | _, _ => None
      end
  end.

Definition numbers (v : pyval) : option (list Q) :=
  match v with
  | VArray l => all_numbers l
  | _ => (fun q => [q]) <$> as_number v
  end.

End Array.

Import Array.

(** Unfolds the monad of method calls down to state passing. *)
Ltac run_M :=
  unfold mbind, M_bind, bind, mret, M_ret, ret, lift, raise,
         getattr, setattr, hasattr, delattr in *.

(* ===================================================================== *)
(** ** Initial condition, validation and the time loop of [Solver] *)
(* ===================================================================== *)

Module TimeLoop.

(** [Solver.set_initial_condition] *)
Definition set_initial_condition (U0 : pyval) : M unit :=
  match py_len U0 with
  | Some n =>
      setattr "neq" (VInt (Z.of_nat n)) ;;
      setattr "U0" (asarray U0)
  | None =>
      setattr "neq" (VInt 1) ;;
      setattr "U0" (if isinstance U0 CInt then float U0 else U0)
  end.

(** [np.zeros(N+1, dtype)] and [np.zeros((N+1, neq), dtype)] for a real
    dtype: one slot per grid point, a scalar for [neq == 1] and a row of
    [neq] numbers otherwise. *)
Definition zero_slot (neq : Z) : pyval :=
  if (neq =? 1)%Z then VFloat 0
  else VArray (replicate (Z.to_nat neq) (VFloat 0)).

Definition zeros (points : nat) (neq : Z) : pyval :=
  VArray (replicate points (zero_slot neq)).

(** What the assignment [self.u[0] = self.U0] stores in slot 0: the
    numbers of [U0] as floats.  For [neq == 1] the slot is a scalar, which
    also takes an array of size one; otherwise the slot is a row of [neq]
    numbers, which takes an array of that length or a scalar to repeat. *)
Definition initial_row (neq : Z) (U0 : pyval) : result pyval :=
  if (neq =? 1)%Z then
    match U0 with
    | VArray [x] => as_float x
    | VArray _ => Raise ValueError
    | _ => as_float U0
    end
  else
    match U0 with
    | VArray l =>
        if (Z.of_nat (length l) =? neq)%Z
        then match as_floats l with
             | Ok xs => Ok (VArray xs)
             | Raise e => Raise e
             end
        else Raise ValueError
    | _ => match as_float U0 with
           | Ok x => Ok (VArray (replicate (Z.to_nat neq) x))
           | Raise e => Raise e
           end
    end.

(** [Solver.set_internal_parameters] for a real-valued problem.  The call
    [self.f(self.U0, self.t[0])] that only serves to find the dtype is
    reduced to its two attribute reads. *)
Definition set_internal_parameters : M unit :=
  U0 ← getattr "U0";
  t ← getattr "t";
  has_f ← hasattr "f";
  (if has_f : bool then lift (getitem t 0) ;; mret tt else mret tt) ;;
  setattr "dtype" (VStr "float64") ;;
  setattr "complex_valued" (VBool false) ;;
  neq ← getattr "neq";
  match neq with
  | VInt neq =>
      setattr "u" (zeros (size t) neq) ;;
      u ← getattr "u";
      row ← lift (initial_row neq U0);
      u ← lift (setitem u 0 row);
      setattr "u" u
  | _ => raise TypeError
  end.

(** [isinstance(t, (int, float))] for an item of the time grid. *)
Definition is_real (v : pyval) : bool :=
  match v with VInt _ | VFloat _ => true | _ => false end.

Definition num (v : pyval) : Q :=
  match as_number v with Some q => q | None => 0 end.

(** The builtin [sorted] on numbers, as a stable insertion sort;
    [reverse=True] sorts in descending order and is stable as well. *)
Fixpoint insert_sorted (reverse : bool) (x : pyval) (l : list pyval)
    : list pyval :=
  match l with
  | [] => [x]
  | y :: rest =>
      if (if reverse then Qle_bool (num y) (num x)
          else Qle_bool (num x) (num y))
      then x :: l
      else y :: insert_sorted reverse x rest
  end.

Definition sorted (l : list pyval) (reverse : bool) : list pyval :=
  foldr (insert_sorted reverse) [] l.

(** [list(a) != list(b)] negated: same length and [==] item by item. *)
Fixpoint list_eq (a b : list pyval) : bool :=
  match a, b with
  | [], [] => true
  | x :: a', y :: b' => Qeq_bool (num x) (num y) && list_eq a' b'
  | _, _ => false
  end.

(** The items of a list, tuple or array. *)
Definition sequence_items (v : pyval) : option (list pyval) :=
  match v with
  | VTuple l | VList l | VArray l => Some l
  | _ => None
  end.

(** [Solver.validate_data]; [required] is [self._required_parameters]. *)
Definition validate_data (required : list string) : M bool :=
  t ← getattr "t";
  match sequence_items t with
  | None => raise TypeError
  | Some ts =>
      if negb (forallb is_real ts) then raise TypeError
      else
        match ts !! 0%nat, last ts with
        | Some first, Some final =>
            let t_sorted := sorted ts (negb (Qle_bool (num first) (num final))) in
            if negb (list_eq ts t_sorted) then raise ValueError
            else
              fun self =>
                if forallb (fun arg => bool_decide (is_Some (self !! arg)))
                           required
                then (Ok true, self)
                else (Raise ValueError, self)
        | _, _ => raise IndexError
        end
  end.

Section Solve.

(** [self.advance()]: the method of the subclass; it may read and write
    any attribute and returns the new value. *)
Variable advance : M pyval.

(** [self.validate_data()] of the class at hand; its return value is
    ignored by [solve]. *)
Variable validate : M bool.

(** [terminate(u, t, step_no)] *)
Variable terminate : pyval -> pyval -> nat -> bool.

(** The first two statements of the loop body:
    [self.n = n; self.u[n+1] = self.advance()]. *)
Definition step (n : nat) : M pyval :=
  setattr "n" (VInt (Z.of_nat n)) ;;
  unew ← advance;
  u ← getattr "u";
  u ← lift (setitem u (n + 1) unew);
  setattr "u" u ;;
  mret u.

(** The time loop, with [ns] the part of [range(N)] still to be run. *)
Fixpoint time_loop (ns : list nat) : M unit :=
  match ns with
  | [] => mret tt
  | n :: rest =>
      u ← step n;
      t ← getattr "t";
      if terminate u t (n + 1) then
        setattr "u" (slice_to u (n + 2)) ;;
        setattr "t" (slice_to t (n + 2))
      else time_loop rest
  end.

(** The loop body repeated for [n = 0 .. k-1] with no termination test:
    the run that [terminate] observes. *)
Fixpoint steps (from k : nat) : M unit :=
  match k with
  | O => mret tt
  | S k' => step from ;; steps (S from) k'
  end.

(** [Solver.solve], after the default for [terminate] has been filled in;
    [set_internal_parameters] is the method of [Solver] itself. *)
Definition solve (time_points : pyval) : M (pyval * pyval) :=
  setattr "t" (asarray time_points) ;;
  TimeLoop.set_internal_parameters ;;
  validate ;;
  t ← getattr "t";
  let N := (size t - 1)%nat in
  time_loop (seq 0 N) ;;
  u ← getattr "u";
  t ← getattr "t";
  mret (u, t).

End Solve.

(** The shape [solve] keeps between passes: [self.t] is the grid [ts] and
    [self.u] has one slot per grid point, the first holding [row]. *)
Definition well_formed (ts : list pyval) (row : pyval) (s : attrs) : Prop :=
  s !! "t" = Some (VArray ts)
  /\ exists rest, s !! "u" = Some (VArray (row :: rest))
                  /\ (length rest + 1 = length ts)%nat.

(** What [solve] needs of an [advance] method: called at a step [n] inside
    the grid it returns a value, and it leaves [self.t], the length of
    [self.u] and [self.u[0]] alone. *)
Definition advance_frame (advance : M pyval) (ts : list pyval) (row : pyval)
    : Prop :=
  forall (s : attrs) (n : nat),
    well_formed ts row s ->
    s !! "n" = Some (VInt (Z.of_nat n)) ->
    (n + 1 < length ts)%nat ->
    exists v s', advance s = (Ok v, s') /\ well_formed ts row s'.

(** The answer of [terminate] after pass number [k] of the loop body,
    started in [s1]. *)
Definition fires (advance : M pyval) (terminate : pyval -> pyval -> nat -> bool)
    (ts : list pyval) (s1 : attrs) (k : nat) : bool :=
  match snd (steps advance 0 k s1) !! "u" with
  | Some u => terminate u (VArray ts) k
  | None => false
  end.

(** [fires] for passes that start at index [from]. *)
Definition fires_from (advance : M pyval)
    (terminate : pyval -> pyval -> nat -> bool) (ts : list pyval)
    (from : nat) (s : attrs) (j : nat) : bool :=
  match snd (steps advance from j s) !! "u" with
  | Some u => terminate u (VArray ts) (from + j)
  | None => false
  end.

(** The default [terminate = lambda u, t, step_no: False]. *)
Definition never_terminate : pyval -> pyval -> nat -> bool :=
  fun _ _ _ => false.

(** [Euler.advance] for a scalar problem with right-hand side [f]:
    [u[n] + dt*f(u[n], t[n])] with [dt = t[n+1] - t[n]]; the fraction is
    kept in lowest terms. *)
Definition Euler_advance (f : Q -> Q -> Q) : M pyval :=
  u ← getattr "u";
  t ← getattr "t";
  n ← getattr "n";
  let n := match n with VInt z => Z.to_nat z | _ => O end in
  tn1 ← lift (getitem t (n + 1));
  tn ← lift (getitem t n);
  un ← lift (getitem u n);
  let dt := (num tn1 - num tn)%Q in
  mret (VFloat (Qred (num un + dt * f (num un) (num tn)))).

End TimeLoop.

(* ===================================================================== *)
(** ** The Adams-Bashforth family: uniform grids *)
(* ===================================================================== *)

Module Multistep.

(** [np.linspace(start, stop, num)] *)
Definition linspace (start stop : Q) (num : nat) : list Q :=
  match num with
  | O => []
  | S O => [start]
  | _ =>
      let step := ((stop - start) / inject_Z (Z.of_nat num - 1))%Q in
      List.map (fun i => (inject_Z (Z.of_nat i) * step + start)%Q) (seq 0 num)
  end.

(** [np.allclose(a, b)] with the default [rtol=1e-5], [atol=1e-8]:
    [|a - b| <= atol + rtol*|b|] at every index. *)
Fixpoint allclose (a b : list Q) : bool :=
  match a, b with
  | [], [] => true
  | x :: a', y :: b' =>
      Qle_bool (Qabs (x - y)) ((1 # 100000000) + (1 # 100000) * Qabs y)
      && allclose a' b'
  | _, _ => false
  end.

(** [Solver.constant_time_step] *)
Definition constant_time_step : M bool :=
  t ← getattr "t";
  first ← lift (getitem t 0);
  final ← lift (getlast t);
  ts ← lift (items t);
  mret (allclose (List.map TimeLoop.num ts)
          (linspace (TimeLoop.num first) (TimeLoop.num final) (length ts))).

(** [validate_data] as it is written, word for word, in [AdamsBashforth2],
    [AdamsBashforth3], [AdamsBashforth4], [AdamsBashMoulton2] and
    [AdamsBashMoulton3].  The [print] statement first formats its message
    with [self.__name__]; the instance dictionary decides that lookup,
    since no class of [ODE.py] has [__name__] in its body and an instance
    does not inherit the name of its class.  The printed text itself is
    not part of the state. *)
Definition validate_data : M bool :=
  uniform ← constant_time_step;
  if negb uniform then
    getattr "__name__" ;;
    mret false
  else mret true.

End Multistep.

(* ===================================================================== *)
(** ** Implicit schemes for a scalar problem *)
(* ===================================================================== *)

Module Implicit.

Local Open Scope Q_scope.

Inductive scheme : Type :=
| BackwardEuler
| Backward2Step
| ThetaRule (theta : Q)
| MidpointImplicit.

Inductive nonlinear_solver : Type :=
| Picard
| Newton
| FixedPoint
| OtherSolver (name : string).

(** The attributes [advance] reads. *)
Record solver : Type := {
  f : Q -> Q -> Q;
  jac : Q -> Q -> Q;
  u : list Q;
  t : list Q;
  n : nat;
  max_iter : Z;
  eps_iter : Q;
  relaxation : Q;
  nonlinear : nonlinear_solver
}.

(** [a[i]], with Python's reading of a negative index; [IndexError]
    otherwise. *)
Definition item (a : list Q) (i : Z) : result Q :=
  let len := Z.of_nat (length a) in
  let j := (if i <? 0 then i + len else i)%Z in
  if (j <? 0)%Z then Raise IndexError
  else match a !! Z.to_nat j with
       | Some x => Ok x
       | None => Raise IndexError
       end.

Section Scheme.

Variable self : solver.

Definition u_ (i : Z) : result Q := item (u self) i.
Definition t_ (i : Z) : result Q := item (t self) i.
Definition n_ : Z := Z.of_nat (n self).

Definition Picard_update (s : scheme) (ukp1 : Q) : result Q :=
  match s with
  | BackwardEuler =>
      tn1 <~ t_ (n_ + 1); tn <~ t_ n_; un <~ u_ n_;
      let dt := tn1 - tn in
      Ok (un + dt * f self ukp1 tn1)
  | Backward2Step =>
      if (n_ =? 0)%Z then
        tn1 <~ t_ (n_ + 1); tn <~ t_ n_; un <~ u_ n_;
        let dt := tn1 - tn in
        Ok (un + dt * f self ukp1 tn1)
      else
        tn1 <~ t_ (n_ + 1); tp <~ t_ (n_ - 1);
        un <~ u_ n_; up <~ u_ (n_ - 1);
        let dt2 := tn1 - tp in
        Ok ((4 # 3) * un - (1 # 3) * up + (1 # 3) * dt2 * f self ukp1 tn1)
  | ThetaRule theta =>
      tn1 <~ t_ (n_ + 1); tn <~ t_ n_; un <~ u_ n_;
      let dt := tn1 - tn in
      Ok (un + theta * dt * f self ukp1 tn1 + (1 - theta) * dt * f self un tn)
  | MidpointImplicit =>
      tn1 <~ t_ (n_ + 1); tn <~ t_ n_; un <~ u_ n_;
      let dt := tn1 - tn in
      Ok (un + dt * f self ((ukp1 + un) / 2) (tn + dt / 2))
  end.

(** [Newton_system]: the pair [(F, J)]; [np.eye(1)] is [1]. *)
Definition Newton_system (s : scheme) (ukp1 : Q) : result (Q * Q) :=
  match s with
  | BackwardEuler =>
      tn1 <~ t_ (n_ + 1); tn <~ t_ n_; un <~ u_ n_;
      let dt := tn1 - tn in
      let F := ukp1 - (un + dt * f self ukp1 tn1) in
      let J := 1 - dt * jac self ukp1 tn1 in
      Ok (F, J)
  | Backward2Step =>
      if (n_ =? 0)%Z then
        tn1 <~ t_ (n_ + 1); tn <~ t_ n_; un <~ u_ n_;
        let dt := tn1 - tn in
        let F := ukp1 - (un + dt * f self ukp1 tn1) in
        let J := 1 - dt * jac self ukp1 tn1 in
        Ok (F, J)
      else
        tn1 <~ t_ (n_ + 1); tp <~ t_ (n_ - 1);
        un <~ u_ n_; up <~ u_ (n_ - 1);
        let dt2 := tn1 - tp in
        let F := ukp1 - ((4 # 3) * un - (1 # 3) * up
                         + (1 # 3) * dt2 * f self ukp1 tn1) in
        let J := 1 - (1 # 3) * dt2 * jac self ukp1 tn1 in
        Ok (F, J)
  | ThetaRule theta =>
      tn1 <~ t_ (n_ + 1); tn <~ t_ n_; un <~ u_ n_;
      let dt := tn1 - tn in
      let F := ukp1 - (un + theta * dt * f self ukp1 tn1
                       + (1 - theta) * dt * f self un tn) in
      let J := 1 - theta * dt * jac self ukp1 tn1 in
      Ok (F, J)
  | MidpointImplicit =>
      tn1 <~ t_ (n_ + 1); tn <~ t_ n_; un <~ u_ n_;
      let dt := tn1 - tn in
      let F := ukp1 - un + dt * f self ((ukp1 + un) / 2) (tn + dt / 2) in
      let J := 1 - dt * jac self ukp1 tn1 in
      Ok (F, J)
  end.

(** The branch on [self.nonlinear_solver] inside the loop: the value bound
    to [unew].  With any other name no branch binds [unew] and its first
    use raises [UnboundLocalError], a [NameError]. *)
Definition trial (s : scheme) (un tn dt u_new : Q) : result Q :=
  match nonlinear self with
  | Picard => Picard_update s u_new
  | Newton =>
      FJ <~ Newton_system s u_new;
      let du := fst FJ / snd FJ in
      Ok (u_new - du)
  | FixedPoint => Ok (un + dt * f self u_new tn)
  | OtherSolver _ => Raise NameError
  end.

(** The [while] loop of [advance].  [left] counts the passes that
    [i <= self.max_iter] still allows, [max_iter - i + 1]. *)
Fixpoint iterate (s : scheme) (un tn dt : Q) (left : nat) (error u_new : Q)
    : result Q :=
  match left with
  | O => Ok u_new
  | S left' =>
      if Qle_bool error (eps_iter self) then Ok u_new
      else
        unew <~ trial s un tn dt u_new;
        let error := Qabs (unew - u_new) in
        let r := relaxation self in
        let u_new := r * unew + (1 - r) * un in
        iterate s un tn dt left' error u_new
  end.

(** [SolverImplicit.advance] *)
Definition advance (s : scheme) : result Q :=
  un <~ u_ n_; t_new <~ t_ (n_ + 1); tn <~ t_ n_;
  let dt := t_new - tn in
  let u_new := un + (t_new - tn) * f self un tn in
  iterate s un tn dt (Z.to_nat (max_iter self)) (inject_Z (10 ^ 30)) u_new.

(** The inner iteration as the specification words it: the relaxation
    blends the value just computed with the trial guess held before this
    pass.  Everything else is as in [iterate]. *)
Fixpoint iterate_spec (s : scheme) (un tn dt : Q) (left : nat)
    (error u_old : Q) : result Q :=
  match left with
  | O => Ok u_old
  | S left' =>
      if Qle_bool error (eps_iter self) then Ok u_old
      else
        unew <~ trial s un tn dt u_old;
        let error := Qabs (unew - u_old) in
        let r := relaxation self in
        let u_new := r * unew + (1 - r) * u_old in
        iterate_spec s un tn dt left' error u_new
  end.

Definition advance_spec (s : scheme) : result Q :=
  un <~ u_ n_; t_new <~ t_ (n_ + 1); tn <~ t_ n_;
  let dt := t_new - tn in
  let u_new := un + (t_new - tn) * f self un tn in
  iterate_spec s un tn dt (Z.to_nat (max_iter self)) (inject_Z (10 ^ 30)) u_new.

(** The residual the specification gives for every scheme: the trial guess
    minus the right-hand side of the scheme, which is what
    [Picard_update] evaluates. *)
Definition residual_spec (s : scheme) (ukp1 : Q) : result Q :=
  rhs <~ Picard_update s ukp1; Ok (ukp1 - rhs).

End Scheme.

End Implicit.

(* ===================================================================== *)
(** ** Adaptive solvers: step-size defaults and Runge-Kutta-Fehlberg *)
(* ===================================================================== *)

Module Fehlberg.

Local Open Scope R_scope.

Abbreviation vec := (list R).

#[local] Instance Rle_decision (x y : R) : Decision (x <= y) := Rle_dec x y.
#[local] Instance Rlt_decision (x y : R) : Decision (x < y) := Rlt_dec x y.

(** The attributes read by the step-size code.  An attribute that is not
    set ([hasattr] false, [getattr] falling back on its default) is
    [None]. *)
Record solver : Type := {
  f : vec -> R -> vec;
  neq : nat;
  rtol : R;
  atol : R;
  u : list vec;
  t : list R;
  n : nat;
  first_step : option R;
  min_step : option R;
  max_step : option R
}.

Definition with_steps (s : solver) (fs mn mx : option R) : solver :=
  {| f := f s; neq := neq s; rtol := rtol s; atol := atol s;
     u := u s; t := t s; n := n s;
     first_step := fs; min_step := mn; max_step := mx |}.


(** [a.min()] and [a.max()]; numpy raises [ValueError] on an empty array. *)
Definition array_min (a : list R) : result R :=
  match a with
  | [] => Raise ValueError
  | x :: rest => Ok (fold_left Rmin rest x)
  end.






(** The helper [middle] of [advance]: [sorted([x, y, z])[1]]. *)
Fixpoint Rinsert_sorted (x : R) (l : list R) : list R :=
  match l with
  | [] => [x]
  | y :: rest => if Rle_dec x y then x :: l else y :: Rinsert_sorted x rest
  end.

Definition Rsorted (l : list R) : list R := foldr Rinsert_sorted [] l.

Definition middle (x y z : R) : R := nth 1 (Rsorted [x; y; z]) 0.

(** The coefficients [c] of the Butcher tableau, [c[0]] to [c[26]]. *)
Definition c (i : nat) : R :=
  nth i [ 1/4; 3/8; 3/32; 9/32; 12/13; 1932/2197; -7200/2197; 7296/2197;
          439/216; -8; 3680/513; -845/4104; 1/2; -8/27; 2; -3544/2565;
          1859/4104; -11/40; 1/360; -128/4275; -2197/75240; 1/50; 2/55;
          25/216; 1408/2565; 2197/4104; -1/5 ] 0.

(** Array arithmetic. *)
Definition vadd (a b : vec) : vec := zip_with Rplus a b.
Definition vmul (a : vec) (x : R) : vec := List.map (fun y => y * x) a.
Definition vscale (x : R) (a : vec) : vec := List.map (fun y => x * y) a.
Definition vabs (a : vec) : vec := List.map Rabs a.
Definition vsum (a : vec) : R := fold_right Rplus 0 a.

Infix "+v" := vadd (at level 50, left associativity).

(** [x ** 0.25] for [x >= 0] *)
Definition pow025 (x : R) : R := sqrt (sqrt x).

(** [1e-16 if x == 0. else x] *)
Definition floor_zero (x : R) : R :=
  if Req_dec_T x 0 then 1 / 10 ^ 16 else x.

(** [min(l)] of a Python list; [ValueError] on an empty one. *)
Definition list_min (l : list R) : result R := array_min l.

(** [getattr(self, name, d)] on an attribute that may be unset. *)
Definition getattr_default (attr : option R) (d : R) : R :=
  match attr with Some x => x | None => d end.

(** The three default step sizes at the top of [advance]:
    [getattr(self, 'min_step', dt/1000.)], [getattr(self, 'max_step', dt)],
    [getattr(self, 'first_step', dt)]. *)
Definition step_sizes (s : solver) (dt : R) : R * R * R :=
  (getattr_default (min_step s) (dt / 1000),
   getattr_default (max_step s) dt,
   getattr_default (first_step s) dt).

(** The local variables of the [while] loop. *)
Record work : Type := {
  uwork : list vec;
  twork : list R;
  h : R;
  u_new : option vec;
  t_cur : R
}.

(** The line [s = (tol/(2*error))**0.25], after the zero errors have been
    replaced. *)
Definition rescale_ratios (error tol : vec) : vec :=
  zip_with (fun tl er => pow025 (tl / (2 * er))) tol
           (List.map floor_zero error).

(** The clamp [middle(x)] with its defaults [y=.1, z=4.]. *)
Definition clamp_factor (x : R) : R := middle x 0.1 4.

(** The factor [s]: [min(map(middle, s)) if self.neq > 1 else middle(s)]. *)
Definition rescale_factor (s : solver) (error tol : vec) : result R :=
  let ratio := rescale_ratios error tol in
  if bool_decide (1 < neq s)%nat
  then list_min (List.map clamp_factor ratio)
  else match ratio with
       | [x] => Ok (clamp_factor x)
       | _ => Raise TypeError
       end.

(** The last two assignments to [h]; [last_t] is [twork[-1]] after the
    acceptance test. *)
Definition next_step (sf h min_step max_step t_next last_t : R) : R :=
  let h := middle (h * sf) min_step max_step in
  Rmin h (t_next - last_t).

(** The six stages: [u_new] and the local error [error]. *)
Definition stages (s : solver) (u : vec) (t h : R) : vec * vec :=
  let k1 := vscale h (f s u t) in
  let k2 := vscale h (f s (u +v vmul k1 (c 0)) (t + h * c 0)) in
  let k3 := vscale h (f s (u +v vmul k1 (c 2) +v vmul k2 (c 3))
                           (t + h * c 1)) in
  let k4 := vscale h (f s (u +v vmul k1 (c 5) +v vmul k2 (c 6)
                             +v vmul k3 (c 7)) (t + h * c 4)) in
  let k5 := vscale h (f s (u +v vmul k1 (c 8) +v vmul k2 (c 9)
                             +v vmul k3 (c 10) +v vmul k4 (c 11))
                           (t + h)) in
  let k6 := vscale h (f s (u +v vmul k1 (c 13) +v vmul k2 (c 14)
                             +v vmul k3 (c 15) +v vmul k4 (c 16)
                             +v vmul k5 (c 17)) (t + h * c 12)) in
  let u_new := u +v vmul k1 (c 23) +v vmul k3 (c 24) +v vmul k4 (c 25)
                 +v vmul k5 (c 26) in
  let error := vabs (vmul k1 (c 18) +v vmul k3 (c 19) +v vmul k4 (c 20)
                     +v vmul k5 (c 21) +v vmul k6 (c 22)) in
  (u_new, error).

(** [tol = rtol*np.abs(u_new) + atol] *)
Definition tolerance (s : solver) (u_new : vec) : vec :=
  List.map (fun x => rtol s * x + atol s) (vabs u_new).

(** The acceptance test [rms_norm <= 1. or h <= min_step]. *)
Definition accepted (s : solver) (error tol : vec) (h min_step : R) : bool :=
  let rms := zip_with Rdiv error tol in
  let rms_norm := sqrt (vsum (zip_with Rmult rms rms) / INR (neq s)) in
  bool_decide (rms_norm <= 1 \/ h <= min_step).

(** One pass of the [while] loop. *)
Definition substep (s : solver) (min_step max_step t_next : R) (w : work)
    : result work :=
  match last (uwork w), last (twork w) with
  | Some u, Some t =>
      let h := h w in
      let '(u_new, error) := stages s u t h in
      let tol := tolerance s u_new in
      let accept := accepted s error tol h min_step in
      let uwork := if accept then uwork w ++ [u_new] else uwork w in
      let twork := if accept then twork w ++ [t + h] else twork w in
      match last twork with
      | Some last_t =>
          sf <~ rescale_factor s error tol;
          Ok {| uwork := uwork; twork := twork;
                h := next_step sf h min_step max_step t_next last_t;
                u_new := Some u_new; t_cur := t |}
      | None => Raise IndexError
      end
  | _, _ => Raise IndexError
  end.

(** The [while] loop; [None] when [fuel] passes do not reach the end. *)
Fixpoint loop (s : solver) (min_step max_step t_n t_next : R)
    (fuel : nat) (w : work) : option (result work) :=
  if bool_decide (Rabs (t_cur w - t_n) < Rabs (t_next - t_n)) then
    match fuel with
    | O => None
    | S fuel' =>
        match substep s min_step max_step t_next w with
        | Ok w' => loop s min_step max_step t_n t_next fuel' w'
        | Raise e => Some (Raise e)
        end
    end
  else Some (Ok w).

(** [RKFehlberg.advance]; returning [u_new] before any pass bound it is an
    [UnboundLocalError]. *)
Definition advance (s : solver) (fuel : nat) : option (result vec) :=
  match u s !! n s, t s !! n s, t s !! S (n s) with
  | Some u_n, Some t_n, Some t_next =>
      let dt := t_next - t_n in
      let '(min_step, max_step, h) := step_sizes s dt in
      let w := {| uwork := [u_n]; twork := [t_n]; h := h;
                  u_new := None; t_cur := t_n |} in
      match loop s min_step max_step t_n t_next fuel w with
      | Some (Ok w') =>
          match u_new w' with
          | Some v => Some (Ok v)
          | None => Some (Raise NameError)
          end
      | Some (Raise e) => Some (Raise e)
      | None => None
      end
  | _, _, _ => Some (Raise IndexError)
  end.

(** The rescaling factor as the specification words it:
    [(tolerance/error)^(1/4)] clamped into [0.1, 4.0]. *)
Definition rescale_factor_spec (error tol : R) : R :=
  clamp_factor (pow025 (tol / floor_zero error)).

End Fehlberg.

(* ===================================================================== *)
(** ** Predicates used in the statements *)
(* ===================================================================== *)

Module Grid.

Import TimeLoop.

Definition ascending (ts : list pyval) : Prop :=
  Sorted (fun a b => (num a <= num b)%Q) ts.
Definition descending (ts : list pyval) : Prop :=
  Sorted (fun a b => (num b <= num a)%Q) ts.
Definition strictly_ascending (ts : list pyval) : Prop :=
  Sorted (fun a b => (num a < num b)%Q) ts.
Definition strictly_descending (ts : list pyval) : Prop :=
  Sorted (fun a b => (num b < num a)%Q) ts.

(** Monotonic, repeated values allowed. *)
Definition monotonic (ts : list pyval) : Prop :=
  ascending ts \/ descending ts.

Definition strictly_monotonic (ts : list pyval) : Prop :=
  strictly_ascending ts \/ strictly_descending ts.

(** The order [sorted] sorts by. *)
Definition dir (reverse : bool) (a b : pyval) : Prop :=
  if reverse then (num b <= num a)%Q else (num a <= num b)%Q.

End Grid.

(* ===================================================================== *)
(** ** Instances used in the examples *)
(* ===================================================================== *)

Module Examples.

(** No Fortran compiler at hand. *)
Definition no_f2py : string -> option (string -> option pyval) :=
  fun _ => None.

(** [str] on the values that key a condition list. *)
Definition str_of (v : pyval) : string :=
  match v with
  | VStr s => s
  | VInt z => pretty z
  | _ => EmptyString
  end.

(** [self._parameters] of a [BackwardEuler] instance. *)
Definition BackwardEuler_parameters : registry :=
  instance_parameters _parameters SolverImplicit_optional Solver_required.

(** [self._parameters] of an [AdamsBashforth2] instance. *)
Definition AdamsBashforth2_parameters : registry :=
  instance_parameters _parameters AdamsBashforth_optional Solver_required.

(** [self._parameters] of a [Euler] instance. *)
Definition Euler_parameters : registry :=
  instance_parameters _parameters Solver_optional Solver_required.

(** The instance dictionary right after [Cls(f)] for a Python function
    [f]. *)
Definition construct (p : registry) : attrs :=
  snd (Config.init no_f2py str_of p (VCallable "f") [] ∅).

(** A [Euler] instance for [u' = -u] after [set_initial_condition(1.0)]. *)
Definition decay (u t : Q) : Q := (- u)%Q.

Definition Euler_decay : attrs :=
  snd (TimeLoop.set_initial_condition (VFloat 1) (construct Euler_parameters)).

(** A grid with a repeated point, and a grid of a single point. *)
Definition grid_repeated : list pyval := [VInt 0; VInt 1; VInt 1; VInt 2].
Definition grid_single : list pyval := [VFloat 0].

(** A uniform grid of four points. *)
Definition grid_uniform : list pyval :=
  [VFloat 0; VFloat (1 # 2); VFloat 1; VFloat (3 # 2)].

(** A [terminate] that answers true from the second computed point on. *)
Definition stop_at_2 (u t : pyval) (step_no : nat) : bool :=
  (2 <=? step_no)%nat.

(** A grid that is not uniform, on a fresh [AdamsBashforth2] instance. *)
Definition grid_nonuniform : list pyval := [VFloat 0; VFloat 1; VFloat 3].

Definition AdamsBashforth2_nonuniform : attrs :=
  <["t" := VArray grid_nonuniform]> (construct AdamsBashforth2_parameters).

(** An implicit solver for [u' = -u] at [u[0] = 1] on the interval
    [0, 1], allowed one pass of Picard iteration with relaxation 1/2. *)
Definition damped_Picard : Implicit.solver :=
  {| Implicit.f := decay;
     Implicit.jac := fun _ _ => (- (1))%Q;
     Implicit.u := [1%Q];
     Implicit.t := [0%Q; 1%Q];
     Implicit.n := 0;
     Implicit.max_iter := 1;
     Implicit.eps_iter := (1 # 10000)%Q;
     Implicit.relaxation := (1 # 2)%Q;
     Implicit.nonlinear := Implicit.Picard |}.

(** An implicit solver for [u' = 1] at [u[0] = 0] on the interval [0, 1]. *)
Definition unit_slope : Implicit.solver :=
  {| Implicit.f := fun _ _ => 1%Q;
     Implicit.jac := fun _ _ => 0%Q;
     Implicit.u := [0%Q];
     Implicit.t := [0%Q; 1%Q];
     Implicit.n := 0;
     Implicit.max_iter := 25;
     Implicit.eps_iter := (1 # 10000)%Q;
     Implicit.relaxation := 1%Q;
     Implicit.nonlinear := Implicit.Newton |}.

(** Runge-Kutta-Fehlberg instances for a scalar problem whose right-hand
    side is zero except at [t = 0.5], where it is 27.5, with [rtol = 0]
    and [atol = 2].  One stage of a substep of length 1 from [t = 0] sees
    the spike, so that the local error of that substep is exactly 1 while
    [u] stays at 0. *)
Definition spike (u : list R) (t : R) : list R :=
  if Req_dec_T t (1 / 2) then [55 / 2]%R else [0%R].

Definition spike_solver (t : list R) (first_step min_step max_step : option R)
    : Fehlberg.solver :=
  {| Fehlberg.f := spike;
     Fehlberg.neq := 1;
     Fehlberg.rtol := 0%R;
     Fehlberg.atol := 2%R;
     Fehlberg.u := [[0%R]; [0%R]];
     Fehlberg.t := t;
     Fehlberg.n := 0;
     Fehlberg.first_step := first_step;
     Fehlberg.min_step := min_step;
     Fehlberg.max_step := max_step |}.


(** On the caller's grid [0, 10], with [first_step = 1],
    [min_step = 0.001] and [max_step = 2] supplied. *)
Definition RKFehlberg_spike_wide : Fehlberg.solver :=
  spike_solver [0%R; 10%R] (Some 1%R) (Some (1 / 1000)%R) (Some 2%R).

(** The local variables of [advance] on entering its loop at [u_n = 0],
    [t_n = 0] with a first working step 1. *)
Definition first_pass : Fehlberg.work :=
  {| Fehlberg.uwork := [[0%R]];
     Fehlberg.twork := [0%R];
     Fehlberg.h := 1%R;
     Fehlberg.u_new := None;
     Fehlberg.t_cur := 0%R |}.

End Examples.

(* ===================================================================== *)
(** ** What the first loop of [set] does with a name *)
(* ===================================================================== *)

Module SetNames.

(** Whether the first loop of [set] takes [name] out of [kwargs] (the name
    is not registered, or its value is [None]), and whether it deletes the
    attribute (the name is registered and its value is [None]). *)
Definition dropped (parameters : registry) (kwargs : kwargs_t)
    (name : string) : bool :=
  negb (reg_has name parameters)
  || match kw_get name kwargs with Some VNone => true | _ => false end.

Definition removed (parameters : registry) (kwargs : kwargs_t)
    (name : string) : bool :=
  reg_has name parameters
  && match kw_get name kwargs with Some VNone => true | _ => false end.

End SetNames.

(* ===================================================================== *)
(** ** Switching to another solver class: [Solver.switch_to] *)
(* ===================================================================== *)

Module Switch.

Import TimeLoop.

(** A solver class, as far as its constructor and [switch_to] look at it:
    the two class attributes, and [adjust_parameters] as a change of the
    instance's copy of the registry (the identity for every class but
    [MidpointIter]). *)
Record solver_class : Type := {
  _optional_parameters : list string;
  _required_parameters : list string;
  adjust_parameters : registry -> registry
}.

Definition class_parameters (c : solver_class) : registry :=
  adjust_parameters c
    (instance_parameters _parameters (_optional_parameters c)
       (_required_parameters c)).

Section SwitchTo.

Variable f2py_compile : string -> option (string -> option pyval).
Variable py_str : pyval -> string.

(** [cls(f, **kwargs)]: the instance dictionary a constructor call leaves
    (its entry [_parameters] is [class_parameters c]), or the exception it
    raises.  [initialize], which ends the constructor, does nothing in the
    classes modelled here. *)
Definition new (c : solver_class) (f : pyval) (kwargs : kwargs_t)
    : result attrs :=
  match Config.init f2py_compile py_str (class_parameters c) f kwargs ∅ with
  | (Ok _, self) => Ok self
  | (Raise e, _) => Raise e
  end.

(** [args_dict.update(kwargs)] *)
Definition kw_update (d kwargs : kwargs_t) : kwargs_t :=
  fold_left (fun d e => Config.kw_set (fst e) (snd e) d) kwargs d.

(** [Solver.switch_to(solver_target, **kwargs)] on an instance of class
    [source].  [target] is the class [solver_target] names, [None] when it
    names no subclass of [Solver].  The result is the dictionary of the new
    instance; [self] is only read. *)
Definition switch_to (source : solver_class) (target : option solver_class)
    (kwargs : kwargs_t) (self : attrs) : result attrs :=
  match target with
  | None => Raise ValueError
  | Some target =>
      let common_attr :=
        remove_dups
          (List.filter
             (fun name => existsb (String.eqb name)
                            (_optional_parameters source))
             (_optional_parameters target)) in
      let args_dict :=
        omap (fun name => (fun v => (name, v)) <$> self !! name)
             common_attr in
      let f := match kw_get "f" kwargs with
               | Some v => v
               | None => match self !! "f" with
                         | Some v => v
                         | None => VNone
                         end
               end in
      let kwargs := kw_del "f" kwargs in
      let args_dict :=
        fold_left (fun d name => kw_del name d)
                  ["f_f77"; "f_args"; "f_kwargs"; "f"] args_dict in
      let args_dict := kw_update args_dict kwargs in
      match new target f args_dict with
      | Ok new_self =>
          match self !! "U0" with
          | Some U0 =>
              match set_initial_condition U0 new_self with
              | (Ok _, new_self) => Ok new_self
              | (Raise e, _) => Raise e
              end
          | None => Ok new_self
          end
      | Raise e => Raise e
      end
  end.

(** The names whose value [switch_to] hands from the old instance to the
    constructor of the new one: the optional parameters of both classes,
    less the four names taken out of [args_dict]. *)
Definition inherited (source target : solver_class) (name : string) : bool :=
  existsb (String.eqb name) (_optional_parameters target)
  && existsb (String.eqb name) (_optional_parameters source)
  && negb (existsb (String.eqb name) ["f_f77"; "f_args"; "f_kwargs"; "f"]).

End SwitchTo.

(** The classes of [ODE.py] that take part in the examples. *)
Definition plain (optional : list string) : solver_class :=
  {| _optional_parameters := optional;
     _required_parameters := Solver_required;
     adjust_parameters := fun p => p |}.

Definition RK2 : solver_class := plain Solver_optional.
Definition RK4 : solver_class := plain Solver_optional.
Definition BackwardEuler : solver_class := plain SolverImplicit_optional.
Definition ThetaRule : solver_class := plain ThetaRule_optional.
Definition RKFehlberg : solver_class := plain Adaptive_optional.
Definition AdamsBashforth2 : solver_class := plain AdamsBashforth_optional.

(** A [BackwardEuler] instance made by [BackwardEuler(f, max_iter=10)]
    followed by [set_initial_condition(1.0)]. *)
Definition BackwardEuler_tuned : attrs :=
  snd (set_initial_condition (VFloat 1)
         (snd (Config.init Examples.no_f2py Examples.str_of
                 (class_parameters BackwardEuler) (VCallable "f")
                 [("max_iter", VInt 10)] ∅))).

(** The instance that [switch_to(ThetaRule, theta=0.25)] returns on it
    (an empty dictionary stands in if the call raises). *)
Definition ThetaRule_switched : attrs :=
  match switch_to Examples.no_f2py Examples.str_of BackwardEuler
          (Some ThetaRule) [("theta", VFloat (1 # 4))] BackwardEuler_tuned
  with
  | Ok new_self => new_self
  | Raise _ => ∅
  end.

End Switch.

(* ===================================================================== *)
(** ** The explicit schemes: [Leapfrog], [LeapfrogFiltered], [Heun],
       [RK2], [RK3], [RK4] *)
(* ===================================================================== *)

Module Explicit.

Import TimeLoop.

(** [self.n] as an index into [u] and [t]. *)
Definition index (n : pyval) : nat :=
  match n with VInt z => Z.to_nat z | _ => O end.

Section Scalar.

(** The right-hand side [f(u, t)] of a scalar problem. *)
Variable f : Q -> Q -> Q.

(** The value [unew] that the body of [Heun.advance] computes from
    [u[n]], [t[n]] and [t[n+1]]. *)
Definition Heun_unew (un tn tn1 : Q) : Q :=
  let dt := (tn1 - tn)%Q in
  let u_star := (un + dt * f un tn)%Q in
  (un + (1 # 2) * dt * (f un tn + f u_star tn1))%Q.

(** [RK2.advance] *)
Definition RK2_unew (un tn tn1 : Q) : Q :=
  let dt := (tn1 - tn)%Q in
  let K1 := (dt * f un tn)%Q in
  let K2 := (dt * f (un + (1 # 2) * K1) (tn + (1 # 2) * dt))%Q in
  (un + K2)%Q.

(** [RK4.advance] *)
Definition RK4_unew (un tn tn1 : Q) : Q :=
  let dt := (tn1 - tn)%Q in
  let dt2 := (dt / 2)%Q in
  let K1 := (dt * f un tn)%Q in
  let K2 := (dt * f (un + (1 # 2) * K1) (tn + dt2))%Q in
  let K3 := (dt * f (un + (1 # 2) * K2) (tn + dt2))%Q in
  let K4 := (dt * f (un + K3) (tn + dt))%Q in
  (un + (1 / 6) * (K1 + 2 * K2 + 2 * K3 + K4))%Q.

(** [RK3.advance] *)
Definition RK3_unew (un tn tn1 : Q) : Q :=
  let dt := (tn1 - tn)%Q in
  let dt2 := (dt / 2)%Q in
  let K1 := (dt * f un tn)%Q in
  let K2 := (dt * f (un + (1 # 2) * K1) (tn + dt2))%Q in
  let K3 := (dt * f (un - K1 + 2 * K2) (tn + dt))%Q in
  (un + (1 / 6) * (K1 + 4 * K2 + K3))%Q.

(** The frame these four methods share:
    [u, f, n, t = self.u, self.f, self.n, self.t], the reads of [t[n+1]],
    [t[n]] and [u[n]], and [return unew]. *)
Definition one_step (unew : Q -> Q -> Q -> Q) : M pyval :=
  u ← getattr "u";
  n ← getattr "n";
  t ← getattr "t";
  let n := index n in
  tn1 ← lift (getitem t (n + 1));
  tn ← lift (getitem t n);
  un ← lift (getitem u n);
  mret (VFloat (unew (num un) (num tn) (num tn1))).

Definition Heun_advance : M pyval := one_step Heun_unew.
Definition RK2_advance : M pyval := one_step RK2_unew.
Definition RK3_advance : M pyval := one_step RK3_unew.
Definition RK4_advance : M pyval := one_step RK4_unew.

(** [Leapfrog.advance] *)
Definition Leapfrog_advance : M pyval :=
  u ← getattr "u";
  n ← getattr "n";
  t ← getattr "t";
  let n := index n in
  if (1 <=? n)%nat then
    tn1 ← lift (getitem t (n + 1));
    tnm1 ← lift (getitem t (n - 1));
    let dt2 := (num tn1 - num tnm1)%Q in
    unm1 ← lift (getitem u (n - 1));
    un ← lift (getitem u n);
    tn ← lift (getitem t n);
    mret (VFloat (num unm1 + dt2 * f (num un) (num tn))%Q)
  else
    tn1 ← lift (getitem t (n + 1));
    tn ← lift (getitem t n);
    let dt := (num tn1 - num tn)%Q in
    un ← lift (getitem u n);
    mret (VFloat (num un + dt * f (num un) (num tn))%Q).

(** [LeapfrogFiltered.advance]; the assignment to [u[n]] writes into the
    array that [self.u] names. *)
Definition LeapfrogFiltered_advance : M pyval :=
  u ← getattr "u";
  n ← getattr "n";
  t ← getattr "t";
  let n := index n in
  let gamma := (3 # 5)%Q in
  if (1 <=? n)%nat then
    tn1 ← lift (getitem t (n + 1));
    tnm1 ← lift (getitem t (n - 1));
    let dt2 := (num tn1 - num tnm1)%Q in
    unm1 ← lift (getitem u (n - 1));
    un ← lift (getitem u n);
    tn ← lift (getitem t n);
    let unew := (num unm1 + dt2 * f (num un) (num tn))%Q in
    u ← lift (setitem u n
                (VFloat (num un + gamma * (num unm1 - 2 * num un + unew))%Q));
    setattr "u" u ;;
    mret (VFloat unew)
  else
    tn1 ← lift (getitem t (n + 1));
    tn ← lift (getitem t n);
    let dt := (num tn1 - num tn)%Q in
    un ← lift (getitem u n);
    mret (VFloat (num un + dt * f (num un) (num tn))%Q).

End Scalar.

(** An [advance] that only reads: at step [n] of the loop it returns the
    float [G (u[:n+1]) n] and writes nothing. *)
Definition reads_only (advance : M pyval) (ts : list pyval)
    (G : list pyval -> nat -> Q) : Prop :=
  forall (s : attrs) (us : list pyval) (n : nat),
    s !! "u" = Some (VArray us) ->
    s !! "t" = Some (VArray ts) ->
    s !! "n" = Some (VInt (Z.of_nat n)) ->
    length us = length ts ->
    (n + 1 < length ts)%nat ->
    advance s = (Ok (VFloat (G (take (S n) us) n)), s).

(** What a one-step method and [Leapfrog] return, as functions of the
    part of [u] computed so far. *)
Definition one_step_value (unew : Q -> Q -> Q -> Q) (ts : list pyval)
    (computed : list pyval) (n : nat) : Q :=
  unew (num (nth n computed VNone)) (num (nth n ts VNone))
       (num (nth (n + 1) ts VNone)).

Definition Leapfrog_value (f : Q -> Q -> Q) (ts : list pyval)
    (computed : list pyval) (n : nat) : Q :=
  if (1 <=? n)%nat then
    (num (nth (n - 1) computed VNone)
     + (num (nth (n + 1) ts VNone) - num (nth (n - 1) ts VNone))
       * f (num (nth n computed VNone)) (num (nth n ts VNone)))%Q
  else
    (num (nth n computed VNone)
     + (num (nth (n + 1) ts VNone) - num (nth n ts VNone))
       * f (num (nth n computed VNone)) (num (nth n ts VNone)))%Q.

End Explicit.

(* ===================================================================== *)
(** ** The Adams-Bashforth and Adams-Bashforth-Moulton classes *)
(* ===================================================================== *)

Module Adams.

Import TimeLoop Explicit.

(** [Solver.solve] where [self.set_internal_parameters()] is the method
    of the class at hand; with [TimeLoop.set_internal_parameters] this is
    [TimeLoop.solve]. *)
Definition solve_with (set_internal_parameters : M unit)
    (advance : M pyval) (validate : M bool)
    (terminate : pyval -> pyval -> nat -> bool) (time_points : pyval)
    : M (pyval * pyval) :=
  setattr "t" (asarray time_points) ;;
  set_internal_parameters ;;
  validate ;;
  t ← getattr "t";
  let N := (size t - 1)%nat in
  time_loop advance terminate (seq 0 N) ;;
  u ← getattr "u";
  t ← getattr "t";
  mret (u, t).

(** An attribute used in arithmetic with floats: [None], or anything else
    that is no number, raises [TypeError]. *)
Definition number (v : pyval) : result Q :=
  match as_number v with
  | Some q => Ok q
  | None => Raise TypeError
  end.

(** [set_internal_parameters] of the five classes.  The attribute
    [self.starter] is not kept in the dictionary: the instance
    [switch_to(self.start_method)] makes is used through [starter]
    below. *)
Definition AdamsBashforth2_set_internal_parameters : M unit :=
  setattr "f_n_1" VNone ;;
  TimeLoop.set_internal_parameters.

Definition AdamsBashforth3_set_internal_parameters : M unit :=
  setattr "f_n_1" VNone ;;
  setattr "f_n_2" VNone ;;
  TimeLoop.set_internal_parameters.

Definition AdamsBashMoulton2_set_internal_parameters : M unit :=
  setattr "f_n_1" VNone ;;
  setattr "f_n_2" VNone ;;
  TimeLoop.set_internal_parameters.

Definition AdamsBashforth4_set_internal_parameters : M unit :=
  setattr "f_n_1" VNone ;;
  setattr "f_n_2" VNone ;;
  setattr "f_n_3" VNone ;;
  TimeLoop.set_internal_parameters.

Definition AdamsBashMoulton3_set_internal_parameters : M unit :=
  setattr "f_n_1" VNone ;;
  setattr "f_n_2" VNone ;;
  setattr "f_n_3" VNone ;;
  TimeLoop.set_internal_parameters.

Section Scalar.

(** The right-hand side [f(u, t)] of a scalar problem. *)
Variable f : Q -> Q -> Q.

(** The start method: what
    [self.starter.set_initial_condition(u[n])] followed by
    [self.starter.solve([t[n], t[n+1]])] returns in [u_starter[-1]], as a
    function of [u[n]], [t[n]] and [t[n+1]], or the exception the two
    calls raise. *)
Variable starter : Q -> Q -> Q -> result Q.

(** The branch [# Start method] up to [unew = u_starter[-1]]. *)
Definition start (u t : pyval) (n : nat) : M Q :=
  un ← lift (getitem u n);
  tn ← lift (getitem t n);
  tn1 ← lift (getitem t (n + 1));
  lift (starter (num un) (num tn) (num tn1)).

(** [self.f_n_k = f(u[k'], t[k'])] *)
Definition store_f (name : string) (u t : pyval) (k : nat) : M unit :=
  uk ← lift (getitem u k);
  tk ← lift (getitem t k);
  setattr name (VFloat (f (num uk) (num tk))).

(** [self.f_n_k] read for arithmetic. *)
Definition load (name : string) : M (pyval * Q) :=
  v ← getattr name;
  q ← lift (number v);
  mret (v, q).

(** [AdamsBashforth2.advance] *)
Definition AdamsBashforth2_advance : M pyval :=
  u ← getattr "u";
  n ← getattr "n";
  t ← getattr "t";
  let n := index n in
  if (1 <=? n)%nat then
    tn1 ← lift (getitem t (n + 1));
    tn ← lift (getitem t n);
    let dt := (num tn1 - num tn)%Q in
    store_f "f_n" u t n ;;
    un ← lift (getitem u n);
    '(v_n, f_n) ← load "f_n";
    '(_, f_n_1) ← load "f_n_1";
    let unew := (num un + dt / 2 * (3 * f_n - f_n_1))%Q in
    setattr "f_n_1" v_n ;;
    mret (VFloat unew)
  else
    unew ← start u t n;
    store_f "f_n_1" u t 0 ;;
    mret (VFloat unew).

(** [AdamsBashforth3.advance] *)
Definition AdamsBashforth3_advance : M pyval :=
  u ← getattr "u";
  n ← getattr "n";
  t ← getattr "t";
  let n := index n in
  if (2 <=? n)%nat then
    tn1 ← lift (getitem t (n + 1));
    tn ← lift (getitem t n);
    let dt := (num tn1 - num tn)%Q in
    store_f "f_n" u t n ;;
    un ← lift (getitem u n);
    '(v_n, f_n) ← load "f_n";
    '(v_n_1, f_n_1) ← load "f_n_1";
    '(v_n_2, f_n_2) ← load "f_n_2";
    let unew :=
      (num un + dt / 12 * (23 * f_n - 16 * f_n_1 + 5 * f_n_2))%Q in
    setattr "f_n_1" v_n ;;
    setattr "f_n_2" v_n_1 ;;
    setattr "f_n" v_n_2 ;;
    mret (VFloat unew)
  else
    unew ← start u t n;
    (if (n =? 0)%nat then store_f "f_n_2" u t 0
     else if (n =? 1)%nat then store_f "f_n_1" u t 1
     else mret tt) ;;
    mret (VFloat unew).

(** [AdamsBashMoulton2.advance] *)
Definition AdamsBashMoulton2_advance : M pyval :=
  u ← getattr "u";
  n ← getattr "n";
  t ← getattr "t";
  let n := index n in
  if (2 <=? n)%nat then
    tn1 ← lift (getitem t (n + 1));
    tn ← lift (getitem t n);
    let dt := (num tn1 - num tn)%Q in
    store_f "f_n" u t n ;;
    un ← lift (getitem u n);
    '(v_n, f_n) ← load "f_n";
    '(v_n_1, f_n_1) ← load "f_n_1";
    '(v_n_2, f_n_2) ← load "f_n_2";
    let predictor :=
      (num un + dt / 12 * (23 * f_n - 16 * f_n_1 + 5 * f_n_2))%Q in
    tn1' ← lift (getitem t (n + 1));
    let unew :=
      (num un + dt / 12 * (8 * f_n - f_n_1 + 5 * f predictor (num tn1')))%Q in
    setattr "f_n_1" v_n ;;
    setattr "f_n_2" v_n_1 ;;
    mret (VFloat unew)
  else
    unew ← start u t n;
    (if (n =? 0)%nat then store_f "f_n_2" u t 0
     else if (n =? 1)%nat then store_f "f_n_1" u t 1
     else mret tt) ;;
    mret (VFloat unew).

(** [AdamsBashforth4.advance] *)
Definition AdamsBashforth4_advance : M pyval :=
  u ← getattr "u";
  n ← getattr "n";
  t ← getattr "t";
  let n := index n in
  if (3 <=? n)%nat then
    tn1 ← lift (getitem t (n + 1));
    tn ← lift (getitem t n);
    let dt := (num tn1 - num tn)%Q in
    store_f "f_n" u t n ;;
    un ← lift (getitem u n);
    '(v_n, f_n) ← load "f_n";
    '(v_n_1, f_n_1) ← load "f_n_1";
    '(v_n_2, f_n_2) ← load "f_n_2";
    '(v_n_3, f_n_3) ← load "f_n_3";
    let unew :=
      (num un
       + dt / 24 * (55 * f_n - 59 * f_n_1 + 37 * f_n_2 - 9 * f_n_3))%Q in
    setattr "f_n_1" v_n ;;
    setattr "f_n_2" v_n_1 ;;
    setattr "f_n_3" v_n_2 ;;
    mret (VFloat unew)
  else
    unew ← start u t n;
    (if (n =? 0)%nat then store_f "f_n_3" u t 0
     else if (n =? 1)%nat then store_f "f_n_2" u t 1
     else if (n =? 2)%nat then store_f "f_n_1" u t 2
     else mret tt) ;;
    mret (VFloat unew).

(** [AdamsBashMoulton3.advance] *)
Definition AdamsBashMoulton3_advance : M pyval :=
  u ← getattr "u";
  n ← getattr "n";
  t ← getattr "t";
  let n := index n in
  if (3 <=? n)%nat then
    tn1 ← lift (getitem t (n + 1));
    tn ← lift (getitem t n);
    let dt := (num tn1 - num tn)%Q in
    store_f "f_n" u t n ;;
    un ← lift (getitem u n);
    '(v_n, f_n) ← load "f_n";
    '(v_n_1, f_n_1) ← load "f_n_1";
    '(v_n_2, f_n_2) ← load "f_n_2";
    '(v_n_3, f_n_3) ← load "f_n_3";
    let predictor :=
      (num un
       + dt / 24 * (55 * f_n - 59 * f_n_1 + 37 * f_n_2 - 9 * f_n_3))%Q in
    tn1' ← lift (getitem t (n + 1));
    let unew :=
      (num un
       + dt / 24 * (f_n_2 - 5 * f_n_1 + 19 * f_n
                    + 9 * f predictor (num tn1')))%Q in
    setattr "f_n_1" v_n ;;
    setattr "f_n_2" v_n_1 ;;
    setattr "f_n_3" v_n_2 ;;
    mret (VFloat unew)
  else
    unew ← start u t n;
    (if (n =? 0)%nat then store_f "f_n_3" u t 0
     else if (n =? 1)%nat then store_f "f_n_2" u t 1
     else if (n =? 2)%nat then store_f "f_n_1" u t 2
     else mret tt) ;;
    mret (VFloat unew).

End Scalar.

(** [f(u[k], t[k])] on the part of [u] computed so far. *)
Definition F (f : Q -> Q -> Q) (ts computed : list pyval) (k : nat) : Q :=
  f (num (nth k computed VNone)) (num (nth k ts VNone)).

(** The time step [t[n+1] - t[n]]. *)
Definition dt (ts : list pyval) (n : nat) : Q :=
  (num (nth (n + 1) ts VNone) - num (nth n ts VNone))%Q.

(** The value the start method returns at step [n]. *)
Definition started (S : Q -> Q -> Q -> Q) (ts computed : list pyval)
    (n : nat) : Q :=
  S (num (nth n computed VNone)) (num (nth n ts VNone))
    (num (nth (n + 1) ts VNone)).

(** The formulas in the docstrings of the five classes, on the part of
    [u] computed so far, with start method [S] for the first steps. *)
Definition AdamsBashforth2_value (f : Q -> Q -> Q) (S : Q -> Q -> Q -> Q)
    (ts computed : list pyval) (n : nat) : Q :=
  if (1 <=? n)%nat then
    (num (nth n computed VNone)
     + dt ts n / 2 * (3 * F f ts computed n - F f ts computed (n - 1)))%Q
  else started S ts computed n.

Definition AdamsBashforth3_value (f : Q -> Q -> Q) (S : Q -> Q -> Q -> Q)
    (ts computed : list pyval) (n : nat) : Q :=
  if (2 <=? n)%nat then
    (num (nth n computed VNone)
     + dt ts n / 12 * (23 * F f ts computed n - 16 * F f ts computed (n - 1)
                       + 5 * F f ts computed (n - 2)))%Q
  else started S ts computed n.

Definition AdamsBashMoulton2_value (f : Q -> Q -> Q) (S : Q -> Q -> Q -> Q)
    (ts computed : list pyval) (n : nat) : Q :=
  if (2 <=? n)%nat then
    let predictor := AdamsBashforth3_value f S ts computed n in
    (num (nth n computed VNone)
     + dt ts n / 12 * (8 * F f ts computed n - F f ts computed (n - 1)
                       + 5 * f predictor (num (nth (n + 1) ts VNone))))%Q
  else started S ts computed n.

Definition AdamsBashforth4_value (f : Q -> Q -> Q) (S : Q -> Q -> Q -> Q)
    (ts computed : list pyval) (n : nat) : Q :=
  if (3 <=? n)%nat then
    (num (nth n computed VNone)
     + dt ts n / 24 * (55 * F f ts computed n - 59 * F f ts computed (n - 1)
                       + 37 * F f ts computed (n - 2)
                       - 9 * F f ts computed (n - 3)))%Q
  else started S ts computed n.

Definition AdamsBashMoulton3_value (f : Q -> Q -> Q) (S : Q -> Q -> Q -> Q)
    (ts computed : list pyval) (n : nat) : Q :=
  if (3 <=? n)%nat then
    let predictor := AdamsBashforth4_value f S ts computed n in
    (num (nth n computed VNone)
     + dt ts n / 24 * (F f ts computed (n - 2) - 5 * F f ts computed (n - 1)
                       + 19 * F f ts computed n
                       + 9 * f predictor (num (nth (n + 1) ts VNone))))%Q
  else started S ts computed n.

(** What the attributes [f_n_1], [f_n_2], [f_n_3] hold on entering step
    [n]: the right-hand side at the last one, two and three points, as
    far as the start steps have filled them in. *)
Definition holds (s : attrs) (name : string) (q : Q) : Prop :=
  s !! name = Some (VFloat q).

Definition history1 (f : Q -> Q -> Q) (ts : list pyval)
    (n : nat) (computed : list pyval) (s : attrs) : Prop :=
  (1 <= n)%nat -> holds s "f_n_1" (F f ts computed (n - 1)).

Definition history2 (f : Q -> Q -> Q) (ts : list pyval)
    (n : nat) (computed : list pyval) (s : attrs) : Prop :=
  (n = 1%nat -> holds s "f_n_2" (F f ts computed 0))
  /\ ((2 <= n)%nat ->
      holds s "f_n_1" (F f ts computed (n - 1))
      /\ holds s "f_n_2" (F f ts computed (n - 2))).

Definition history3 (f : Q -> Q -> Q) (ts : list pyval)
    (n : nat) (computed : list pyval) (s : attrs) : Prop :=
  (n = 1%nat -> holds s "f_n_3" (F f ts computed 0))
  /\ (n = 2%nat ->
      holds s "f_n_3" (F f ts computed 0)
      /\ holds s "f_n_2" (F f ts computed 1))
  /\ ((3 <= n)%nat ->
      holds s "f_n_1" (F f ts computed (n - 1))
      /\ holds s "f_n_2" (F f ts computed (n - 2))
      /\ holds s "f_n_3" (F f ts computed (n - 3))).

(** An [advance] that keeps a history: entered at step [n] with the
    history [Inv] of the part of [u] computed so far, it returns the float
    [G (u[:n+1]) n], leaves [u] and [t] alone, and has the history of the
    next step. *)
Definition keeps_history (advance : M pyval) (ts : list pyval)
    (G : list pyval -> nat -> Q)
    (Inv : nat -> list pyval -> attrs -> Prop) : Prop :=
  forall (s : attrs) (us : list pyval) (n : nat),
    s !! "u" = Some (VArray us) ->
    s !! "t" = Some (VArray ts) ->
    s !! "n" = Some (VInt (Z.of_nat n)) ->
    length us = length ts ->
    (n + 1 < length ts)%nat ->
    Inv n (take (S n) us) s ->
    exists s',
      advance s = (Ok (VFloat (G (take (S n) us) n)), s')
      /\ s' !! "u" = Some (VArray us)
      /\ s' !! "t" = Some (VArray ts)
      /\ Inv (S n) (take (S n) us ++ [VFloat (G (take (S n) us) n)]) s'.

End Adams.

(* ===================================================================== *)
(** ** Instances for the Adams-Bashforth family *)
(* ===================================================================== *)

Module AdamsExamples.

Import TimeLoop Explicit Adams Examples.

(** The default start method [RK2] on [u' = -u]. *)
Definition RK2_starter (a b c : Q) : result Q := Ok (RK2_unew decay a b c).

(** An instance of one of the five classes for [u' = -u] after
    [set_initial_condition(1.0)]. *)
Definition Adams_decay : attrs :=
  snd (set_initial_condition (VFloat 1) (construct AdamsBashforth2_parameters)).

(** The grid [0, 0.5, 1, 1.5, 2, 2.5]. *)
Definition grid_six : list pyval :=
  [VFloat 0; VFloat (1 # 2); VFloat 1; VFloat (3 # 2); VFloat 2;
   VFloat (5 # 2)].

End AdamsExamples.

(* ===================================================================== *)
(** ** [SolverImplicit.set_internal_parameters] and instances for the
       implicit schemes *)
(* ===================================================================== *)

Module ImplicitSetup.

Import TimeLoop.

(** [getattr(self, name, None)] *)
Definition getattr_or_None (name : string) : M pyval :=
  fun self => (Ok (match self !! name with Some v => v | None => VNone end),
               self).

(** [v == s] for a string literal [s]. *)
Definition is_str (v : pyval) (s : string) : bool :=
  match v with VStr x => String.eqb x s | _ => false end.

(** [SolverImplicit.set_internal_parameters]; the two [lambda]s stored
    under [jac] are callables, named by their source text. *)
Definition set_internal_parameters : M unit :=
  jac ← getattr_or_None "jac";
  (if is_None jac then
     ns ← getattr_or_None "nonlinear_solver";
     if is_None ns then setattr "nonlinear_solver" (VStr "Picard")
     else
       ns ← getattr "nonlinear_solver";
       if is_str ns "Newton"
       then setattr "jac" (VCallable "lambda u, t: approximate_Jacobian")
       else mret tt
   else
     ns ← getattr_or_None "nonlinear_solver";
     (if is_None ns then setattr "nonlinear_solver" (VStr "Newton")
      else mret tt) ;;
     getattr "jac" ;;
     setattr "jac" (VCallable "lambda u, t: np.asarray(jac)")) ;;
  TimeLoop.set_internal_parameters.

(** A value that satisfies the equation of the scheme: it equals what
    [Picard_update] makes of it. *)
Definition solves (self : Implicit.solver) (s : Implicit.scheme) (x : Q)
    : Prop :=
  exists rhs, Implicit.Picard_update self s x = Ok rhs /\ (rhs == x)%Q.

(** Implicit solvers for [u' = -u + t] at [u[0] = 1] on the interval
    [0, 1]: one that uses Newton's method with the exact Jacobian [-1],
    and one that uses the [FixedPoint] branch. *)
Definition linear_Newton : Implicit.solver :=
  {| Implicit.f := fun u t => (- (1) * u + t)%Q;
     Implicit.jac := fun _ _ => (- (1))%Q;
     Implicit.u := [1%Q];
     Implicit.t := [0%Q; 1%Q];
     Implicit.n := 0;
     Implicit.max_iter := 25;
     Implicit.eps_iter := (1 # 10000)%Q;
     Implicit.relaxation := 1%Q;
     Implicit.nonlinear := Implicit.Newton |}.

Definition linear_FixedPoint : Implicit.solver :=
  {| Implicit.f := fun u t => (- (1) * u + t)%Q;
     Implicit.jac := fun _ _ => (- (1))%Q;
     Implicit.u := [1%Q];
     Implicit.t := [0%Q; 1%Q];
     Implicit.n := 0;
     Implicit.max_iter := 25;
     Implicit.eps_iter := (1 # 10000)%Q;
     Implicit.relaxation := 1%Q;
     Implicit.nonlinear := Implicit.FixedPoint |}.

End ImplicitSetup.

Module ImplicitExamples.

Import TimeLoop Examples.

(** [BackwardEuler(f, jac=J)] for two Python functions, then
    [set_initial_condition(1.0)] and the grid [0, 0.5, 1, 1.5]. *)
Definition BackwardEuler_with_jac : attrs :=
  snd (Config.init no_f2py str_of BackwardEuler_parameters (VCallable "f")
         [("jac", VCallable "J")] ∅).

Definition BackwardEuler_ready : attrs :=
  <["t" := VArray grid_uniform]>
    (snd (set_initial_condition (VFloat 1) BackwardEuler_with_jac)).

End ImplicitExamples.

(* ===================================================================== *)
(** ** [MidpointIter] *)
(* ===================================================================== *)

Module Midpoint.

Import TimeLoop Explicit.

(** [MidpointIter.adjust_parameters]: the instance's copy of the entry of
    [max_iter] gets the default 3. *)
Definition adjust_parameters (p : registry) : registry :=
  List.map (fun e => if String.eqb (fst e) "max_iter"
                     then (fst e,
                           {| help := help (snd e);
                              type := type (snd e);
                              default := Some (VInt 3);
                              range := range (snd e);
                              extra_check := extra_check (snd e);
                              condition_list := condition_list (snd e) |})
                     else e) p.

Definition MidpointIter : Switch.solver_class :=
  {| Switch._optional_parameters := Solver_optional ++ ["max_iter"; "eps_iter"];
     Switch._required_parameters := Solver_required;
     Switch.adjust_parameters := adjust_parameters |}.

(** [self.max_iter] as the integer that [np.zeros] and the comparison
    with [q] take; anything that is no [int] raises [TypeError]. *)
Definition integer (v : pyval) : result Z :=
  match v with
  | VInt z => Ok z
  | VBool b => Ok (if b then 1 else 0)%Z
  | _ => Raise TypeError
  end.

(** [x < b] for a number [x] and any object [b]. *)
Definition lt_number (x : Q) (b : pyval) : bool :=
  match cmp_number x b with Lt => true | _ => false end.

Section Scalar.

Variable f : Q -> Q -> Q.

(** The [while] loop of [advance]; [left] counts the passes that
    [q < self.max_iter] still allows. *)
Fixpoint loop (un tn tn1 dt : Q) (left q : nat) (v : pyval) : M pyval :=
  match left with
  | O => lift (getitem v q)
  | S left' =>
      let q := S q in
      vprev ← lift (getitem v (q - 1));
      let vq := (un + (1 # 2) * dt * (f (num vprev) tn1 + f un tn))%Q in
      v ← lift (setitem v q (VFloat vq));
      setattr "v" v ;;
      vq' ← lift (getitem v q);
      vprev' ← lift (getitem v (q - 1));
      eps_iter ← getattr "eps_iter";
      if lt_number (Qabs (num vq' - num vprev')) eps_iter then
        setattr "num_iterations" (VInt (Z.of_nat q)) ;;
        lift (getitem v q)
      else loop un tn tn1 dt left' q v
  end.

(** [MidpointIter.advance] *)
Definition MidpointIter_advance : M pyval :=
  has_v ← hasattr "v";
  (if has_v : bool then mret tt
   else
     neq ← getattr "neq";
     neq ← lift (integer neq);
     max_iter ← getattr "max_iter";
     m ← lift (integer max_iter);
     getattr "u" ;;
     if (m + 1 <? 0)%Z then raise ValueError
     else setattr "v" (zeros (Z.to_nat (m + 1)) neq)) ;;
  u ← getattr "u";
  n ← getattr "n";
  t ← getattr "t";
  v ← getattr "v";
  let n := index n in
  tn1 ← lift (getitem t (n + 1));
  tn ← lift (getitem t n);
  let dt := (num tn1 - num tn)%Q in
  un ← lift (getitem u n);
  v0 ← lift (as_float un);
  v ← lift (setitem v 0 v0);
  setattr "v" v ;;
  max_iter ← getattr "max_iter";
  m ← lift (integer max_iter);
  loop (num un) (num tn) (num tn1) dt (Z.to_nat m) 0 v.

End Scalar.

(** A [MidpointIter] instance at step 0 of the grid [0, 0.5, 1, 1.5] for
    [u' = -u], [u[0] = 1], with [max_iter = 2] and the default
    [eps_iter]. *)
Definition MidpointIter_decay : attrs :=
  <["n" := VInt 0]>
    (<["u" := VArray [VFloat 1; VFloat 0; VFloat 0; VFloat 0]]>
       (<["t" := VArray Examples.grid_uniform]>
          (snd (set_initial_condition (VFloat 1)
                  (snd (Config.init Examples.no_f2py Examples.str_of
                          (Switch.class_parameters MidpointIter)
                          (VCallable "f") [("max_iter", VInt 2)] ∅)))))).

(** The instance that [MidpointIter(f)] returns (an empty dictionary
    stands in if the call raises). *)
Definition MidpointIter_fresh : attrs :=
  match Switch.new Examples.no_f2py Examples.str_of MidpointIter
          (VCallable "f") []
  with
  | Ok self => self
  | Raise _ => ∅
  end.

End Midpoint.

(* ===================================================================== *)
(** ** The loop of [RKFehlberg.advance]: where it can stop *)
(* ===================================================================== *)

Module FehlbergLoop.

Import Fehlberg.

Local Open Scope R_scope.

(** The local variables on entering the [while] loop. *)
Definition entry (u_n : list R) (t_n h : R) : work :=
  {| uwork := [u_n]; twork := [t_n]; h := h; u_new := None; t_cur := t_n |}.

(** What every pass keeps, on an ascending step with
    [0 <= min_step <= max_step] and a first step inside the interval:
    the accepted times stay inside [[t_n, t_next]], the working step is
    not negative and not longer than what is left of the interval, and a
    pass that starts at [t_next] ends with its [u_new] accepted. *)
Definition inside (t_n t_next : R) (w : work) : Prop :=
  exists last_t,
    last (twork w) = Some last_t
    /\ t_n <= t_cur w <= last_t
    /\ last_t <= t_next
    /\ 0 <= h w <= t_next - last_t
    /\ (t_cur w = t_next -> u_new w = last (uwork w)).

(** A scalar problem with right-hand side zero on the grid [0, 1], with
    [rtol = 0], [atol = 1] and none of the step attributes set; and the
    same on the single point [0] repeated. *)
Definition still (t : list R) : solver :=
  {| f := fun u _ => List.map (fun _ => 0) u;
     neq := 1;
     rtol := 0;
     atol := 1;
     u := [[1]; [0]];
     t := t;
     n := 0;
     first_step := None;
     min_step := None;
     max_step := None |}.

(** Every accepted value has the length of the problem. *)
Definition shaped (s : solver) (w : work) : Prop :=
  Forall (fun u => length u = neq s) (uwork w).

(** The same problem on the grid [0, 1] with [first_step], [min_step] and
    [max_step] all set to 1. *)
Definition fixed_step : solver :=
  with_steps (still [0; 1]) (Some 1) (Some 1) (Some 1).

End FehlbergLoop.

(* ===================================================================== *)
(** ** [check_conditional_parameters]: the example of its doc string *)
(* ===================================================================== *)

Module ConditionalExamples.

Import Registry.



End ConditionalExamples.

(* ===================================================================== *)
(** ** [AdaptiveResidual.residual] *)
(* ===================================================================== *)

Module Residual.

Local Open Scope Q_scope.

(** [AdaptiveResidual.residual] on a scalar problem.  [None] stands for
    the division by a [dt] that is zero, where the floats give [inf] or
    [nan] and no number. *)
Definition residual (f : Q -> Q -> Q) (u_n u_next t_n t_next : Q)
    : option Q :=
  let dt := t_next - t_n in
  let t_mean := (1 # 2) * (t_n + t_next) in
  let u_mean := (1 # 2) * (u_n + u_next) in
  let u_diff := u_next - u_n in
  if Qeq_bool dt 0 then None
  else Some (Qabs (u_diff / dt - f u_mean t_mean)).

(** An implicit solver for [u' = -u] at step 0 of the grid [0, 1], with
    [u[0] = 1]. *)
Definition midpoint_decay : Implicit.solver :=
  {| Implicit.f := fun u _ => - u;
     Implicit.jac := fun _ _ => - (1);
     Implicit.u := [1; 0];
     Implicit.t := [0; 1];
     Implicit.n := 0;
     Implicit.max_iter := 25;
     Implicit.eps_iter := 1 # 10000;
     Implicit.relaxation := 1;
     Implicit.nonlinear := Implicit.Picard |}.

End Residual.

(* ===================================================================== *)
(** ** [approximate_Jacobian] *)
(* ===================================================================== *)

Module Jacobian.

Local Open Scope Q_scope.

(** [a - b] on one-dimensional arrays, with numpy's broadcasting: the
    lengths are equal or one of them is 1; [ValueError] otherwise. *)
Definition broadcast_sub (a b : list Q) : result (list Q) :=
  if (length a =? length b)%nat then Ok (zip_with Qminus a b)
  else match a, b with
       | [x], _ => Ok (List.map (fun y => x - y) b)
       | _, [y] => Ok (List.map (fun x => x - y) a)
       | _, _ => Raise ValueError
       end.

(** [J[i] = row]: the row is copied into the [neq] entries, or repeated
    when it has one entry; [ValueError] otherwise. *)
Definition assign_row (neq : nat) (row : list Q) : result (list Q) :=
  if (length row =? neq)%nat then Ok row
  else match row with
       | [x] => Ok (replicate neq x)
       | _ => Raise ValueError
       end.

(** The loop [for i in range(neq)], giving the rows of [J] before the
    transposition. *)
Fixpoint rows (f : list Q -> Q -> list Q) (u0 : list Q) (t0 h : Q)
    (f0 : list Q) (neq : nat) (range : list nat) : result (list (list Q)) :=
  match range with
  | [] => Ok []
  | i :: rest =>
      let u_new := alter (fun x => x + h) i u0 in
      d <~ broadcast_sub (f u_new t0) f0;
      row <~ assign_row neq (List.map (fun x => x / h) d);
      J <~ rows f u0 t0 h f0 neq rest;
      Ok (row :: J)
  end.

(** [J.transpose()] of an array of shape [(neq, neq)]. *)
Definition transpose (neq : nat) (J : list (list Q)) : list (list Q) :=
  List.map (fun j => List.map (fun row => nth j row 0) J) (seq 0 neq).

(** [approximate_Jacobian(f, u0, t0, h)] for a one-dimensional float
    array [u0] and an [f] that returns one-dimensional arrays.  [None]
    stands for a result with the entries [inf] or [nan] that the division
    by a zero [h] leaves. *)
Definition approximate_Jacobian (f : list Q -> Q -> list Q) (u0 : list Q)
    (t0 h : Q) : option (result (list (list Q))) :=
  let f0 := f u0 t0 in
  let neq := length u0 in
  match rows f u0 t0 h f0 neq (seq 0 neq) with
  | Raise e => Some (Raise e)
  | Ok J =>
      if Qeq_bool h 0 && negb (neq =? 0)%nat then None
      else Some (Ok (transpose neq J))
  end.

(** [sum(g(k) for k in l)] *)
Definition Qsum (g : nat -> Q) (l : list nat) : Q :=
  fold_right (fun k acc => g k + acc) 0 l.

(** The right-hand side [(2*u0 + 3*u1 + t, 4*u0 + 5*u1)]. *)
Definition coupled (u : list Q) (t : Q) : list Q :=
  [2 * nth 0 u 0 + 3 * nth 1 u 0 + t; 4 * nth 0 u 0 + 5 * nth 1 u 0].

(** Its matrix. *)
Definition coupled_matrix (j i : nat) : Q :=
  nth i (nth j [[2; 3]; [4; 5]] []) 0.

End Jacobian.

(* ===================================================================== *)
(** ** Attribute lookup beyond the instance dictionary, and [Solver.get] *)
(* ===================================================================== *)

Module Getattr.

Import Registry.

Section Lookup.

(** What attribute lookup finds for a name that the dictionary [attrs]
    does not hold, [None] where it finds nothing: the entry [_parameters]
    of the instance, the names that the class statement and its bases
    bind (methods such as [solve], class attributes such as
    [_optional_parameters] and [__doc__]), and the special attributes
    [__dict__] and [__class__]. *)
Variable outside : string -> option pyval.

(** [self._parameters] *)
Variable parameters : registry.

(** [getattr(self, name)] on an instance of [Solver], an old-style class
    without [__getattr__]: the instance dictionary first, then the class.
    [None] when [getattr] raises [AttributeError], that is, when
    [hasattr(self, name)] is false. *)
Definition getattr_opt (name : string) (self : attrs) : option pyval :=
  match self !! name with
  | Some v => Some v
  | None => outside name
  end.

(** [Solver.get(parameter_name)] *)
Definition get (parameter_name : string) : M pyval :=
  fun self => match getattr_opt parameter_name self with
              | Some value => (Ok value, self)
              | None => (Raise AttributeError, self)
              end.

(** [Solver.get()] *)
Definition get_all : M (list (string * pyval)) :=
  fun self =>
    (Ok (omap (fun e => (fun v => (fst e, v)) <$> getattr_opt (fst e) self)
              parameters),
     self).

End Lookup.

End Getattr.

(* ===================================================================== *)
(** * Properties *)
(* ===================================================================== *)

(** ** Solver configuration *)

Module ConfigFacts.

Import Config Examples.

Section Facts.

Variable f2py_compile : string -> option (string -> option pyval).
Variable py_str : pyval -> string.
Variable parameters : registry.

(** A value that is not a number is never compared with a range. *)
Lemma check_range_non_numeric (ranges : list pyval) (value : pyval) :
  as_number value = None -> check_range ranges value = Ok tt.
Proof. intros H. unfold check_range. now rewrite H. Qed.

Lemma check_input_range_loop_strings
    (l : list (string * list pyval * pyval)) :
  Forall (fun e => as_number (snd e) = None) l ->
  check_input_range_loop l = Ok true.
Proof.
  induction 1 as [|[[name ranges] value] l Hv _ IH]; simpl; [done|].
  simpl in Hv. now rewrite (check_range_non_numeric _ _ Hv).
Qed.

Lemma kw_get_kw_del_same (k : string) (kwargs : kwargs_t) :
  kw_get k (kw_del k kwargs) = None.
Proof.
  unfold kw_get, kw_del.
  induction kwargs as [|[k' w] kwargs IH]; simpl; [done|].
  destruct (String.eqb k k') eqn:Ek; simpl; [exact IH|].
  now rewrite Ek.
Qed.

Lemma kw_get_kw_del (name k : string) (kwargs : kwargs_t) (v : pyval) :
  kw_get name (kw_del k kwargs) = Some v -> kw_get name kwargs = Some v.
Proof.
  destruct (String.eqb name k) eqn:E.
  - apply String.eqb_eq in E. subst. now rewrite kw_get_kw_del_same.
  - unfold kw_get, kw_del.
    induction kwargs as [|[k' w] kwargs IH]; simpl; [done|].
    destruct (String.eqb k k') eqn:Ek; simpl.
    + apply String.eqb_eq in Ek. subst. rewrite E. exact IH.
    + destruct (String.eqb name k'); [done|exact IH].
Qed.

Lemma no_removal_kw_del (k : string) (kwargs : kwargs_t) (self : attrs) :
  no_removal kwargs self -> no_removal (kw_del k kwargs) self.
Proof. intros H name Hn. apply H. eapply kw_get_kw_del, Hn. Qed.

(** Without such a request the first loop of [set] leaves the instance as
    it found it, whether it returns or raises. *)
Lemma set_names_keeps_state (strict : bool) (names : list string) :
  forall (kwargs : kwargs_t) (self : attrs),
    no_removal kwargs self ->
    snd (set_names parameters strict names kwargs self) = self.
Proof.
  induction names as [|name rest IH]; intros kwargs self HP; simpl; [done|].
  destruct (negb (reg_has name parameters)).
  - destruct strict; [done|]. apply IH. now apply no_removal_kw_del.
  - destruct (kw_get name kwargs) as [v|] eqn:E; [|done].
    destruct v; try (now apply IH).
    unfold mbind, M_bind, bind, hasattr. rewrite (HP name E). simpl.
    apply IH. now apply no_removal_kw_del.
Qed.

Lemma check_conditional_loop_nil (self : attrs) (p : registry) :
  no_condition_lists p ->
  omap (fun e => match self !! fst e, condition_list (snd e) with
                 | Some v, Some c => Some (fst e, c, v)
                 | _, _ => None
                 end) p = [].
Proof.
  induction 1 as [|e p He _ IH]; simpl; [done|].
  rewrite He. destruct (self !! fst e); exact IH.
Qed.

(** Validate-then-commit, where it holds: when no Fortran source is among
    the arguments, no removal request hits a set attribute and the registry
    has no condition lists, a [set] that raises leaves the instance
    dictionary as it was. *)
Lemma set_failure_keeps_config (strict : bool) (kwargs : kwargs_t)
    (self self' : attrs) (e : exn) :
  List.filter is_string_function kwargs = [] ->
  no_removal kwargs self ->
  no_condition_lists parameters ->
  set f2py_compile py_str parameters strict kwargs self = (Raise e, self') ->
  self' = self.
Proof.
  intros Hs HP Hc. unfold set, compile_string_functions. rewrite Hs. simpl.
  unfold mbind, M_bind, bind, lift. simpl.
  pose proof (set_names_keeps_state strict (List.map fst kwargs) kwargs self HP) as Hk.
  destruct (set_names parameters strict (List.map fst kwargs) kwargs self)
    as [[kw|e1] s1]; simpl in Hk; subst s1; [|congruence].
  destruct (check_input_types parameters kw); [|congruence].
  destruct (check_input_range parameters kw); [|congruence].
  destruct (check_extra parameters kw); [|congruence].
  destruct (commit kw self) as [[[]|e2] s2] eqn:Ecommit.
  - unfold check_conditional_parameters.
    rewrite (check_conditional_loop_nil _ _ Hc). simpl. unfold mret, M_ret, ret.
    congruence.
  - exfalso. clear -Ecommit. revert self Ecommit.
    induction kw as [|[k v] kw IH]; simpl; intros self; [done|].
    unfold mbind, M_bind, bind, setattr. apply IH.
Qed.

End Facts.

(** C9 (the code departs from the claim).  [nonlinear_solver] is registered
    with the enumerated range [('Newton', 'Picard')].  On a fresh
    [BackwardEuler] instance, [set(nonlinear_solver='Foo')] passes
    [check_input_range], returns normally and stores ['Foo'], although
    ['Foo'] is not a member of the range; a member, ['Newton'], is accepted
    as well. *)
Theorem C9_string_outside_range_is_accepted :
  let p := BackwardEuler_parameters in
  let self := construct p in
  (range <$> reg_get "nonlinear_solver" p) = Some (Some [VStr "Newton"; VStr "Picard"])
  /\ check_input_range p [("nonlinear_solver", VStr "Foo")] = Ok true
  /\ set no_f2py str_of p false [("nonlinear_solver", VStr "Foo")] self
     = (Ok tt, <["nonlinear_solver" := VStr "Foo"]> self)
  /\ fst (set no_f2py str_of p false [("nonlinear_solver", VStr "Newton")] self)
     = Ok tt.
Proof.
  cbv zeta. repeat split; vm_compute; reflexivity.
Qed.

(** C1 (the code departs from the claim).  On a fresh [BackwardEuler]
    instance, whose [max_iter] is 25, the batch
    [set(max_iter=None, eps_iter='bad')] raises [TypeError] for [eps_iter],
    yet [max_iter] has been removed: the configuration after the failed
    call is not the configuration before it. *)
Theorem C1_failed_set_has_removed_attribute :
  let p := BackwardEuler_parameters in
  let self := construct p in
  let call := set no_f2py str_of p false
                [("max_iter", VNone); ("eps_iter", VStr "bad")] self in
  fst call = Raise TypeError
  /\ self !! "max_iter" = Some (VInt 25)
  /\ snd call !! "max_iter" = None
  /\ snd call <> self.
Proof.
  cbv zeta.
  assert (H1 : snd (set no_f2py str_of BackwardEuler_parameters false
                      [("max_iter", VNone); ("eps_iter", VStr "bad")]
                      (construct BackwardEuler_parameters)) !! "max_iter"
               = None)
    by (vm_compute; reflexivity).
  assert (H2 : construct BackwardEuler_parameters !! "max_iter"
               = Some (VInt 25))
    by (vm_compute; reflexivity).
  split; [vm_compute; reflexivity|].
  split; [exact H2|].
  split; [exact H1|].
  intros H. rewrite H in H1. rewrite H2 in H1. discriminate.
Qed.

End ConfigFacts.

(** ** Initial condition, validation and the time loop *)

Module TimeLoopFacts.

Import TimeLoop Examples.

Lemma as_floats_numbers (l xs : list pyval) :
  as_floats l = Ok xs -> all_numbers xs = all_numbers l.
Proof.
  revert xs. induction l as [|v l IH]; simpl; intros xs H.
  - now inversion H.
  - unfold as_float in H. destruct (as_number v) as [q|] eqn:Ev; [|done].
    destruct (as_floats l) as [ys|]; [|done].
    inversion H; subst. simpl. now rewrite (IH ys eq_refl).
Qed.

(** Slot 0 holds the numbers of [U0] whenever [neq] is what
    [set_initial_condition] derives from [U0]. *)
Lemma initial_row_numbers (neq : Z) (U0 row : pyval) :
  initial_row neq U0 = Ok row ->
  neq = match py_len U0 with Some n => Z.of_nat n | None => 1%Z end ->
  numbers row = numbers U0.
Proof.
  unfold initial_row. intros H Hneq.
  destruct (neq =? 1)%Z eqn:E1.
  - destruct U0 as [| | | | |l|l|l| |]; simpl in *;
      try (unfold as_float in H; simpl in H; try done; now inversion H).
    destruct l as [|x [|y l]]; try done.
    unfold as_float in H. destruct (as_number x) as [q|] eqn:Ex; [|done].
    inversion H; subst. simpl. now rewrite Ex.
  - destruct U0 as [| | | | |l|l|l| |]; simpl in *;
      try (apply Z.eqb_neq in E1; lia);
      try (unfold as_float in H; simpl in H; done).
    destruct (Z.of_nat (length l) =? neq)%Z; [|done].
    destruct (as_floats l) as [xs|] eqn:Ef; [|done].
    inversion H; subst. simpl. now apply as_floats_numbers.
Qed.

Lemma set_initial_condition_state (U0 : pyval) (self : attrs) :
  set_initial_condition U0 self =
  (Ok tt,
   match py_len U0 with
   | Some n => <["U0" := asarray U0]> (<["neq" := VInt (Z.of_nat n)]> self)
   | None => <["U0" := if isinstance U0 CInt then float U0 else U0]>
               (<["neq" := VInt 1]> self)
   end).
Proof. unfold set_initial_condition. now destruct (py_len U0). Qed.

(** What [set_internal_parameters] leaves in [self.u] when it returns. *)
Lemma set_internal_parameters_u (self self' : attrs) :
  set_internal_parameters self = (Ok tt, self') ->
  exists U0 t neq row,
    self !! "U0" = Some U0 /\ self !! "t" = Some t
    /\ self !! "neq" = Some (VInt neq)
    /\ initial_row neq U0 = Ok row
    /\ (0 < size t)%nat
    /\ self' = <["u" := VArray (<[0%nat := row]>
                                  (replicate (size t) (zero_slot neq)))]>
               (<["u" := zeros (size t) neq]>
                  (<["complex_valued" := VBool false]>
                     (<["dtype" := VStr "float64"]> self))).
Proof.
  unfold set_internal_parameters. run_M.
  destruct (self !! "U0") as [U0|] eqn:EU; [|done].
  destruct (self !! "t") as [t|] eqn:Et; [|done].
  intros H.
  assert (Hneq : exists neq, self !! "neq" = Some (VInt neq) /\
            (let s := <["complex_valued" := VBool false]>
                        (<["dtype" := VStr "float64"]> self) in
             match initial_row neq U0 with
             | Ok row =>
                 match setitem (zeros (size t) neq) 0 row with
                 | Ok u => (Ok tt, <["u" := u]> (<["u" := zeros (size t) neq]> s))
                 | Raise e => (Raise e, <["u" := zeros (size t) neq]> s)
                 end
             | Raise e => (Raise e, <["u" := zeros (size t) neq]> s)
             end = (Ok tt, self'))).
  { destruct (bool_decide (is_Some (self !! "f")));
      [destruct (getitem t 0); [|done]|];
      rewrite !lookup_insert_ne in H by done;
      (destruct (self !! "neq") as [[]|]; try done);
      eexists; (split; [reflexivity|]);
      rewrite lookup_insert_eq in H; cbv zeta;
      (destruct (initial_row _ U0); [|done]);
      (destruct (setitem _ 0 _); exact H). }
  clear H. destruct Hneq as (neq & Hn & H). cbv zeta in H.
  exists U0, t, neq.
  destruct (initial_row neq U0) as [row|] eqn:Er; [|done].
  exists row. repeat (split; [done|]).
  unfold zeros at 1 in H. unfold setitem in H. cbn [items] in H.
  rewrite length_replicate in H.
  destruct (bool_decide_reflect (0 < size t)%nat) as [Hpos|Hpos]; [|done].
  split; [exact Hpos|]. now inversion H.
Qed.

(** The state [solve] starts its loop in, when the initial condition was
    set by [set_initial_condition] and [set_internal_parameters] returns. *)
Lemma prepared_row (U0 : pyval) (self : attrs) (tv : pyval) (later : attrs) :
  let s0 := snd (set_initial_condition U0 self) in
  set_internal_parameters (<["t" := tv]> s0) = (Ok tt, later) ->
  exists stored neq row rest,
    s0 !! "U0" = Some stored
    /\ s0 !! "neq" = Some (VInt neq)
    /\ initial_row neq stored = Ok row
    /\ later !! "u" = Some (VArray (row :: rest))
    /\ numbers row = numbers stored
    /\ later !! "t" = Some tv
    /\ (length rest + 1 = size tv)%nat.
Proof.
  cbv zeta. rewrite set_initial_condition_state. simpl. intros H.
  apply set_internal_parameters_u in H.
  destruct H as (S0 & t & neq & row & HU & Ht & Hn & Hrow & Hpos & ->).
  rewrite lookup_insert_eq in Ht. inversion Ht; subst t.
  rewrite lookup_insert_ne in HU, Hn by done.
  exists S0, neq, row.
  destruct (size tv) as [|k] eqn:Ek; [lia|].
  eexists. split; [exact HU|]. split; [exact Hn|]. split; [exact Hrow|].
  split; [rewrite lookup_insert_eq; simpl; reflexivity|].
  split.
  { apply (initial_row_numbers neq); [exact Hrow|].
    destruct (py_len U0) as [n|] eqn:HL.
    + rewrite lookup_insert_eq in HU. rewrite lookup_insert_ne in Hn by done.
      rewrite lookup_insert_eq in Hn. inversion HU; inversion Hn; subst.
      destruct U0; simpl in *; try done; congruence.
    + rewrite lookup_insert_eq in HU. rewrite lookup_insert_ne in Hn by done.
      rewrite lookup_insert_eq in Hn. inversion HU; inversion Hn; subst.
      destruct U0 as [|b| | | | | | | |]; simpl in *; try done. }
  split.
  { rewrite !lookup_insert_ne by done. apply lookup_insert_eq. }
  rewrite length_replicate. lia.
Qed.


(** *** The order test of [validate_data] *)

Import Grid.

Lemma dir_test (reverse : bool) (x y : pyval) :
  (if reverse then Qle_bool (num y) (num x) else Qle_bool (num x) (num y)) = true
  <-> dir reverse x y.
Proof. destruct reverse; simpl; apply Qle_bool_iff. Qed.

Lemma dir_total (reverse : bool) (x y : pyval) :
  dir reverse x y \/ dir reverse y x.
Proof.
  destruct reverse; simpl;
    destruct (Qlt_le_dec (num x) (num y)) as [H|H]; auto using Qlt_le_weak.
Qed.

Lemma dir_trans (reverse : bool) (x y z : pyval) :
  dir reverse x y -> dir reverse y z -> dir reverse x z.
Proof. destruct reverse; simpl; intros; eapply Qle_trans; eauto. Qed.

Lemma list_eq_refl (l : list pyval) : list_eq l l = true.
Proof.
  induction l as [|x l IH]; simpl; [done|].
  rewrite IH, andb_true_r. apply Qeq_bool_iff. reflexivity.
Qed.

Lemma insert_sorted_HdRel (reverse : bool) (x : pyval) (l : list pyval) :
  HdRel (dir reverse) x l -> insert_sorted reverse x l = x :: l.
Proof.
  destruct 1 as [|y l H]; simpl; [done|].
  apply dir_test in H. now rewrite H.
Qed.

(** [sorted] returns a sorted list as it is. *)
Lemma sorted_of_Sorted (reverse : bool) (l : list pyval) :
  Sorted (dir reverse) l -> sorted l reverse = l.
Proof.
  unfold sorted. induction 1 as [|x l Hs IH Hd]; simpl; [done|].
  rewrite IH. now apply insert_sorted_HdRel.
Qed.

Lemma insert_sorted_Sorted (reverse : bool) (x : pyval) (l : list pyval) :
  Sorted (dir reverse) l -> Sorted (dir reverse) (insert_sorted reverse x l).
Proof.
  induction 1 as [|y l Hs IH Hd]; simpl.
  - repeat constructor.
  - destruct (if reverse then Qle_bool (num y) (num x)
              else Qle_bool (num x) (num y)) eqn:E.
    + apply dir_test in E. repeat constructor; assumption.
    + assert (Hyx : dir reverse y x).
      { destruct (dir_total reverse x y) as [H|H]; [|exact H].
        apply dir_test in H. congruence. }
      constructor; [exact IH|].
      destruct Hd as [|z l Hyz]; simpl; [now constructor|].
      destruct (if reverse then Qle_bool (num z) (num x)
                else Qle_bool (num x) (num z)); now constructor.
Qed.

Lemma sorted_Sorted (reverse : bool) (l : list pyval) :
  Sorted (dir reverse) (sorted l reverse).
Proof.
  unfold sorted. induction l as [|x l IH]; simpl; [constructor|].
  now apply insert_sorted_Sorted.
Qed.

(** Lists that are equal item by item are sorted together. *)
Lemma list_eq_Sorted (reverse : bool) (a b : list pyval) :
  list_eq a b = true -> Sorted (dir reverse) b -> Sorted (dir reverse) a.
Proof.
  revert b. induction a as [|x a IH]; intros [|y b]; simpl; intros H Hs;
    try discriminate; [constructor|].
  - apply andb_true_iff in H as [Hxy Hab].
    apply Qeq_bool_iff in Hxy. inversion Hs as [|? ? Hs' Hd]; subst.
    constructor; [now apply (IH b)|].
    destruct a as [|x' a]; [constructor|].
    destruct b as [|y' b]; [done|].
    simpl in Hab. apply andb_true_iff in Hab as [Hxy' _].
    apply Qeq_bool_iff in Hxy'. inversion Hd; subst. constructor.
    destruct reverse; simpl in *; now rewrite Hxy, Hxy'.
Qed.

Lemma Sorted_bounds (reverse : bool) (first final : pyval) (l : list pyval) :
  Sorted (dir reverse) (first :: l) -> last (first :: l) = Some final ->
  Forall (fun x => dir reverse first x /\ dir reverse x final) (first :: l).
Proof.
  intros Hs. apply Sorted_StronglySorted in Hs;
    [|intros x y z; apply dir_trans].
  revert first final Hs.
  induction l as [|y l IH]; intros first final Hs Hl.
  - simpl in Hl. inversion Hl; subst. constructor; [|constructor].
    split; destruct reverse; simpl; apply Qle_refl.
  - inversion Hs as [|? ? Hs' Hall]; subst.
    assert (Hl' : last (y :: l) = Some final) by exact Hl.
    specialize (IH y final Hs' Hl').
    assert (Hfy : dir reverse first y) by (inversion Hall; assumption).
    assert (Hyf : dir reverse y final).
    { inversion IH as [|? ? [_ H] _]; exact H. }
    constructor.
    + split; [destruct reverse; simpl; apply Qle_refl|].
      eapply dir_trans; eassumption.
    + eapply Forall_impl; [exact IH|]. simpl. intros x [H1 H2].
      split; [eapply dir_trans; eassumption|exact H2].
Qed.

Lemma Sorted_of_all_related (R : pyval -> pyval -> Prop) (l : list pyval) :
  Forall (fun x => Forall (R x) l) l -> Sorted R l.
Proof.
  induction l as [|x l IH]; intros H; constructor.
  - apply IH. inversion H as [|? ? _ Hl]; subst.
    eapply Forall_impl; [exact Hl|]. simpl. intros y Hy. now inversion Hy.
  - inversion H as [|? ? Hx _]; subst. inversion Hx as [|? ? _ Hxl]; subst.
    destruct l; constructor. now inversion Hxl.
Qed.

(** A descending grid whose first point is not above its last is constant,
    hence ascending. *)
Lemma descending_flat (first final : pyval) (l : list pyval) :
  descending (first :: l) -> last (first :: l) = Some final ->
  (num first <= num final)%Q -> ascending (first :: l).
Proof.
  intros Hd Hl Hle.
  pose proof (Sorted_bounds true first final l Hd Hl) as Hb. simpl in Hb.
  apply Sorted_of_all_related.
  eapply Forall_impl; [exact Hb|]. simpl. intros x [Hx1 Hx2].
  eapply Forall_impl; [exact Hb|]. simpl. intros y [Hy1 Hy2].
  eapply Qle_trans; [exact Hx1|]. eapply Qle_trans; [exact Hle|exact Hy2].
Qed.

Lemma strict_is_monotonic (ts : list pyval) :
  strictly_monotonic ts -> monotonic ts.
Proof.
  intros [H|H]; [left|right];
    (induction H as [|x l Hs IH Hd]; constructor; [exact IH|]);
    destruct Hd; constructor; now apply Qlt_le_weak.
Qed.

(** The outcome of the order test: [list(self.t) == list(t_sorted)] holds
    exactly for the monotonic grids. *)
Lemma order_test (first final : pyval) (l : list pyval) :
  last (first :: l) = Some final ->
  list_eq (first :: l)
    (sorted (first :: l) (negb (Qle_bool (num first) (num final)))) = true
  <-> monotonic (first :: l).
Proof.
  intros Hl. split.
  - intros H.
    pose proof (list_eq_Sorted _ _ _ H (sorted_Sorted _ _)) as Hs.
    destruct (negb _); [right|left]; exact Hs.
  - intros Hm.
    assert (Hrev : Sorted (dir (negb (Qle_bool (num first) (num final))))
                     (first :: l)).
    { destruct (Qle_bool (num first) (num final)) eqn:E; simpl.
      - apply Qle_bool_iff in E. destruct Hm as [Ha|Hd]; [exact Ha|].
        exact (descending_flat first final l Hd Hl E).
      - destruct Hm as [Ha|Hd]; [|exact Hd]. exfalso.
        pose proof (Sorted_bounds false first final l Ha Hl) as Hb.
        inversion Hb as [|? ? [_ H] _]; subst. simpl in H.
        apply Qle_bool_iff in H. congruence. }
    rewrite (sorted_of_Sorted _ _ Hrev). apply list_eq_refl.
Qed.

Lemma validate_data_state (required : list string) (self : attrs) :
  snd (validate_data required self) = self.
Proof.
  unfold validate_data. run_M.
  destruct (self !! "t") as [t|]; [|done].
  destruct (sequence_items t) as [l|]; [|done].
  destruct (negb (forallb is_real l)); [done|].
  destruct (l !! 0%nat); [|done]. destruct (last l); [|done].
  destruct (negb _); [done|]. now destruct (forallb _ required).
Qed.

Lemma validate_data_array (required : list string) (self : attrs)
    (first final : pyval) (l : list pyval) :
  self !! "t" = Some (VArray (first :: l)) ->
  forallb is_real (first :: l) = true ->
  last (first :: l) = Some final ->
  validate_data required self =
  if negb (list_eq (first :: l)
             (sorted (first :: l) (negb (Qle_bool (num first) (num final)))))
  then (Raise ValueError, self)
  else if forallb (fun arg => bool_decide (is_Some (self !! arg))) required
       then (Ok true, self) else (Raise ValueError, self).
Proof.
  intros Ht Hreal Hlast. unfold validate_data. run_M. rewrite Ht.
  cbn [sequence_items]. rewrite Hreal. cbn [negb].
  change ((first :: l) !! 0%nat) with (Some first). rewrite Hlast.
  now destruct (negb (list_eq _ _)).
Qed.

(** C3, as the code has it.  For a non-empty grid of real numbers on an
    instance whose required parameters are set, [validate_data] returns
    [True] when the grid is monotonic, repeated values allowed, and raises
    [ValueError] when it is not; in particular every strictly monotonic
    grid passes.  Nothing asks for two points or for distinct ones. *)
Theorem C3_validate_data_order (required : list string) (self : attrs)
    (ts : list pyval) :
  self !! "t" = Some (VArray ts) ->
  ts <> [] ->
  forallb is_real ts = true ->
  forallb (fun arg => bool_decide (is_Some (self !! arg))) required = true ->
  (monotonic ts -> validate_data required self = (Ok true, self))
  /\ (~ monotonic ts -> validate_data required self = (Raise ValueError, self))
  /\ (strictly_monotonic ts -> validate_data required self = (Ok true, self)).
Proof.
  intros Ht Hne Hreal Hreq.
  destruct ts as [|first l]; [done|].
  destruct (last (first :: l)) as [final|] eqn:El;
    [|now apply last_None in El].
  rewrite (validate_data_array required self first final l Ht Hreal El).
  rewrite Hreq.
  assert (Hmono : monotonic (first :: l) ->
                  list_eq (first :: l)
                    (sorted (first :: l)
                       (negb (Qle_bool (num first) (num final)))) = true).
  { apply order_test, El. }
  split; [|split].
  - intros Hm. now rewrite (Hmono Hm).
  - intros Hm. destruct (list_eq _ _) eqn:E; [|reflexivity].
    apply (order_test first final l El) in E. contradiction.
  - intros Hs. now rewrite (Hmono (strict_is_monotonic _ Hs)).
Qed.

(** The theorem at the grid [0, 1, 1, 2] of a [Euler] instance. *)
Lemma C3_validate_data_order_witness :
  let self := <["t" := VArray grid_repeated]> Euler_decay in
  monotonic grid_repeated
  /\ validate_data Solver_required self = (Ok true, self).
Proof.
  cbv zeta.
  assert (Hm : monotonic grid_repeated).
  { left. unfold ascending, grid_repeated.
    repeat (constructor; try (vm_compute; discriminate)). }
  split; [exact Hm|].
  refine (proj1 (C3_validate_data_order Solver_required _ grid_repeated
                   _ _ _ _) Hm).
  - apply lookup_insert_eq.
  - discriminate.
  - reflexivity.
  - vm_compute. reflexivity.
Defined.

(** C3 as stated fails: a grid with a repeated point and a grid of one
    point are not strictly monotonic sequences of at least two points,
    yet [validate_data] accepts both and [solve] returns on both. *)
Lemma C3_counterexample_repeated_point :
  ~ strictly_monotonic grid_repeated
  /\ (length grid_single < 2)%nat
  /\ fst (validate_data Solver_required
            (<["t" := VArray grid_repeated]> Euler_decay)) = Ok true
  /\ fst (validate_data Solver_required
            (<["t" := VArray grid_single]> Euler_decay)) = Ok true
  /\ is_ok (fst (solve (Euler_advance decay) (validate_data Solver_required)
                   never_terminate (VList grid_repeated) Euler_decay)) = true
  /\ is_ok (fst (solve (Euler_advance decay) (validate_data Solver_required)
                   never_terminate (VList grid_single) Euler_decay)) = true.
Proof.
  split.
  { intros [H|H]; inversion H as [|? ? H1 _]; subst;
      inversion H1 as [|? ? _ Hd]; subst;
      inversion Hd as [|? ? Hlt]; subst; vm_compute in Hlt; discriminate. }
  split; [simpl; lia|].
  repeat split; vm_compute; reflexivity.
Qed.

(** *** The time loop *)

Section Loop.

Variable advance : M pyval.
Variable terminate : pyval -> pyval -> nat -> bool.
Variable ts : list pyval.
Variable row : pyval.
Hypothesis Hframe : advance_frame advance ts row.

Lemma step_spec (n : nat) (s : attrs) :
  well_formed ts row s -> (n + 1 < length ts)%nat ->
  exists u' s', step advance n s = (Ok u', s')
                /\ well_formed ts row s' /\ s' !! "u" = Some u'.
Proof.
  intros (Ht & rest & Hu & Hlen) Hn.
  unfold step. run_M.
  destruct (Hframe (<["n" := VInt (Z.of_nat n)]> s) n) as (v & s' & Ha & Hw).
  { split; [now rewrite lookup_insert_ne|].
    exists rest. now rewrite lookup_insert_ne. }
  { apply lookup_insert_eq. }
  { exact Hn. }
  rewrite Ha. destruct Hw as (Ht' & rest' & Hu' & Hlen').
  rewrite Hu'. unfold setitem. simpl.
  destruct (bool_decide_reflect (n + 1 < S (length rest'))%nat) as [Hlt|Hge];
    [|lia].
  eexists _, _. split; [reflexivity|]. rewrite Nat.add_1_r. simpl.
  split; [|apply lookup_insert_eq].
  split; [now rewrite lookup_insert_ne|].
  exists (<[n := v]> rest'). rewrite lookup_insert_eq.
  split; [reflexivity|]. now rewrite length_insert.
Qed.

Lemma fires_from_step (from : nat) (s s' : attrs) (u' : pyval) (j : nat) :
  step advance from s = (Ok u', s') ->
  fires_from advance terminate ts from s (S j)
  = fires_from advance terminate ts (S from) s' j.
Proof.
  intros H. unfold fires_from. simpl. unfold mbind at 1, M_bind, bind.
  rewrite H. now rewrite Nat.add_succ_r.
Qed.

Lemma steps_step (from k : nat) (s s' : attrs) (u' : pyval) :
  step advance from s = (Ok u', s') ->
  steps advance from (S k) s = steps advance (S from) k s'.
Proof. intros H. simpl. unfold mbind, M_bind, bind. now rewrite H. Qed.

(** The predicate never fires: the loop runs all its passes. *)
Lemma time_loop_full (len : nat) :
  forall (from : nat) (s : attrs),
    well_formed ts row s -> (from + len + 1 = length ts)%nat ->
    (forall j, (j < len)%nat ->
       fires_from advance terminate ts from s (S j) = false) ->
    time_loop advance terminate (seq from len) s
      = (Ok tt, snd (steps advance from len s))
    /\ well_formed ts row (snd (steps advance from len s)).
Proof.
  induction len as [|len IH]; intros from s Hw Hlen Hno; [done|].
  destruct (step_spec from s Hw) as (u' & s' & Hs & Hw' & Hu'); [lia|].
  rewrite (steps_step _ _ _ _ _ Hs).
  change (seq from (S len)) with (from :: seq (S from) len).
  cbn [time_loop]. unfold mbind at 1, M_bind at 1, bind at 1. rewrite Hs.
  run_M. destruct Hw' as (Ht' & Hrest').
  rewrite Ht'.
  assert (Hf : terminate u' (VArray ts) (from + 1) = false).
  { specialize (Hno 0%nat ltac:(lia)). unfold fires_from in Hno.
    rewrite (steps_step _ _ _ _ _ Hs) in Hno. simpl in Hno.
    now rewrite Hu' in Hno. }
  rewrite Hf. apply IH; [now split|lia|].
  intros j Hj. rewrite <- (fires_from_step _ _ _ _ _ Hs). apply Hno. lia.
Qed.

(** The predicate fires for the first time after pass [n + 1]: the loop
    stops in the state that pass left, with [u] and [t] cut. *)
Lemma time_loop_stops (len : nat) :
  forall (from n : nat) (s : attrs),
    well_formed ts row s -> (from + len + 1 = length ts)%nat ->
    (n < len)%nat ->
    (forall j, (j < n)%nat ->
       fires_from advance terminate ts from s (S j) = false) ->
    fires_from advance terminate ts from s (S n) = true ->
    exists rest,
      snd (steps advance from (S n) s) !! "u" = Some (VArray (row :: rest))
      /\ (length rest + 1 = length ts)%nat
      /\ time_loop advance terminate (seq from len) s
         = (Ok tt,
            <["t" := VArray (take (from + n + 2) ts)]>
              (<["u" := VArray (take (from + n + 2) (row :: rest))]>
                 (snd (steps advance from (S n) s)))).
Proof.
  induction len as [|len IH]; intros from n s Hw Hlen Hn Hno Hyes; [lia|].
  destruct (step_spec from s Hw) as (u' & s' & Hs & Hw' & Hu'); [lia|].
  rewrite (steps_step _ _ _ _ _ Hs).
  change (seq from (S len)) with (from :: seq (S from) len).
  cbn [time_loop]. unfold mbind at 1, M_bind at 1, bind at 1. rewrite Hs.
  destruct Hw' as (Ht' & rest & Hrest & Hlen').
  destruct n as [|n].
  - assert (Hf : terminate u' (VArray ts) (from + 1) = true).
    { unfold fires_from in Hyes.
      rewrite (steps_step _ _ _ _ _ Hs) in Hyes. simpl in Hyes.
      now rewrite Hu' in Hyes. }
    run_M. rewrite Ht', Hf. simpl.
    exists rest. split; [exact Hrest|]. split; [exact Hlen'|].
    rewrite Hrest in Hu'. inversion Hu'; subst u'. simpl.
    now rewrite Nat.add_0_r.
  - assert (Hf : terminate u' (VArray ts) (from + 1) = false).
    { specialize (Hno 0%nat ltac:(lia)). unfold fires_from in Hno.
      rewrite (steps_step _ _ _ _ _ Hs) in Hno. simpl in Hno.
      now rewrite Hu' in Hno. }
    run_M. rewrite Ht', Hf.
    destruct (IH (S from) n s') as (rest' & H1 & H2 & H3).
    + split; [exact Ht'|]. now exists rest.
    + lia.
    + lia.
    + intros j Hj. rewrite <- (fires_from_step _ _ _ _ _ Hs). apply Hno. lia.
    + rewrite <- (fires_from_step _ _ _ _ _ Hs). exact Hyes.
    + exists rest'. split; [exact H1|]. split; [exact H2|].
      rewrite H3. now replace (S from + n + 2)%nat with (from + S n + 2)%nat by lia.
Qed.

(** Either the predicate never fires within [N] passes, or there is a
    first pass after which it does. *)
Lemma first_fire (s : attrs) (N : nat) :
  (forall j, (j < N)%nat ->
     fires_from advance terminate ts 0 s (S j) = false)
  \/ exists n, (n < N)%nat
               /\ (forall j, (j < n)%nat ->
                     fires_from advance terminate ts 0 s (S j) = false)
               /\ fires_from advance terminate ts 0 s (S n) = true.
Proof.
  induction N as [|N [IH|(n & Hn & H1 & H2)]].
  - left. intros j Hj. lia.
  - destruct (fires_from advance terminate ts 0 s (S N)) eqn:E.
    + right. exists N. split; [lia|]. split; [exact IH|exact E].
    + left. intros j Hj. destruct (decide (j = N)) as [->|]; [exact E|].
      apply IH. lia.
  - right. exists n. split; [lia|]. now split.
Qed.

End Loop.

Lemma fires_from_0 (advance : M pyval)
    (terminate : pyval -> pyval -> nat -> bool) (ts : list pyval)
    (s : attrs) (k : nat) :
  fires advance terminate ts s k = fires_from advance terminate ts 0 s k.
Proof. reflexivity. Qed.

(** C2. Take an instance whose initial condition was set with
    [set_initial_condition(U0)], a grid [ts] of [N+1] points that the
    class's [validate_data] accepts, and an [advance] method that respects
    the frame of [solve].  Then [solve] returns arrays [u] and [t] of equal
    length, [u[0]] holds the numbers of the stored [U0], and
    - if [terminate] answers true for the first time after pass [n+1], both
      arrays have [n+2] entries, [t] is the first [n+2] grid points, and
      the instance is in the state pass [n+1] left it in, with [u] and [t]
      cut: no further pass was run;
    - if [terminate] never answers true, both arrays have [N+1] entries. *)
Theorem C2_solve_lengths
    (advance : M pyval) (validate : M bool)
    (terminate : pyval -> pyval -> nat -> bool)
    (U0 time_points : pyval) (self s1 : attrs) (ts : list pyval) (N : nat) :
  let s0 := snd (set_initial_condition U0 self) in
  asarray time_points = VArray ts ->
  length ts = S N ->
  set_internal_parameters (<["t" := VArray ts]> s0) = (Ok tt, s1) ->
  (exists b, validate s1 = (Ok b, s1)) ->
  (forall row, advance_frame advance ts row) ->
  exists us ts' self' stored row,
    solve advance validate terminate time_points s0
      = (Ok (VArray us, VArray ts'), self')
    /\ length us = length ts'
    /\ s0 !! "U0" = Some stored
    /\ us !! 0%nat = Some row
    /\ numbers row = numbers stored
    /\ (forall n, (n < N)%nat ->
          (forall j, (j < n)%nat ->
             fires advance terminate ts s1 (S j) = false) ->
          fires advance terminate ts s1 (S n) = true ->
          length us = (n + 2)%nat
          /\ ts' = take (n + 2) ts
          /\ self' = <["t" := VArray ts']>
                       (<["u" := VArray us]>
                          (snd (steps advance 0 (S n) s1))))
    /\ ((forall j, (j < N)%nat ->
           fires advance terminate ts s1 (S j) = false) ->
        length us = (N + 1)%nat /\ ts' = ts
        /\ self' = snd (steps advance 0 N s1)).
Proof.
  intros s0 Hts HN Hprep [b Hval] Hframe.
  destruct (prepared_row U0 self (VArray ts) s1 Hprep)
    as (stored & neq & row & rest & HU & _ & _ & Hu & Hnum & Ht & Hlen).
  fold s0 in HU. simpl in Hlen.
  assert (Hw : well_formed ts row s1).
  { split; [exact Ht|]. now exists rest. }
  assert (Hsolve : solve advance validate terminate time_points s0
                   = (u ← (time_loop advance terminate (seq 0 N) ;;
                           u ← getattr "u"; t ← getattr "t"; mret (u, t));
                      mret u) s1).
  { unfold solve. rewrite Hts. run_M. simpl. rewrite Hprep, Hval, Ht. simpl.
    rewrite HN. simpl. rewrite Nat.sub_0_r.
    destruct (time_loop advance terminate (seq 0 N) s1) as [[[]|e] s2];
      [|reflexivity].
    destruct (s2 !! "u"); [|reflexivity]. now destruct (s2 !! "t"). }
  rewrite Hsolve. clear Hsolve.
  destruct (first_fire advance terminate ts s1 N)
    as [Hnever|(n & Hn & Hbefore & Hat)].
  - (* the loop runs to the end *)
    destruct (time_loop_full advance terminate ts row (Hframe row) N 0 s1 Hw)
      as (Hloop & Ht' & rest' & Hu' & Hlen'); [lia|exact Hnever|].
    exists (row :: rest'), ts, (snd (steps advance 0 N s1)), stored, row.
    split. { run_M. rewrite Hloop. simpl. now rewrite Hu', Ht'. }
    split; [simpl; lia|]. split; [exact HU|]. split; [reflexivity|].
    split; [exact Hnum|]. split.
    + intros n Hn _ Hfire. exfalso.
      specialize (Hnever n Hn). rewrite fires_from_0 in Hfire. congruence.
    + intros _. split; [simpl; lia|]. done.
  - (* the loop stops after pass n+1 *)
    destruct (time_loop_stops advance terminate ts row (Hframe row) N 0 n s1 Hw)
      as (rest' & Hu' & Hlen' & Hloop); [lia|exact Hn|exact Hbefore|exact Hat|].
    simpl in Hloop.
    exists (take (n + 2) (row :: rest')), (take (n + 2) ts),
           (<["t" := VArray (take (n + 2) ts)]>
              (<["u" := VArray (take (n + 2) (row :: rest'))]>
                 (snd (steps advance 0 (S n) s1)))), stored, row.
    split.
    { run_M. rewrite Hloop. simpl. rewrite lookup_insert_ne by done.
      now rewrite !lookup_insert_eq. }
    split; [rewrite !length_take; simpl; lia|]. split; [exact HU|].
    split; [now rewrite Nat.add_comm|]. split; [exact Hnum|]. split.
    + intros n' Hn' Hbefore' Hat'.
      assert (n' = n) as ->.
      { destruct (Nat.lt_trichotomy n' n) as [Hlt|[Heq|Hgt]]; [|exact Heq|].
        - specialize (Hbefore n' Hlt). rewrite fires_from_0 in Hat'.
          congruence.
        - specialize (Hbefore' n Hgt). rewrite fires_from_0 in Hbefore'.
          congruence. }
      split; [rewrite length_take; simpl; lia|]. done.
    + intros Hnever. exfalso. specialize (Hnever n Hn).
      rewrite fires_from_0 in Hnever. congruence.
Qed.

(** [Euler.advance] respects the frame: it writes nothing. *)
Lemma Euler_advance_frame (f : Q -> Q -> Q) (ts : list pyval) (row : pyval) :
  advance_frame (Euler_advance f) ts row.
Proof.
  intros s n (Ht & rest & Hu & Hlen) Hn Hlt.
  unfold Euler_advance. run_M. rewrite Hu, Ht, Hn. rewrite Nat2Z.id.
  unfold getitem. simpl.
  destruct (lookup_lt_is_Some_2 ts (n + 1)) as [tn1 E1]; [lia|].
  destruct (lookup_lt_is_Some_2 ts n) as [tn E2]; [lia|].
  destruct (lookup_lt_is_Some_2 (row :: rest) n) as [un E3]; [simpl; lia|].
  rewrite E1, E2, E3.
  eexists _, s. split; [reflexivity|]. split; [exact Ht|]. now exists rest.
Qed.

Lemma pair_of_fst {A B} (p : A * B) (a : A) : fst p = a -> p = (a, snd p).
Proof. destruct p. simpl. now intros ->. Qed.

(** The theorem at a [Euler] instance for [u' = -u], [U0 = 1.0], on the
    grid [0, 0.5, 1, 1.5], with a [terminate] that answers true from step
    2 on: [u] and [t] come back with three entries. *)
Lemma C2_solve_lengths_witness :
  exists us ts' self',
    solve (Euler_advance decay) (validate_data Solver_required) stop_at_2
      (VList grid_uniform) Euler_decay = (Ok (VArray us, VArray ts'), self')
    /\ length us = 3%nat /\ length ts' = 3%nat.
Proof.
  pose (s1 := snd (set_internal_parameters
                     (<["t" := VArray grid_uniform]> Euler_decay))).
  destruct (C2_solve_lengths (Euler_advance decay)
              (validate_data Solver_required) stop_at_2
              (VFloat 1) (VList grid_uniform) (construct Euler_parameters)
              s1 grid_uniform 3)
    as (us & ts' & self' & stored & row & Hsolve & Hlen & _ & _ & _ & Hstop & _).
  - reflexivity.
  - reflexivity.
  - apply pair_of_fst. vm_compute. reflexivity.
  - exists true. rewrite <- (validate_data_state Solver_required s1) at 2.
    apply pair_of_fst. vm_compute. reflexivity.
  - intros row. apply Euler_advance_frame.
  - destruct (Hstop 1%nat) as (H1 & H2 & _).
    + lia.
    + intros j Hj. assert (j = 0%nat) as -> by lia. reflexivity.
    + reflexivity.
    + exists us, ts', self'. split; [exact Hsolve|].
      split; [exact H1|]. rewrite <- Hlen. exact H1.
Defined.


End TimeLoopFacts.

(** ** The Adams-Bashforth family *)

Module MultistepFacts.

Import Multistep Examples.

(** On a uniform grid [validate_data] returns [True]. *)
Lemma validate_data_uniform (self : attrs) :
  fst (constant_time_step self) = Ok true ->
  validate_data self = (Ok true, snd (constant_time_step self)).
Proof.
  intros H. unfold validate_data. run_M.
  destruct (constant_time_step self) as [[b|e] s]; simpl in *; [|done].
  now inversion H.
Qed.

(** On a grid that is not uniform the message is never printed and
    [False] is never returned: formatting the message raises, unless
    someone has stored a [__name__] on the instance. *)
Lemma validate_data_nonuniform (self : attrs) :
  self !! "__name__" = None ->
  constant_time_step self = (Ok false, self) ->
  validate_data self = (Raise AttributeError, self).
Proof.
  intros Hname H. unfold validate_data. run_M. rewrite H. simpl.
  now rewrite Hname.
Qed.

(** C4 (the code departs from the claim).  On a fresh [AdamsBashforth2]
    instance with the grid [0, 1, 3], [constant_time_step] answers [False]
    and [validate_data] raises [AttributeError] instead of returning
    [False]. *)
Theorem C4_nonuniform_grid_raises :
  fst (constant_time_step AdamsBashforth2_nonuniform) = Ok false
  /\ AdamsBashforth2_nonuniform !! "__name__" = None
  /\ fst (validate_data AdamsBashforth2_nonuniform) = Raise AttributeError.
Proof. repeat split; vm_compute; reflexivity. Qed.

End MultistepFacts.

(** ** Implicit schemes *)

Module ImplicitFacts.

Import Implicit Examples.

Local Open Scope Q_scope.

(** One pass of the loop of [advance]: the next trial value blends the
    value just computed with [u[n]]. *)
Lemma iterate_pass (self : solver) (s : scheme) (un tn dt : Q) (left : nat)
    (error u_new unew : Q) :
  Qle_bool error (eps_iter self) = false ->
  trial self s un tn dt u_new = Ok unew ->
  iterate self s un tn dt (S left) error u_new
  = iterate self s un tn dt left (Qabs (unew - u_new))
      (relaxation self * unew + (1 - relaxation self) * un).
Proof. intros He Ht. simpl. now rewrite He, Ht. Qed.

(** The loop stops as soon as the last update is at most [eps_iter], and
    after [max_iter] passes at the latest; it returns the trial value it
    holds. *)
Lemma iterate_converged (self : solver) (s : scheme) (un tn dt : Q)
    (left : nat) (error u_new : Q) :
  Qle_bool error (eps_iter self) = true ->
  iterate self s un tn dt left error u_new = Ok u_new.
Proof. intros He. destruct left; simpl; [done|]. now rewrite He. Qed.

(** C5 (the code departs from the claim).  Backward Euler for [u' = -u],
    [u[0] = 1], [dt = 1], Picard iteration, relaxation 1/2, one pass.  The
    forward-Euler predictor is 0 and the pass computes 1.  [advance]
    returns [1/2*1 + 1/2*u[n] = 1]; blending with the previous trial
    guess, as the claim has it, gives [1/2*1 + 1/2*0 = 1/2]. *)
Theorem C5_relaxation_blends_with_previous_solution :
  exists code claimed,
    advance damped_Picard BackwardEuler = Ok code
    /\ advance_spec damped_Picard BackwardEuler = Ok claimed
    /\ code == 1 /\ claimed == 1 # 2 /\ ~ code == claimed.
Proof.
  eexists _, _. split; [vm_compute; reflexivity|].
  split; [vm_compute; reflexivity|].
  repeat split; vm_compute; discriminate.
Qed.

(** For the three other schemes [Newton_system] returns the trial guess
    minus the right-hand side of the scheme. *)
Lemma Newton_system_residual (self : solver) (s : scheme) (ukp1 : Q) :
  s <> MidpointImplicit ->
  rbind (Newton_system self s ukp1) (fun FJ => Ok (fst FJ))
  = residual_spec self s ukp1.
Proof.
  intros Hs. unfold residual_spec.
  destruct s as [| |theta|]; [| | |done]; simpl;
    try destruct (n_ self =? 0)%Z; simpl;
    repeat match goal with
           | |- context [rbind ?r _] =>
               match r with
               | t_ _ _ => destruct r; simpl; try reflexivity
               | u_ _ _ => destruct r; simpl; try reflexivity
               end
           end.
Qed.

(** The residual of [MidpointImplicit.Newton_system] differs from the
    residual of the scheme by twice the increment [dt*f(...)]. *)
Lemma Midpoint_residual_gap (self : solver) (ukp1 F J r : Q) :
  Newton_system self MidpointImplicit ukp1 = Ok (F, J) ->
  residual_spec self MidpointImplicit ukp1 = Ok r ->
  exists tn1 tn un,
    t_ self (n_ self + 1) = Ok tn1 /\ t_ self (n_ self) = Ok tn
    /\ u_ self (n_ self) = Ok un
    /\ F - r == 2 * ((tn1 - tn)
                      * f self ((ukp1 + un) / 2) (tn + (tn1 - tn) / 2)).
Proof.
  unfold residual_spec. simpl.
  destruct (t_ self (n_ self + 1)) as [tn1|]; simpl; [|done].
  destruct (t_ self (n_ self)) as [tn|]; simpl; [|done].
  destruct (u_ self (n_ self)) as [un|]; simpl; [|done].
  intros HF Hr. inversion HF; inversion Hr; subst.
  exists tn1, tn, un. repeat split; try reflexivity. ring.
Qed.

(** C6 (the code departs from the claim).  Implicit midpoint for [u' = 1],
    [u[0] = 0], [dt = 1], trial guess 0: the residual of the scheme is
    [0 - (0 + 1*1) = -1], and [Newton_system] returns [F = 0 - 0 + 1*1 = 1]. *)
Theorem C6_midpoint_residual_has_wrong_sign :
  exists F J claimed,
    Newton_system unit_slope MidpointImplicit 0 = Ok (F, J)
    /\ residual_spec unit_slope MidpointImplicit 0 = Ok claimed
    /\ F == 1 /\ claimed == - (1) /\ ~ F == claimed.
Proof.
  eexists _, _, _. split; [vm_compute; reflexivity|].
  split; [vm_compute; reflexivity|].
  repeat split; vm_compute; discriminate.
Qed.

End ImplicitFacts.

(** ** Adaptive step size *)

Module FehlbergFacts.

Import Fehlberg Examples.

Local Open Scope R_scope.

(** [middle] is a clamp when its bounds are in order. *)
Lemma middle_clamp (x y z : R) :
  y <= z -> middle x y z = Rmax y (Rmin x z).
Proof.
  intros Hyz. unfold middle, Rsorted. cbn [foldr Rinsert_sorted].
  destruct (Rle_dec y z) as [_|H]; [|contradiction].
  cbn [Rinsert_sorted].
  unfold Rmax, Rmin.
  destruct (Rle_dec x y); destruct (Rle_dec x z); cbn [Rinsert_sorted nth];
    repeat destruct (Rle_dec _ _); cbn [nth]; lra.
Qed.

Lemma middle_bounds (x y z : R) :
  y <= z -> y <= middle x y z <= z.
Proof.
  intros Hyz. rewrite (middle_clamp x y z Hyz). unfold Rmax, Rmin.
  repeat destruct (Rle_dec _ _); lra.
Qed.

Lemma clamp_factor_bounds (x : R) : 0.1 <= clamp_factor x <= 4.
Proof. apply middle_bounds. lra. Qed.

Lemma fold_Rmin_le (l : list R) (x : R) :
  fold_left Rmin l x <= x /\ Forall (Rle (fold_left Rmin l x)) l.
Proof.
  revert x. induction l as [|y l IH]; intros x; simpl.
  - split; [lra|constructor].
  - destruct (IH (Rmin x y)) as [H1 H2].
    pose proof (Rmin_l x y). pose proof (Rmin_r x y).
    split; [lra|]. constructor; [lra|exact H2].
Qed.

Lemma fold_Rmin_In (l : list R) (x : R) :
  In (fold_left Rmin l x) (x :: l).
Proof.
  revert x. induction l as [|y l IH]; intros x; simpl; [now left|].
  destruct (IH (Rmin x y)) as [H|H]; [|right; right; exact H].
  rewrite <- H. unfold Rmin. destruct (Rle_dec x y); [left|right; left]; done.
Qed.

(** The factor is one of the clamped ratios, and the least of them. *)
Lemma rescale_factor_least (s : solver) (error tol : vec) (sf : R) :
  rescale_factor s error tol = Ok sf ->
  In sf (List.map clamp_factor (rescale_ratios error tol))
  /\ Forall (Rle sf) (List.map clamp_factor (rescale_ratios error tol)).
Proof.
  unfold rescale_factor.
  destruct (bool_decide (1 < neq s)%nat).
  - unfold list_min, array_min.
    destruct (List.map clamp_factor (rescale_ratios error tol)) as [|x l];
      [done|].
    intros H. inversion H; subst. split; [apply fold_Rmin_In|].
    destruct (fold_Rmin_le l x) as [H1 H2]. now constructor.
  - destruct (rescale_ratios error tol) as [|x [|y l]]; try done.
    intros H. inversion H; subst. simpl. split; [now left|].
    constructor; [lra|constructor].
Qed.

Lemma rescale_ratios_floor (error tol : vec) :
  rescale_ratios error tol
  = zip_with (fun tl er => pow025 (tl / (2 * floor_zero er))) tol error.
Proof. unfold rescale_ratios. apply zip_with_fmap_r. Qed.

Lemma floor_zero_0 : floor_zero 0 = 1 / 10 ^ 16.
Proof. unfold floor_zero. destruct (Req_dec_T 0 0); [done|contradiction]. Qed.

Lemma floor_zero_pos (x : R) : x <> 0 -> floor_zero x = x.
Proof. intros H. unfold floor_zero. now destruct (Req_dec_T x 0). Qed.

(** The shape of a pass that returns. *)
Lemma substep_inv (s : solver) (min_step max_step t_next : R) (w w' : work) :
  substep s min_step max_step t_next w = Ok w' ->
  exists u t sf last_t,
    last (uwork w) = Some u /\ last (twork w) = Some t
    /\ twork w' = (if accepted s (snd (stages s u t (h w)))
                        (tolerance s (fst (stages s u t (h w)))) (h w) min_step
                   then twork w ++ [t + h w] else twork w)
    /\ last (twork w') = Some last_t
    /\ rescale_factor s (snd (stages s u t (h w)))
         (tolerance s (fst (stages s u t (h w)))) = Ok sf
    /\ h w' = next_step sf (h w) min_step max_step t_next last_t.
Proof.
  unfold substep.
  destruct (last (uwork w)) as [u|]; [|done].
  destruct (last (twork w)) as [t|]; [|done].
  destruct (stages s u t (h w)) as [un er] eqn:Est. cbn [fst snd].
  destruct (last (if accepted s er (tolerance s un) (h w) min_step
                  then twork w ++ [t + h w] else twork w))
    as [last_t|] eqn:El; [|done].
  destruct (rescale_factor s er (tolerance s un)) as [sf|] eqn:Er; [|done].
  cbn [rbind]. intros [= <-]. cbn [twork h].
  exists u, t, sf, last_t. rewrite Est. cbn [fst snd].
  repeat split; assumption.
Qed.

(** *** A pass with local error 1 and tolerance 2 *)

Lemma spike_off (u : vec) (t : R) : t <> 1 / 2 -> spike u t = [0].
Proof. intros H. unfold spike. now destruct (Req_dec_T t (1 / 2)). Qed.

Lemma spike_on (u : vec) (t : R) : t = 1 / 2 -> spike u t = [55 / 2].
Proof. intros H. unfold spike. now destruct (Req_dec_T t (1 / 2)). Qed.

Ltac eval_spike :=
  repeat match goal with
         | |- context [spike ?u ?t] =>
             first [ rewrite (spike_off u t) by (unfold c; cbn [nth]; lra)
                   | rewrite (spike_on u t) by (unfold c; cbn [nth]; lra) ]
         end.

Lemma spike_stages (t : list R) (fs mn mx : option R) :
  exists x e,
    stages (spike_solver t fs mn mx) [0] 0 1 = ([x], [e]) /\ x = 0 /\ e = 1.
Proof.
  unfold stages. cbv zeta. cbn [f spike_solver]. eval_spike.
  cbn [vscale vmul vadd vabs zip_with List.map].
  eexists _, _. split; [reflexivity|].
  unfold c; cbn [nth]. split; [lra|].
  match goal with |- Rabs ?x = 1 => replace x with 1 by lra end.
  apply Rabs_R1.
Qed.

Lemma middle_inside (x y z : R) : y <= x <= z -> middle x y z = x.
Proof.
  intros [H1 H2]. rewrite middle_clamp by lra. unfold Rmax, Rmin.
  repeat destruct (Rle_dec _ _); lra.
Qed.

Lemma pow025_1 : pow025 1 = 1.
Proof. unfold pow025. now rewrite !sqrt_1. Qed.

Lemma sqrt_4 : sqrt 4 = 2.
Proof. replace 4 with (2 * 2) by lra. apply sqrt_square. lra. Qed.

Lemma pow025_2_bounds : 1 < pow025 2 < 2.
Proof.
  unfold pow025.
  assert (H1 : 1 < sqrt 2).
  { rewrite <- sqrt_1 at 1. apply sqrt_lt_1_alt. lra. }
  assert (H2 : sqrt 2 < 2).
  { rewrite <- sqrt_4 at 2. apply sqrt_lt_1_alt. lra. }
  split.
  - rewrite <- sqrt_1 at 1. apply sqrt_lt_1_alt. lra.
  - rewrite <- sqrt_4 at 2. apply sqrt_lt_1_alt. lra.
Qed.

(** The pass from [t = 0] with [h = 1]: the local error is 1, the
    tolerance 2, the pass is accepted, and the factor the code forms is
    [(2/(2*1))**0.25 = 1]. *)
Lemma spike_pass (t : list R) (fs mn mx : option R)
    (min_step max_step t_next : R) :
  let s := spike_solver t fs mn mx in
  substep s min_step max_step t_next first_pass
  = Ok {| uwork := [[0]; fst (stages s [0] 0 1)];
          twork := [0; 0 + 1];
          h := next_step 1 1 min_step max_step t_next (0 + 1);
          u_new := Some (fst (stages s [0] 0 1));
          t_cur := 0 |}
  /\ snd (stages s [0] 0 1) = [1]
  /\ tolerance s (fst (stages s [0] 0 1)) = [2].
Proof.
  cbv zeta. set (s := spike_solver t fs mn mx).
  destruct (spike_stages t fs mn mx) as (x & e & Hst & -> & ->).
  fold s in Hst.
  unfold substep. cbn [uwork twork h first_pass last].
  rewrite Hst. cbn [fst snd].
  assert (Htol : tolerance s [0] = [2]).
  { unfold tolerance. cbn [vabs List.map rtol atol s spike_solver].
    f_equal. lra. }
  rewrite Htol.
  assert (Hacc : accepted s [1] [2] 1 min_step = true).
  { unfold accepted. apply bool_decide_eq_true. left.
    cbn [zip_with vsum fold_right neq s spike_solver INR].
    apply Rle_trans with (sqrt 1); [apply sqrt_le_1_alt; lra|].
    rewrite sqrt_1. lra. }
  rewrite Hacc. cbn [app last].
  assert (Hsf : rescale_factor s [1] [2] = Ok 1).
  { unfold rescale_factor, rescale_ratios.
    cbn [neq s spike_solver List.map zip_with].
    rewrite bool_decide_eq_false_2 by lia.
    rewrite floor_zero_pos by lra.
    replace (2 / (2 * 1)) with 1 by lra. rewrite pow025_1.
    unfold clamp_factor. rewrite middle_inside by lra. reflexivity. }
  rewrite Hsf. cbn [rbind]. done.
Qed.

(** C7 as stated fails.  Take the instance on the grid [0, 10] with
    [first_step = 1], [min_step = 0.001] and [max_step = 2].  In the first
    pass of [advance] the local error is 1 and the tolerance 2.  The code
    leaves [h = 1], the old [h] times [(2/(2*1))^(1/4) = 1]; rescaling by
    [(tolerance/error)^(1/4)], as the claim has it, would leave
    [h = 2^(1/4)]. *)
Lemma C7_counterexample_rescale_factor :
  let s := RKFehlberg_spike_wide in
  exists w' last_t,
    step_sizes s (10 - 0) = (1 / 1000, 2, 1)
    /\ substep s (1 / 1000) 2 10 first_pass = Ok w'
    /\ snd (stages s [0] 0 1) = [1]
    /\ tolerance s (fst (stages s [0] 0 1)) = [2]
    /\ last (twork w') = Some last_t
    /\ h w' = 1
    /\ h w' <> next_step (rescale_factor_spec 1 2) (h first_pass)
                 (1 / 1000) 2 10 last_t.
Proof.
  cbv zeta.
  destruct (spike_pass [0; 10] (Some 1) (Some (1 / 1000)) (Some 2)
              (1 / 1000) 2 10) as (Hsub & Herr & Htol).
  eexists _, (0 + 1). split; [reflexivity|]. split; [exact Hsub|].
  split; [exact Herr|].
  split; [exact Htol|]. split; [reflexivity|]. cbn [h first_pass].
  assert (Hcode : next_step 1 1 (1 / 1000) 2 10 (0 + 1) = 1).
  { unfold next_step. rewrite middle_inside by lra.
    unfold Rmin. destruct (Rle_dec _ _); lra. }
  split; [exact Hcode|]. rewrite Hcode.
  pose proof pow025_2_bounds as Hp.
  unfold rescale_factor_spec, next_step.
  rewrite floor_zero_pos by lra. replace (2 / 1) with 2 by lra.
  unfold clamp_factor. rewrite (middle_inside (pow025 2)) by lra.
  rewrite middle_inside by lra.
  unfold Rmin. destruct (Rle_dec _ _); lra.
Qed.

(** C7, as the code has it.  Every pass of the loop that returns, whether
    it accepted its substep or not, ends by rescaling [h]: the factor is
    the least of the ratios [(tol/(2*error))^(1/4)], one per component,
    each clamped into [0.1, 4.0], where a component of [error] that is
    exactly zero counts as [1e-16]; [h] times that factor is passed
    through [middle] with [min_step] and [max_step], which clamps it into
    [min_step, max_step] when these are in order; and the result is cut
    down to [t_next - twork[-1]]. *)
Theorem C7_substep_rescales (s : solver) (min_step max_step t_next : R)
    (w w' : work) :
  substep s min_step max_step t_next w = Ok w' ->
  exists u t error tol sf last_t,
    last (uwork w) = Some u /\ last (twork w) = Some t
    /\ error = snd (stages s u t (h w))
    /\ tol = tolerance s (fst (stages s u t (h w)))
    /\ (twork w' = twork w ++ [t + h w] \/ twork w' = twork w)
    /\ last (twork w') = Some last_t
    /\ rescale_ratios error tol
       = zip_with (fun tl er => pow025 (tl / (2 * floor_zero er))) tol error
    /\ floor_zero 0 = 1 / 10 ^ 16
    /\ (forall x, x <> 0 -> floor_zero x = x)
    /\ In sf (List.map clamp_factor (rescale_ratios error tol))
    /\ Forall (Rle sf) (List.map clamp_factor (rescale_ratios error tol))
    /\ 0.1 <= sf <= 4
    /\ h w' = Rmin (middle (h w * sf) min_step max_step) (t_next - last_t)
    /\ h w' <= t_next - last_t
    /\ (min_step <= max_step ->
        min_step <= middle (h w * sf) min_step max_step <= max_step).
Proof.
  intros H.
  destruct (substep_inv s min_step max_step t_next w w' H)
    as (u & t & sf & last_t & Hu & Ht & Htw & Hl & Hsf & Hh).
  exists u, t, (snd (stages s u t (h w))),
         (tolerance s (fst (stages s u t (h w)))), sf, last_t.
  destruct (rescale_factor_least _ _ _ _ Hsf) as [Hin Hleast].
  repeat (split; [first [assumption | reflexivity]|]).
  split. { rewrite Htw. destruct (accepted _ _ _ _ _); [now left|now right]. }
  split; [exact Hl|]. split; [apply rescale_ratios_floor|].
  split; [apply floor_zero_0|]. split; [apply floor_zero_pos|].
  split; [exact Hin|]. split; [exact Hleast|].
  split.
  { apply in_map_iff in Hin as (x & <- & _). apply clamp_factor_bounds. }
  split; [exact Hh|]. split.
  - rewrite Hh. unfold next_step. apply Rmin_r.
  - intros Hmm. now apply middle_bounds.
Qed.

(** The theorem at the pass above. *)
Lemma C7_substep_rescales_witness :
  exists w' sf last_t,
    substep RKFehlberg_spike_wide (1 / 1000) 2 10 first_pass = Ok w'
    /\ 0.1 <= sf <= 4
    /\ h w' = Rmin (middle (h first_pass * sf) (1 / 1000) 2) (10 - last_t).
Proof.
  destruct (spike_pass [0; 10] (Some 1) (Some (1 / 1000)) (Some 2)
              (1 / 1000) 2 10) as (Hsub & _ & _).
  destruct (C7_substep_rescales RKFehlberg_spike_wide (1 / 1000) 2 10
              first_pass _ Hsub)
    as (u & t & error & tol & sf & last_t & _ & _ & _ & _ & _ & _ & _ & _ & _
        & _ & _ & Hb & Hh & _).
  eexists _, sf, last_t. split; [exact Hsub|]. split; [exact Hb|exact Hh].
Defined.

(** *** Defaults of the step sizes *)








End FehlbergFacts.

(* ===================================================================== *)
(** * Further properties of the code *)
(* ===================================================================== *)

(** ** [set], [get] and the constructor *)

Module ConfigMore.

Import Config Examples.

Lemma kw_get_None (name : string) (kwargs : kwargs_t) :
  kw_get name kwargs = None <-> ~ In name (List.map fst kwargs).
Proof.
  unfold kw_get. induction kwargs as [|[k v] kwargs IH]; simpl; [tauto|].
  destruct (String.eqb name k) eqn:E; simpl.
  - apply String.eqb_eq in E. subst. split; [done|]. intros H. exfalso. auto.
  - apply String.eqb_neq in E. rewrite IH. split.
    + intros H [H1|H1]; [congruence|contradiction].
    + intros H H1. apply H. now right.
Qed.

Lemma kw_get_kw_del_ne (name k : string) (kwargs : kwargs_t) :
  name <> k -> kw_get name (kw_del k kwargs) = kw_get name kwargs.
Proof.
  intros Hne. unfold kw_get, kw_del.
  induction kwargs as [|[k' w] kwargs IH]; simpl; [done|].
  destruct (String.eqb k k') eqn:Ek; simpl.
  - apply String.eqb_eq in Ek. subst.
    apply String.eqb_neq in Hne. rewrite Hne. exact IH.
  - destruct (String.eqb name k'); [done|exact IH].
Qed.

Lemma kw_del_keys (k : string) (kwargs : kwargs_t) :
  NoDup (List.map fst kwargs) -> NoDup (List.map fst (kw_del k kwargs)).
Proof.
  unfold kw_del. induction kwargs as [|[k' w] kwargs IH]; simpl; [done|].
  intros H. apply NoDup_cons in H as [Hn Hd].
  destruct (String.eqb k k'); simpl; [now apply IH|].
  apply NoDup_cons. split; [|now apply IH].
  rewrite list_elem_of_In in Hn |- *. intros Hin. apply Hn.
  apply in_map_iff in Hin as ([k2 w2] & <- & Hin).
  apply filter_In in Hin as [Hin _]. apply in_map_iff. now exists (k2, w2).
Qed.

(** The commit loop stores every pair and touches nothing else. *)
Lemma commit_lookup (kwargs : kwargs_t) :
  forall (self : attrs) (name : string),
    NoDup (List.map fst kwargs) ->
    fst (commit kwargs self) = Ok tt
    /\ snd (commit kwargs self) !! name
       = match kw_get name kwargs with
         | Some v => Some v
         | None => self !! name
         end.
Proof.
  induction kwargs as [|[k v] kwargs IH]; intros self name Hd; [done|].
  simpl in Hd. apply NoDup_cons in Hd as [Hn Hd].
  cbn [commit]. run_M.
  destruct (IH (<[k := v]> self) name Hd) as [H1 H2].
  split; [exact H1|]. rewrite H2. unfold kw_get at 2. simpl.
  destruct (String.eqb name k) eqn:E; simpl.
  - apply String.eqb_eq in E. subst.
    assert (Hk : kw_get k kwargs = None).
    { apply kw_get_None. now rewrite <- list_elem_of_In. }
    rewrite Hk. apply lookup_insert_eq.
  - apply String.eqb_neq in E. fold (kw_get name kwargs).
    destruct (kw_get name kwargs); [done|]. now rewrite lookup_insert_ne.
Qed.

Lemma kw_get_is_Some (name : string) (kwargs : kwargs_t) :
  name ∈ List.map fst kwargs <-> is_Some (kw_get name kwargs).
Proof.
  rewrite list_elem_of_In. destruct (kw_get name kwargs) eqn:E.
  - split; [eauto|]. intros _.
    destruct (decide (name ∈ List.map fst kwargs)) as [H|H];
      [now apply list_elem_of_In|].
    rewrite list_elem_of_In in H.
    apply kw_get_None in H. congruence.
  - apply kw_get_None in E. split; [contradiction|]. intros [x Hx]. done.
Qed.

Section Facts.

Variable f2py_compile : string -> option (string -> option pyval).
Variable py_str : pyval -> string.
Variable parameters : registry.

Lemma set_names_effect (strict : bool) (names : list string) :
  forall (kwargs kwargs' : kwargs_t) (self self' : attrs),
    NoDup names ->
    (forall n, n ∈ names -> is_Some (kw_get n kwargs)) ->
    NoDup (List.map fst kwargs) ->
    set_names parameters strict names kwargs self = (Ok kwargs', self') ->
    NoDup (List.map fst kwargs')
    /\ forall name,
         kw_get name kwargs'
         = (if bool_decide (name ∈ names) && SetNames.dropped parameters kwargs name
            then None else kw_get name kwargs)
         /\ self' !! name
            = (if bool_decide (name ∈ names) && SetNames.removed parameters kwargs name
               then None else self !! name).
Proof.
  induction names as [|n rest IH];
    intros kwargs kwargs' self self' Hnd Hin Hkd H.
  - simpl in H. inversion H; subst. split; [exact Hkd|]. intros name.
    rewrite bool_decide_eq_false_2 by apply not_elem_of_nil. done.
  - apply NoDup_cons in Hnd as [Hn Hnd].
    assert (Hrest : forall k, k <> n ->
              bool_decide (k ∈ n :: rest) = bool_decide (k ∈ rest)).
    { intros k Hk. apply bool_decide_ext. rewrite elem_of_cons. tauto. }
    assert (Hhead : bool_decide (n ∈ n :: rest) = true).
    { apply bool_decide_eq_true. apply elem_of_cons. now left. }
    assert (Hnr : bool_decide (n ∈ rest) = false).
    { now apply bool_decide_eq_false. }
    assert (Hin' : forall k, k ∈ rest -> is_Some (kw_get k (kw_del n kwargs))).
    { intros k Hk. rewrite kw_get_kw_del_ne by (intros ->; contradiction).
      apply Hin. apply elem_of_cons. now right. }
    cbn [set_names] in H.
    destruct (reg_has n parameters) eqn:Hleg; cbn [negb] in H.
    + destruct (kw_get n kwargs) as [v|] eqn:Ev; [|done].
      assert (Hcase : (v = VNone /\
                 set_names parameters strict rest (kw_del n kwargs)
                   (delete n self) = (Ok kwargs', self'))
              \/ (v <> VNone /\
                 set_names parameters strict rest kwargs self
                   = (Ok kwargs', self'))).
      { destruct v; try (right; split; [done|exact H]).
        left. split; [done|]. run_M. simpl in H.
        destruct (bool_decide (is_Some (self !! n))) eqn:Eh; [exact H|].
        apply bool_decide_eq_false in Eh.
        assert (Hnone : self !! n = None).
        { destruct (self !! n); [exfalso; apply Eh; eauto|done]. }
        rewrite (delete_id self n Hnone). exact H. }
      destruct Hcase as [[-> H']|[Hv H']].
      * destruct (IH _ _ _ _ Hnd Hin' (kw_del_keys n _ Hkd) H') as [Hd' Hall].
        split; [exact Hd'|]. intros name. destruct (Hall name) as [H1 H2].
        destruct (decide (name = n)) as [->|Hne].
        -- rewrite H1, H2, Hhead, Hnr. unfold SetNames.dropped, SetNames.removed.
           rewrite Hleg, Ev. simpl. split.
           ++ apply ConfigFacts.kw_get_kw_del_same.
           ++ apply lookup_delete_eq.
        -- rewrite H1, H2, (Hrest name Hne).
           unfold SetNames.dropped, SetNames.removed.
           rewrite !kw_get_kw_del_ne by done.
           now rewrite lookup_delete_ne by done.
      * assert (Hin2 : forall k, k ∈ rest -> is_Some (kw_get k kwargs)).
        { intros k Hk. apply Hin. apply elem_of_cons. now right. }
        destruct (IH _ _ _ _ Hnd Hin2 Hkd H') as [Hd' Hall].
        split; [exact Hd'|]. intros name. destruct (Hall name) as [H1 H2].
        destruct (decide (name = n)) as [->|Hne].
        -- rewrite H1, H2, Hhead, Hnr.
           unfold SetNames.dropped, SetNames.removed.
           rewrite Hleg, Ev. simpl. now destruct v.
        -- now rewrite H1, H2, (Hrest name Hne).
    + destruct strict; [done|].
      destruct (IH _ _ _ _ Hnd Hin' (kw_del_keys n _ Hkd) H) as [Hd' Hall].
      split; [exact Hd'|]. intros name. destruct (Hall name) as [H1 H2].
      destruct (decide (name = n)) as [->|Hne].
      * rewrite H1, H2, Hhead, Hnr.
        unfold SetNames.dropped, SetNames.removed.
        rewrite Hleg. simpl. split; [apply ConfigFacts.kw_get_kw_del_same|done].
      * rewrite H1, H2, (Hrest name Hne).
        unfold SetNames.dropped, SetNames.removed.
        now rewrite !kw_get_kw_del_ne by done.
Qed.

(** What a [set] that returns has done to each attribute. *)
Lemma set_effect (strict : bool) (kwargs : kwargs_t) (self self' : attrs) :
  NoDup (List.map fst kwargs) ->
  List.filter is_string_function kwargs = [] ->
  set f2py_compile py_str parameters strict kwargs self = (Ok tt, self') ->
  forall name,
    self' !! name
    = match kw_get name kwargs with
      | Some v =>
          if reg_has name parameters
          then (if is_None v then None else Some v)
          else self !! name
      | None => self !! name
      end.
Proof.
  intros Hd Hs H name. unfold set, compile_string_functions in H.
  rewrite Hs in H. simpl in H. run_M. simpl in H.
  destruct (set_names parameters strict (List.map fst kwargs) kwargs self)
    as [[kw|e1] s1] eqn:En; [|done].
  destruct (set_names_effect strict _ _ _ _ _ Hd
              (fun n Hn => proj1 (kw_get_is_Some n kwargs) Hn) Hd En)
    as [Hd' Hall].
  destruct (check_input_types parameters kw); [|done].
  destruct (check_input_range parameters kw); [|done].
  destruct (check_extra parameters kw); [|done].
  destruct (commit_lookup kw s1 name Hd') as [Hc1 Hc2].
  destruct (commit kw s1) as [[[]|e2] s2]; simpl in Hc1, Hc2; [|done].
  unfold check_conditional_parameters in H.
  destruct (check_conditional_loop py_str s2 _); [|done].
  inversion H; subst s2. rewrite Hc2.
  destruct (Hall name) as [H1 H2]. rewrite H1, H2.
  unfold SetNames.dropped, SetNames.removed.
  destruct (kw_get name kwargs) as [v|] eqn:Ev.
  - rewrite bool_decide_eq_true_2
      by (apply kw_get_is_Some; rewrite Ev; eauto).
    destruct (reg_has name parameters); simpl; [|done]. now destruct v.
  - rewrite bool_decide_eq_false_2; [done|].
    intros Hin. apply kw_get_is_Some in Hin. rewrite Ev in Hin.
    now destruct Hin.
Qed.

(** X1. A call of [set] that returns has stored every supplied value of a
    registered name, so that [get] returns it; has removed every
    registered name supplied as [None], so that [get] raises
    [AttributeError]; and has left every other attribute, the
    unregistered names among the arguments included, as it was. *)
Theorem set_then_get (strict : bool) (kwargs : kwargs_t)
    (self self' : attrs) :
  NoDup (List.map fst kwargs) ->
  List.filter is_string_function kwargs = [] ->
  set f2py_compile py_str parameters strict kwargs self = (Ok tt, self') ->
  forall name,
    (forall v, kw_get name kwargs = Some v ->
               reg_has name parameters = true -> v <> VNone ->
               get name self' = (Ok v, self'))
    /\ (kw_get name kwargs = Some VNone ->
        reg_has name parameters = true ->
        get name self' = (Raise AttributeError, self'))
    /\ (kw_get name kwargs = None \/ reg_has name parameters = false ->
        self' !! name = self !! name).
Proof.
  intros Hd Hs H name.
  pose proof (set_effect strict kwargs self self' Hd Hs H name) as He.
  repeat split.
  - intros v Hv Hleg Hne. unfold get. rewrite He, Hv, Hleg.
    now destruct v.
  - intros Hv Hleg. unfold get. now rewrite He, Hv, Hleg.
  - intros [Hv|Hleg]; rewrite He.
    + now rewrite Hv.
    + rewrite Hleg. now destruct (kw_get name kwargs).
Qed.




End Facts.

Lemma reg_get_None (name : string) (p : registry) :
  ~ In name (List.map fst p) -> reg_get name p = None.
Proof.
  unfold reg_get. induction p as [|[k sp] p IH]; simpl; [done|].
  intros H. destruct (String.eqb name k) eqn:E.
  - apply String.eqb_eq in E. subst. exfalso. auto.
  - apply IH. intros H1. apply H. now right.
Qed.

(** The loop of [__init__] over the registry: every registered default is
    an attribute afterwards. *)
Lemma set_defaults_lookup (p : registry) :
  forall (self : attrs) (name : string),
    NoDup (List.map fst p) ->
    set_defaults p self !! name
    = match reg_get name p with
      | Some sp => match Registry.default sp with
                   | Some d => Some d
                   | None => self !! name
                   end
      | None => self !! name
      end.
Proof.
  unfold set_defaults.
  induction p as [|[k sp] p IH]; intros self name Hd; simpl; [done|].
  apply NoDup_cons in Hd as [Hn Hd]. rewrite IH by exact Hd.
  unfold reg_get at 2. simpl. destruct (String.eqb name k) eqn:E; simpl.
  - apply String.eqb_eq in E. subst k.
    rewrite reg_get_None by now rewrite <- list_elem_of_In.
    destruct (Registry.default sp); [apply lookup_insert_eq|done].
  - apply String.eqb_neq in E. fold (reg_get name p).
    destruct (reg_get name p) as [sp'|].
    + destruct (Registry.default sp'); [done|].
      destruct (Registry.default sp); [now apply lookup_insert_ne|done].
    + destruct (Registry.default sp); [now apply lookup_insert_ne|done].
Qed.

Lemma filter_keys_NoDup (P : string * pyval -> bool) (kwargs : kwargs_t) :
  NoDup (List.map fst kwargs) -> NoDup (List.map fst (List.filter P kwargs)).
Proof.
  induction kwargs as [|[k w] kwargs IH]; simpl; [done|].
  intros H. apply NoDup_cons in H as [Hn Hd].
  destruct (P (k, w)); simpl; [|now apply IH].
  apply NoDup_cons. split; [|now apply IH].
  rewrite list_elem_of_In in Hn |- *. intros Hin. apply Hn.
  apply in_map_iff in Hin as ([k2 w2] & <- & Hin).
  apply filter_In in Hin as [Hin _]. apply in_map_iff. now exists (k2, w2).
Qed.

Lemma filter_filter_nil (P R : string * pyval -> bool) (kwargs : kwargs_t) :
  List.filter P kwargs = [] -> List.filter P (List.filter R kwargs) = [].
Proof.
  induction kwargs as [|e kwargs IH]; simpl; [done|].
  destruct (P e) eqn:EP; [done|]. intros H.
  destruct (R e); simpl; [rewrite EP|]; now apply IH.
Qed.

(** Dropping the [None] entries of the keyword arguments. *)
Lemma kw_get_not_None (name : string) (kwargs : kwargs_t) :
  NoDup (List.map fst kwargs) ->
  kw_get name (List.filter (fun e => negb (is_None (snd e))) kwargs)
  = match kw_get name kwargs with
    | Some v => if is_None v then None else Some v
    | None => None
    end.
Proof.
  induction kwargs as [|[k w] kwargs IH]; simpl; [done|].
  intros H. apply NoDup_cons in H as [Hn Hd]. specialize (IH Hd).
  unfold kw_get at 2. simpl.
  destruct (String.eqb name k) eqn:E; simpl.
  - apply String.eqb_eq in E. subst k.
    destruct (is_None w) eqn:Ew; simpl.
    + apply kw_get_None. intros Hin. apply Hn. apply list_elem_of_In.
      apply in_map_iff in Hin as ([k2 w2] & <- & Hin).
      apply filter_In in Hin as [Hin _]. apply in_map_iff. now exists (k2, w2).
    + unfold kw_get. simpl. now rewrite String.eqb_refl.
  - fold (kw_get name kwargs). rewrite <- IH.
    destruct (is_None w); simpl; [done|].
    unfold kw_get. simpl. now rewrite E.
Qed.

Section InitFacts.

Variable f2py_compile : string -> option (string -> option pyval).
Variable py_str : pyval -> string.
Variable parameters : registry.

(** Every attribute of a freshly constructed solver but [f] and
    [users_f]. *)
Lemma init_lookup (f : pyval) (kwargs : kwargs_t) (self' : attrs) :
  NoDup (List.map fst parameters) ->
  NoDup (List.map fst kwargs) ->
  List.filter is_string_function kwargs = [] ->
  init f2py_compile py_str parameters f kwargs ∅ = (Ok tt, self') ->
  forall name, name <> "f" -> name <> "users_f" ->
    self' !! name
    = match reg_get name parameters with
      | Some sp =>
          match kw_get name kwargs with
          | Some v => if is_None v then Registry.default sp else Some v
          | None => Registry.default sp
          end
      | None => None
      end.
Proof.
  intros Hp Hd Hs H. unfold init in H. run_M. simpl in H.
  destruct (set f2py_compile py_str parameters false
              (List.filter (fun e => negb (is_None (snd e))) kwargs)
              (set_defaults parameters ∅)) as [[[]|e] s1] eqn:Eset; [|done].
  pose proof (set_effect f2py_compile py_str parameters false _ _ _
                (filter_keys_NoDup _ _ Hd)
                (filter_filter_nil _ _ _ Hs) Eset) as He.
  assert (Hfresh : forall name,
    s1 !! name
    = match reg_get name parameters with
      | Some sp =>
          match kw_get name kwargs with
          | Some v => if is_None v then Registry.default sp else Some v
          | None => Registry.default sp
          end
      | None => None
      end).
  { intros name. rewrite He, (kw_get_not_None name kwargs Hd).
    rewrite set_defaults_lookup by exact Hp. unfold reg_has.
    rewrite lookup_empty.
    destruct (reg_get name parameters) as [sp|] eqn:Er.
    - rewrite bool_decide_eq_true_2 by eauto.
      destruct (kw_get name kwargs) as [v|].
      + destruct (is_None v) eqn:Ev.
        * now destruct (Registry.default sp).
        * now rewrite Ev.
      + now destruct (Registry.default sp).
    - destruct (kw_get name kwargs) as [v|]; [|done].
      destruct (is_None v); [done|].
      rewrite bool_decide_eq_false_2; [done|]. now intros [x Hx]. }
  destruct (is_None f) eqn:Ef.
  - inversion H; subst s1. intros; apply Hfresh.
  - destruct (callable f) eqn:Ec; [|done]. simpl in H.
    inversion H; subst self'. intros name H1 H2.
    rewrite lookup_insert_ne by congruence.
    rewrite lookup_insert_ne by congruence. apply Hfresh.
Qed.

(** X3. The instance dictionary of a freshly constructed solver, for a
    class with the constructor and the [initialize] of [Solver] and a
    right-hand side given as a Python function.  When [Cls(f, **kwargs)]
    returns, every parameter of the class holds the supplied value if one
    other than [None] was supplied and its registered default otherwise
    (no entry at all when the registry gives no default); the dictionary
    has no entry for a name that is no parameter of the class, the three
    names [_parameters], [f] and [users_f] apart, which the constructor
    binds itself; and a right-hand side [f] that is not [None] is
    callable and is kept under [users_f]. *)
Theorem init_attributes (f : pyval) (kwargs : kwargs_t) (self' : attrs) :
  NoDup (List.map fst parameters) ->
  NoDup (List.map fst kwargs) ->
  List.filter is_string_function kwargs = [] ->
  init f2py_compile py_str parameters f kwargs ∅ = (Ok tt, self') ->
  (forall name,
     name <> "_parameters" -> name <> "f" -> name <> "users_f" ->
     self' !! name
     = match reg_get name parameters with
       | Some sp =>
           match kw_get name kwargs with
           | Some v => if is_None v then Registry.default sp else Some v
           | None => Registry.default sp
           end
       | None => None
       end)
  /\ (is_None f = false -> callable f = true /\ self' !! "users_f" = Some f).
Proof.
  intros Hp Hd Hs H. split.
  { intros name _. now apply (init_lookup f kwargs). }
  intros Hf. unfold init in H. run_M. simpl in H.
  destruct (set f2py_compile py_str parameters false _ _) as [[[]|e] s1];
    [|done].
  rewrite Hf in H. destruct (callable f); [|done]. simpl in H.
  inversion H; subst self'. split; [done|].
  rewrite lookup_insert_ne by done. apply lookup_insert_eq.
Qed.

End InitFacts.

Lemma run_of_fst {A : Type} (m : M A) (self : attrs) (r : result A) :
  fst (m self) = r -> m self = (r, snd (m self)).
Proof. destruct (m self). simpl. now intros ->. Qed.

(** The theorem at a fresh [BackwardEuler] instance and the call
    [set(max_iter=10, relaxation=None, verbose=1)], of which [verbose] is
    no parameter of the class. *)
Lemma set_then_get_witness :
  let self := construct BackwardEuler_parameters in
  let kwargs :=
    [("max_iter", VInt 10); ("relaxation", VNone); ("verbose", VInt 1)] in
  let self' :=
    snd (set no_f2py str_of BackwardEuler_parameters false kwargs self) in
  get "max_iter" self' = (Ok (VInt 10), self')
  /\ get "relaxation" self' = (Raise AttributeError, self')
  /\ self' !! "verbose" = self !! "verbose".
Proof.
  cbv zeta.
  assert (Hrun : set no_f2py str_of BackwardEuler_parameters false
                   [("max_iter", VInt 10); ("relaxation", VNone);
                    ("verbose", VInt 1)]
                   (construct BackwardEuler_parameters)
                 = (Ok tt,
                    snd (set no_f2py str_of BackwardEuler_parameters false
                           [("max_iter", VInt 10); ("relaxation", VNone);
                            ("verbose", VInt 1)]
                           (construct BackwardEuler_parameters)))).
  { apply run_of_fst. vm_compute. reflexivity. }
  assert (Hd : NoDup (List.map fst
                 [("max_iter", VInt 10); ("relaxation", VNone);
                  ("verbose", VInt 1)])).
  { apply (bool_decide_unpack _). vm_compute. reflexivity. }
  split; [|split].
  - apply (proj1 (set_then_get no_f2py str_of BackwardEuler_parameters false
                    _ _ _ Hd eq_refl Hrun "max_iter") (VInt 10));
      [reflexivity|vm_compute; reflexivity|discriminate].
  - apply (proj1 (proj2 (set_then_get no_f2py str_of BackwardEuler_parameters
                           false _ _ _ Hd eq_refl Hrun "relaxation")));
      [reflexivity|vm_compute; reflexivity].
  - apply (proj2 (proj2 (set_then_get no_f2py str_of BackwardEuler_parameters
                           false _ _ _ Hd eq_refl Hrun "verbose"))).
    right. vm_compute. reflexivity.
Defined.


(** The theorem at [BackwardEuler(f, max_iter=10, relaxation=None)]:
    [max_iter] holds 10, [relaxation] holds its default 1.0, and [theta],
    a parameter of another class, is no attribute. *)
Lemma init_attributes_witness :
  let self' :=
    snd (init no_f2py str_of BackwardEuler_parameters (VCallable "f")
           [("max_iter", VInt 10); ("relaxation", VNone)] ∅) in
  self' !! "max_iter" = Some (VInt 10)
  /\ self' !! "relaxation" = Some (VFloat 1)
  /\ self' !! "theta" = None
  /\ self' !! "users_f" = Some (VCallable "f").
Proof.
  cbv zeta.
  assert (Hrun : init no_f2py str_of BackwardEuler_parameters (VCallable "f")
                   [("max_iter", VInt 10); ("relaxation", VNone)] ∅
                 = (Ok tt,
                    snd (init no_f2py str_of BackwardEuler_parameters
                           (VCallable "f")
                           [("max_iter", VInt 10); ("relaxation", VNone)] ∅))).
  { apply run_of_fst. vm_compute. reflexivity. }
  assert (Hp : NoDup (List.map fst BackwardEuler_parameters)).
  { apply (bool_decide_unpack _). vm_compute. reflexivity. }
  assert (Hd : NoDup (List.map fst
                 [("max_iter", VInt 10); ("relaxation", VNone)])).
  { apply (bool_decide_unpack _). vm_compute. reflexivity. }
  destruct (init_attributes no_f2py str_of BackwardEuler_parameters
              (VCallable "f") _ _ Hp Hd eq_refl Hrun) as [Hall Hf].
  split; [|split; [|split]].
  - rewrite Hall by discriminate. vm_compute. reflexivity.
  - rewrite Hall by discriminate. vm_compute. reflexivity.
  - rewrite Hall by discriminate. vm_compute. reflexivity.
  - apply Hf. reflexivity.
Defined.

End ConfigMore.

(* ===================================================================== *)
(** ** [switch_to] *)
(* ===================================================================== *)

Module SwitchFacts.

Import Config TimeLoop Switch Examples.

Lemma kw_get_kw_set (name k : string) (v : pyval) (d : kwargs_t) :
  kw_get name (kw_set k v d)
  = if String.eqb name k then Some v else kw_get name d.
Proof.
  unfold kw_get. induction d as [|[k' w] d IH]; simpl.
  - now destruct (String.eqb name k).
  - destruct (String.eqb k k') eqn:Ek; simpl.
    + apply String.eqb_eq in Ek. subst k'.
      now destruct (String.eqb name k).
    + destruct (String.eqb name k') eqn:En; simpl; [|exact IH].
      apply String.eqb_eq in En. subst k'.
      now rewrite String.eqb_sym, Ek.
Qed.

Lemma kw_set_keys (k : string) (v : pyval) (d : kwargs_t) :
  NoDup (List.map fst d) -> NoDup (List.map fst (kw_set k v d)).
Proof.
  induction d as [|[k' w] d IH]; simpl.
  - intros _. apply NoDup_singleton.
  - intros H. apply NoDup_cons in H as [Hn Hd].
    destruct (String.eqb k k') eqn:Ek; simpl.
    + apply NoDup_cons. now split.
    + apply NoDup_cons. split; [|now apply IH].
      intros Hin. apply ConfigMore.kw_get_is_Some in Hin.
      rewrite kw_get_kw_set, String.eqb_sym, Ek in Hin.
      now apply ConfigMore.kw_get_is_Some in Hin.
Qed.

Lemma kw_update_keys (kwargs : kwargs_t) :
  forall d, NoDup (List.map fst d) ->
            NoDup (List.map fst (kw_update d kwargs)).
Proof.
  unfold kw_update. induction kwargs as [|[k v] kwargs IH]; simpl; [done|].
  intros d Hd. apply IH. now apply kw_set_keys.
Qed.

(** [args_dict.update(kwargs)]: the values of [kwargs] win. *)
Lemma kw_get_kw_update (name : string) (kwargs : kwargs_t) :
  forall d,
    NoDup (List.map fst kwargs) ->
    kw_get name (kw_update d kwargs)
    = match kw_get name kwargs with
      | Some v => Some v
      | None => kw_get name d
      end.
Proof.
  unfold kw_update. induction kwargs as [|[k v] kwargs IH]; simpl; [done|].
  intros d H. apply NoDup_cons in H as [Hn Hd]. rewrite IH by exact Hd.
  rewrite kw_get_kw_set. unfold kw_get at 3. simpl.
  destruct (String.eqb name k) eqn:E; simpl; [|done].
  apply String.eqb_eq in E. subst k.
  assert (Hnone : kw_get name kwargs = None).
  { apply ConfigMore.kw_get_None. now rewrite <- list_elem_of_In. }
  now rewrite Hnone.
Qed.

(** The dictionary comprehension that reads the common attributes. *)
Lemma kw_get_read (self : attrs) (name : string) (names : list string) :
  kw_get name (omap (fun n => (fun v => (n, v)) <$> self !! n) names)
  = if bool_decide (name ∈ names) then self !! name else None.
Proof.
  unfold omap. induction names as [|n names IH].
  - now rewrite bool_decide_eq_false_2 by apply not_elem_of_nil.
  - cbn [list_omap]. destruct (decide (name = n)) as [->|Hne].
    + rewrite bool_decide_eq_true_2 by (apply elem_of_cons; now left).
      destruct (self !! n) as [v|] eqn:Ev; cbn [fmap option_fmap option_map].
      * unfold kw_get. simpl. now rewrite String.eqb_refl.
      * rewrite IH. now destruct (bool_decide (n ∈ names)).
    + assert (Hb : bool_decide (name ∈ n :: names)
                   = bool_decide (name ∈ names)).
      { apply bool_decide_ext. rewrite elem_of_cons. tauto. }
      rewrite Hb, <- IH.
      destruct (self !! n) as [v|]; cbn [fmap option_fmap option_map];
        [|done].
      unfold kw_get. simpl.
      now rewrite (proj2 (String.eqb_neq name n) Hne).
Qed.

Lemma read_keys (self : attrs) (names : list string) :
  NoDup names ->
  NoDup (List.map fst
           (omap (fun n => (fun v => (n, v)) <$> self !! n) names)).
Proof.
  induction names as [|n names IH]; [intros _; apply NoDup_nil_2|].
  intros H. apply NoDup_cons in H as [Hn Hd].
  unfold omap in *. cbn [list_omap].
  destruct (self !! n) as [v|]; cbn [fmap option_fmap option_map];
    [|now apply IH].
  cbn [List.map fst]. apply NoDup_cons. split; [|now apply IH].
  intros Hin. apply ConfigMore.kw_get_is_Some in Hin.
  pose proof (kw_get_read self n names) as Hr. unfold omap in Hr.
  rewrite Hr in Hin.
  rewrite bool_decide_eq_false_2 in Hin by exact Hn.
  now destruct Hin.
Qed.

Lemma kw_get_del_all (name : string) (names : list string) :
  forall d,
    kw_get name (fold_left (fun d n => kw_del n d) names d)
    = if existsb (String.eqb name) names then None else kw_get name d.
Proof.
  induction names as [|n names IH]; intros d; simpl; [done|].
  rewrite IH. destruct (String.eqb name n) eqn:E; simpl.
  - apply String.eqb_eq in E. subst n.
    rewrite ConfigFacts.kw_get_kw_del_same.
    now destruct (existsb (String.eqb name) names).
  - apply String.eqb_neq in E.
    now rewrite ConfigMore.kw_get_kw_del_ne.
Qed.

Lemma del_all_keys (names : list string) :
  forall d, NoDup (List.map fst d) ->
            NoDup (List.map fst (fold_left (fun d n => kw_del n d) names d)).
Proof.
  induction names as [|n names IH]; intros d Hd; simpl; [done|].
  apply IH. now apply ConfigMore.kw_del_keys.
Qed.

Lemma kw_get_In (k : string) (v : pyval) (d : kwargs_t) :
  NoDup (List.map fst d) -> In (k, v) d -> kw_get k d = Some v.
Proof.
  induction d as [|[k' w] d IH]; simpl; [done|].
  intros H Hin. apply NoDup_cons in H as [Hn Hd].
  unfold kw_get. simpl. destruct Hin as [Heq|Hin].
  - inversion Heq; subst. now rewrite String.eqb_refl.
  - destruct (String.eqb k k') eqn:E.
    + apply String.eqb_eq in E. subst k'. exfalso. apply Hn.
      apply list_elem_of_In, in_map_iff. now exists (k, v).
    + now apply IH.
Qed.

Lemma kw_get_Some_In (k : string) (v : pyval) (d : kwargs_t) :
  kw_get k d = Some v -> In (k, v) d.
Proof.
  unfold kw_get. destruct (List.find _ d) as [[k' w]|] eqn:E; [|done].
  simpl. intros [= ->]. apply find_some in E as [Hin Hk].
  apply String.eqb_eq in Hk. simpl in Hk. now subst k'.
Qed.

Lemma no_string_functions (d : kwargs_t) :
  NoDup (List.map fst d) ->
  (forall k v, kw_get k d = Some v -> is_string_function (k, v) = false) ->
  List.filter is_string_function d = [].
Proof.
  intros Hd H.
  destruct (List.filter is_string_function d) as [|[k v] rest] eqn:E; [done|].
  assert (Hin : In (k, v) (List.filter is_string_function d)).
  { rewrite E. now left. }
  apply filter_In in Hin as [Hin Hs].
  rewrite (H k v (kw_get_In k v d Hd Hin)) in Hs. done.
Qed.

Lemma common_attr_spec (source target : solver_class) (name : string) :
  bool_decide
    (name ∈ remove_dups
       (List.filter
          (fun name => existsb (String.eqb name) (_optional_parameters source))
          (_optional_parameters target)))
  = existsb (String.eqb name) (_optional_parameters target)
    && existsb (String.eqb name) (_optional_parameters source).
Proof.
  apply eq_true_iff_eq. rewrite bool_decide_eq_true, elem_of_remove_dups.
  rewrite list_elem_of_In, filter_In, andb_true_iff.
  assert (Hm : In name (_optional_parameters target)
               <-> existsb (String.eqb name) (_optional_parameters target)
                   = true).
  { rewrite existsb_exists. split.
    - intros Hin. exists name. split; [done|apply String.eqb_refl].
    - intros (x & Hin & Hx). apply String.eqb_eq in Hx. now subst. }
  tauto.
Qed.

Section Switching.

Variable f2py_compile : string -> option (string -> option pyval).
Variable py_str : pyval -> string.

(** The keyword arguments [switch_to] passes to the constructor. *)
Lemma switch_to_arguments (source target : solver_class)
    (kwargs : kwargs_t) (self : attrs) (d : kwargs_t) :
  NoDup (List.map fst kwargs) ->
  d = kw_update
        (fold_left (fun d name => kw_del name d)
           ["f_f77"; "f_args"; "f_kwargs"; "f"]
           (omap (fun name => (fun v => (name, v)) <$> self !! name)
              (remove_dups
                 (List.filter
                    (fun name => existsb (String.eqb name)
                                   (_optional_parameters source))
                    (_optional_parameters target)))))
        (kw_del "f" kwargs) ->
  NoDup (List.map fst d)
  /\ forall name,
       kw_get name d
       = match kw_get name (kw_del "f" kwargs) with
         | Some v => Some v
         | None => if inherited source target name then self !! name
                   else None
         end.
Proof.
  intros Hk ->. split.
  - apply kw_update_keys, del_all_keys, read_keys, NoDup_remove_dups.
  - intros name.
    rewrite kw_get_kw_update by now apply ConfigMore.kw_del_keys.
    rewrite kw_get_del_all, kw_get_read, common_attr_spec.
    unfold inherited.
    destruct (kw_get name (kw_del "f" kwargs)); [done|].
    destruct (existsb (String.eqb name) ["f_f77"; "f_args"; "f_kwargs"; "f"]).
    + now rewrite andb_false_r.
    + now rewrite andb_true_r.
Qed.

(** X4. The parameters of the instance [switch_to] returns.  Every
    parameter of the target class holds the value given in [kwargs]; if
    none is given and the name is an optional parameter of both classes
    other than [f_f77], [f_args] and [f_kwargs], the value the old instance
    holds; otherwise, and where that value is [None], the registered
    default.  The dictionary of the new instance has no entry for a name
    that is no parameter of the target class, the names [_parameters],
    [f], [users_f], [U0] and [neq] apart, which the constructor and
    [set_initial_condition] bind themselves. *)
Theorem switch_to_attributes (source target : solver_class)
    (kwargs : kwargs_t) (self new_self : attrs) :
  NoDup (List.map fst (class_parameters target)) ->
  NoDup (List.map fst kwargs) ->
  List.filter is_string_function kwargs = [] ->
  map_Forall (fun k v => is_string_function (k, v) = false) self ->
  switch_to f2py_compile py_str source (Some target) kwargs self
    = Ok new_self ->
  forall name,
    name <> "_parameters" ->
    name <> "f" -> name <> "users_f" -> name <> "U0" -> name <> "neq" ->
    new_self !! name
    = match reg_get name (class_parameters target) with
      | Some sp =>
          match
            match kw_get name kwargs with
            | Some v => Some v
            | None => if inherited source target name then self !! name
                      else None
            end
          with
          | Some v => if is_None v then Registry.default sp else Some v
          | None => Registry.default sp
          end
      | None => None
      end.
Proof.
  intros Hp Hk Hsk Hss H name _ Hf Hu HU0 Hneq.
  unfold switch_to, new in H.
  match type of H with
  | context [init _ _ _ ?f ?d ∅] =>
      remember d as args eqn:Eargs; remember f as g eqn:Eg
  end.
  destruct (switch_to_arguments source target kwargs self args Hk Eargs)
    as [Hd Hget].
  assert (Hs : List.filter is_string_function args = []).
  { apply no_string_functions; [exact Hd|]. intros k v. rewrite Hget.
    destruct (kw_get k (kw_del "f" kwargs)) as [w|] eqn:Ew.
    - intros [= ->].
      destruct (decide (k = "f")) as [->|Hne].
      + now rewrite ConfigFacts.kw_get_kw_del_same in Ew.
      + rewrite ConfigMore.kw_get_kw_del_ne in Ew by exact Hne.
        apply kw_get_Some_In in Ew.
        destruct (is_string_function (k, v)) eqn:Es; [|done].
        assert (Hin : In (k, v) (List.filter is_string_function kwargs)).
        { apply filter_In. now split. }
        now rewrite Hsk in Hin.
    - destruct (inherited source target k); [apply Hss|done]. }
  destruct (init f2py_compile py_str (class_parameters target) g args ∅)
    as [[[]|e] s1] eqn:Einit; [|done].
  pose proof (ConfigMore.init_lookup f2py_compile py_str
                (class_parameters target) g args s1 Hp Hd Hs Einit
                name Hf Hu) as Hall.
  rewrite Hget in Hall.
  rewrite ConfigMore.kw_get_kw_del_ne in Hall by exact Hf.
  destruct (self !! "U0") as [U0|].
  - rewrite TimeLoopFacts.set_initial_condition_state in H.
    inversion H; subst new_self.
    destruct (py_len U0); rewrite !lookup_insert_ne by congruence;
      exact Hall.
  - inversion H; subst new_self. exact Hall.
Qed.



End Switching.

Lemma result_of_is_ok {A : Type} (r : result A) (d : A) :
  is_ok r = true -> r = Ok (match r with Ok a => a | Raise _ => d end).
Proof. now destruct r. Qed.

Lemma ThetaRule_switched_run :
  switch_to no_f2py str_of BackwardEuler (Some ThetaRule)
    [("theta", VFloat (1 # 4))] BackwardEuler_tuned
  = Ok ThetaRule_switched.
Proof. apply result_of_is_ok. vm_compute. reflexivity. Qed.

(** The theorem at [BackwardEuler(f, max_iter=10)] switched to [ThetaRule]
    with [theta=0.25]: the new instance holds the [max_iter] of the old
    one, the [theta] of the call, and the default [f_args]. *)
Lemma switch_to_attributes_witness :
  ThetaRule_switched !! "max_iter" = Some (VInt 10)
  /\ ThetaRule_switched !! "theta" = Some (VFloat (1 # 4))
  /\ ThetaRule_switched !! "f_args" = Some (VTuple []).
Proof.
  assert (Hp : NoDup (List.map fst (class_parameters ThetaRule))).
  { apply (bool_decide_unpack _). vm_compute. reflexivity. }
  assert (Hk : NoDup (List.map fst [("theta", VFloat (1 # 4))])).
  { apply (bool_decide_unpack _). vm_compute. reflexivity. }
  assert (Hs : map_Forall (fun k v => is_string_function (k, v) = false)
                 BackwardEuler_tuned).
  { apply (bool_decide_unpack _). vm_compute. reflexivity. }
  pose proof (switch_to_attributes no_f2py str_of BackwardEuler ThetaRule
                [("theta", VFloat (1 # 4))] BackwardEuler_tuned
                ThetaRule_switched Hp Hk eq_refl Hs ThetaRule_switched_run)
    as H.
  split; [|split].
  - rewrite (H "max_iter") by discriminate. vm_compute. reflexivity.
  - rewrite (H "theta") by discriminate. vm_compute. reflexivity.
  - rewrite (H "f_args") by discriminate. vm_compute. reflexivity.
Defined.


End SwitchFacts.

(* ===================================================================== *)
(** ** The explicit schemes inside the time loop *)
(* ===================================================================== *)

Module ExplicitFacts.

Import TimeLoop Explicit Examples.

Lemma reads_only_frame (advance : M pyval) (ts : list pyval)
    (G : list pyval -> nat -> Q) (row : pyval) :
  reads_only advance ts G -> advance_frame advance ts row.
Proof.
  intros HG s n (Ht & rest & Hu & Hlen) Hn Hlt.
  eexists _, s. split.
  - apply (HG s (row :: rest) n Hu Ht Hn); [simpl; lia|exact Hlt].
  - split; [exact Ht|]. now exists rest.
Qed.

(** One pass of the loop body around an [advance] that only reads. *)
Lemma step_reads_only (advance : M pyval) (ts : list pyval)
    (G : list pyval -> nat -> Q) (s : attrs) (us : list pyval) (n : nat) :
  reads_only advance ts G ->
  s !! "u" = Some (VArray us) ->
  s !! "t" = Some (VArray ts) ->
  length us = length ts ->
  (n + 1 < length ts)%nat ->
  step advance n s
  = (Ok (VArray (<[S n := VFloat (G (take (S n) us) n)]> us)),
     <["u" := VArray (<[S n := VFloat (G (take (S n) us) n)]> us)]>
       (<["n" := VInt (Z.of_nat n)]> s)).
Proof.
  intros HG Hu Ht Hlen Hn. unfold step. run_M.
  rewrite (HG (<["n" := VInt (Z.of_nat n)]> s) us n);
    [|now rewrite lookup_insert_ne|now rewrite lookup_insert_ne
     |apply lookup_insert_eq|exact Hlen|exact Hn].
  rewrite lookup_insert_ne by done. rewrite Hu. unfold setitem. simpl.
  rewrite bool_decide_eq_true_2 by lia. now rewrite Nat.add_1_r.
Qed.

(** The loop body repeated: every entry written satisfies the recurrence
    of the scheme, and the entries up to the starting index stay. *)
Lemma steps_trajectory (advance : M pyval) (ts : list pyval)
    (G : list pyval -> nat -> Q) :
  reads_only advance ts G ->
  forall (len from : nat) (s : attrs) (us : list pyval),
    s !! "u" = Some (VArray us) ->
    s !! "t" = Some (VArray ts) ->
    length us = length ts ->
    (from + len + 1 = length ts)%nat ->
    exists us',
      snd (steps advance from len s) !! "u" = Some (VArray us')
      /\ length us' = length ts
      /\ take (S from) us' = take (S from) us
      /\ forall k, (from <= k < from + len)%nat ->
           us' !! S k = Some (VFloat (G (take (S k) us') k)).
Proof.
  intros HG. induction len as [|len IH]; intros from s us Hu Ht Hlen Hfrom.
  - exists us. simpl. repeat split; [exact Hu|exact Hlen|]. intros k Hk. lia.
  - pose proof (step_reads_only advance ts G s us from HG Hu Ht Hlen) as Hs.
    specialize (Hs ltac:(lia)).
    rewrite (TimeLoopFacts.steps_step advance from len s _ _ Hs).
    set (v := VFloat (G (take (S from) us) from)) in *.
    destruct (IH (S from)
                (<["u" := VArray (<[S from := v]> us)]>
                   (<["n" := VInt (Z.of_nat from)]> s))
                (<[S from := v]> us))
      as (us' & Hu' & Hlen' & Htake & Hrec).
    + apply lookup_insert_eq.
    + now rewrite !lookup_insert_ne.
    + now rewrite length_insert.
    + lia.
    + assert (Hpre : take (S from) us' = take (S from) us).
      { transitivity (take (S from) (take (S (S from)) us')).
        - rewrite take_take. now rewrite Nat.min_l by lia.
        - rewrite Htake, take_take, Nat.min_l by lia.
          apply take_insert_ge. lia. }
      exists us'. split; [exact Hu'|]. split; [exact Hlen'|].
      split; [exact Hpre|]. intros k Hk.
      destruct (decide (k = from)) as [->|Hne]; [|apply Hrec; lia].
      rewrite Hpre.
      rewrite <- (lookup_take_lt us' (S (S from)) (S from)) by lia.
      rewrite Htake, lookup_take_lt by lia.
      apply list_lookup_insert_eq. lia.
Qed.

(** For a [U0] without a length, slot 0 of [u] holds the number of [U0]
    as a float. *)
Lemma scalar_row (U0 : pyval) (self : attrs) (stored row : pyval) (neq : Z) :
  py_len U0 = None ->
  snd (set_initial_condition U0 self) !! "U0" = Some stored ->
  snd (set_initial_condition U0 self) !! "neq" = Some (VInt neq) ->
  initial_row neq stored = Ok row ->
  exists u0, as_number U0 = Some u0 /\ row = VFloat u0.
Proof.
  rewrite TimeLoopFacts.set_initial_condition_state. intros Hl. rewrite Hl.
  simpl. rewrite lookup_insert_eq, lookup_insert_ne by done.
  rewrite lookup_insert_eq. intros [= <-] [= <-].
  destruct U0; simpl in *; try done; intros [= <-]; eauto.
Qed.

(** [solve] around an [advance] that only reads, with the default
    [terminate], for a scalar problem. *)
Lemma solve_reads_only (advance : M pyval) (validate : M bool)
    (G : list pyval -> nat -> Q)
    (U0 time_points : pyval) (self s1 : attrs) (ts : list pyval) :
  py_len U0 = None ->
  asarray time_points = VArray ts ->
  set_internal_parameters
    (<["t" := VArray ts]> (snd (set_initial_condition U0 self)))
    = (Ok tt, s1) ->
  (exists b, validate s1 = (Ok b, s1)) ->
  reads_only advance ts G ->
  exists us self' u0,
    solve advance validate never_terminate time_points
      (snd (set_initial_condition U0 self))
      = (Ok (VArray us, VArray ts), self')
    /\ length us = length ts
    /\ as_number U0 = Some u0
    /\ us !! 0%nat = Some (VFloat u0)
    /\ forall k, (k + 1 < length ts)%nat ->
         us !! S k = Some (VFloat (G (take (S k) us) k)).
Proof.
  intros Hscalar Hts Hprep [b Hval] HG.
  destruct (TimeLoopFacts.prepared_row U0 self (VArray ts) s1 Hprep)
    as (stored & neq & row & rest & HU & Hneq & Hrow & Hu & _ & Ht & Hlen).
  destruct (scalar_row U0 self stored row neq Hscalar HU Hneq Hrow)
    as (u0 & Hu0 & ->).
  simpl in Hlen.
  assert (Hw : well_formed ts (VFloat u0) s1).
  { split; [exact Ht|]. now exists rest. }
  destruct (TimeLoopFacts.time_loop_full advance never_terminate ts
              (VFloat u0) (reads_only_frame advance ts G (VFloat u0) HG)
              (length rest) 0 s1 Hw)
    as (Hloop & Ht' & _).
  { simpl. lia. }
  { intros j _. unfold fires_from.
    now destruct (snd (steps advance 0 (S j) s1) !! "u"). }
  destruct (steps_trajectory advance ts G HG (length rest) 0 s1
              (VFloat u0 :: rest) Hu Ht)
    as (us & Hus & Hlus & Htake & Hrec);
    [simpl; lia|simpl; lia|].
  exists us, (snd (steps advance 0 (length rest) s1)), u0.
  split.
  { unfold solve. rewrite Hts. run_M. simpl. rewrite Hprep, Hval, Ht. simpl.
    replace (length ts - 1)%nat with (length rest) by lia.
    rewrite Hloop. simpl. now rewrite Hus, Ht'. }
  split; [exact Hlus|]. split; [exact Hu0|]. split.
  { rewrite <- (lookup_take_lt us 1 0) by lia. now rewrite Htake. }
  intros k Hk. apply Hrec. lia.
Qed.

Lemma nth_take_lookup (us : list pyval) (n i : nat) (x : pyval) :
  (i < n)%nat -> us !! i = Some x -> nth i (take n us) VNone = x.
Proof.
  intros Hi Hx. apply nth_lookup_Some. now rewrite lookup_take_lt.
Qed.

Section Scalar.

Variable f : Q -> Q -> Q.

Lemma one_step_reads_only (unew : Q -> Q -> Q -> Q) (ts : list pyval) :
  reads_only (one_step unew) ts (one_step_value unew ts).
Proof.
  intros s us n Hu Ht Hn Hlen Hlt. unfold one_step. run_M.
  rewrite Hu, Hn, Ht. cbn [index]. rewrite Nat2Z.id.
  unfold getitem. cbn [items].
  destruct (lookup_lt_is_Some_2 ts (n + 1)) as [tn1 E1]; [lia|].
  destruct (lookup_lt_is_Some_2 ts n) as [tn E2]; [lia|].
  destruct (lookup_lt_is_Some_2 us n) as [un E3]; [lia|].
  rewrite E1, E2, E3. unfold one_step_value.
  rewrite (nth_take_lookup us (S n) n un) by (lia || done).
  rewrite (nth_lookup_Some ts n VNone tn E2).
  now rewrite (nth_lookup_Some ts (n + 1) VNone tn1 E1).
Qed.

Lemma Leapfrog_reads_only (ts : list pyval) :
  reads_only (Leapfrog_advance f) ts (Leapfrog_value f ts).
Proof.
  intros s us n Hu Ht Hn Hlen Hlt. unfold Leapfrog_advance. run_M.
  rewrite Hu, Hn, Ht. cbn [index]. rewrite Nat2Z.id.
  unfold getitem, Leapfrog_value. cbn [items].
  destruct (lookup_lt_is_Some_2 ts (n + 1)) as [tn1 E1]; [lia|].
  destruct (lookup_lt_is_Some_2 ts n) as [tn E2]; [lia|].
  destruct (lookup_lt_is_Some_2 us n) as [un E3]; [lia|].
  destruct (1 <=? n)%nat eqn:E.
  - apply Nat.leb_le in E.
    destruct (lookup_lt_is_Some_2 ts (n - 1)) as [tnm1 E4]; [lia|].
    destruct (lookup_lt_is_Some_2 us (n - 1)) as [unm1 E5]; [lia|].
    rewrite E1, E4, E5, E3, E2.
    rewrite (nth_take_lookup us (S n) n un) by (lia || done).
    rewrite (nth_take_lookup us (S n) (n - 1) unm1) by (lia || done).
    rewrite (nth_lookup_Some ts n VNone tn E2).
    rewrite (nth_lookup_Some ts (n - 1) VNone tnm1 E4).
    now rewrite (nth_lookup_Some ts (n + 1) VNone tn1 E1).
  - rewrite E1, E2, E3.
    rewrite (nth_take_lookup us (S n) n un) by (lia || done).
    rewrite (nth_lookup_Some ts n VNone tn E2).
    now rewrite (nth_lookup_Some ts (n + 1) VNone tn1 E1).
Qed.

End Scalar.

(** X6. [solve] with [Heun], [RK2], [RK3] or [RK4] (any [advance] of the
    shape [one_step unew]) and the default [terminate], on a scalar
    problem whose initial condition was set and whose grid passes the
    checks: the call returns arrays [u] and [t] of the length of the grid,
    [t] is the grid, [u[0]] is the number [U0] as a float, and every later
    entry is the scheme applied to the entry before it:
    [u[k+1] = unew(u[k], t[k], t[k+1])]. *)
Theorem one_step_solve (unew : Q -> Q -> Q -> Q) (validate : M bool)
    (U0 time_points : pyval) (self s1 : attrs) (ts : list pyval) :
  py_len U0 = None ->
  asarray time_points = VArray ts ->
  set_internal_parameters
    (<["t" := VArray ts]> (snd (set_initial_condition U0 self)))
    = (Ok tt, s1) ->
  (exists b, validate s1 = (Ok b, s1)) ->
  exists us self' u0,
    solve (one_step unew) validate never_terminate time_points
      (snd (set_initial_condition U0 self))
      = (Ok (VArray us, VArray ts), self')
    /\ length us = length ts
    /\ as_number U0 = Some u0
    /\ us !! 0%nat = Some (VFloat u0)
    /\ forall k un tn tn1,
         us !! k = Some un -> ts !! k = Some tn ->
         ts !! (k + 1)%nat = Some tn1 ->
         us !! (k + 1)%nat
         = Some (VFloat (unew (num un) (num tn) (num tn1))).
Proof.
  intros Hscalar Hts Hprep Hval.
  destruct (solve_reads_only (one_step unew) validate
              (one_step_value unew ts) U0 time_points self s1 ts
              Hscalar Hts Hprep Hval (one_step_reads_only unew ts))
    as (us & self' & u0 & Hsolve & Hlen & HU & H0 & Hrec).
  exists us, self', u0. split; [exact Hsolve|]. split; [exact Hlen|].
  split; [exact HU|]. split; [exact H0|].
  intros k un tn tn1 Hun Htn Htn1.
  assert (Hk : (k + 1 < length ts)%nat).
  { apply lookup_lt_is_Some. eauto. }
  rewrite Nat.add_1_r, (Hrec k Hk). unfold one_step_value.
  rewrite (nth_take_lookup us (S k) k un) by (lia || done).
  rewrite (nth_lookup_Some ts k VNone tn Htn).
  now rewrite (nth_lookup_Some ts (k + 1) VNone tn1 Htn1).
Qed.

(** X7. [solve] with [Leapfrog] and the default [terminate], on a scalar
    problem: [u[0]] is the number [U0], the first computed entry is a
    Forward Euler step, [u[1] = u[0] + (t[1] - t[0])*f(u[0], t[0])], and
    every later one is
    [u[k+1] = u[k-1] + (t[k+1] - t[k-1])*f(u[k], t[k])]. *)
Theorem Leapfrog_solve (f : Q -> Q -> Q) (validate : M bool)
    (U0 time_points : pyval) (self s1 : attrs) (ts : list pyval) :
  py_len U0 = None ->
  asarray time_points = VArray ts ->
  set_internal_parameters
    (<["t" := VArray ts]> (snd (set_initial_condition U0 self)))
    = (Ok tt, s1) ->
  (exists b, validate s1 = (Ok b, s1)) ->
  exists us self' u0,
    solve (Leapfrog_advance f) validate never_terminate time_points
      (snd (set_initial_condition U0 self))
      = (Ok (VArray us, VArray ts), self')
    /\ length us = length ts
    /\ as_number U0 = Some u0
    /\ us !! 0%nat = Some (VFloat u0)
    /\ (forall t0 t1,
          ts !! 0%nat = Some t0 -> ts !! 1%nat = Some t1 ->
          us !! 1%nat
          = Some (VFloat (u0 + (num t1 - num t0) * f u0 (num t0))))
    /\ forall k ukm1 uk tkm1 tk tk1,
         us !! k = Some ukm1 -> us !! (k + 1)%nat = Some uk ->
         ts !! k = Some tkm1 -> ts !! (k + 1)%nat = Some tk ->
         ts !! (k + 2)%nat = Some tk1 ->
         us !! (k + 2)%nat
         = Some (VFloat (num ukm1
                         + (num tk1 - num tkm1) * f (num uk) (num tk))).
Proof.
  intros Hscalar Hts Hprep Hval.
  destruct (solve_reads_only (Leapfrog_advance f) validate
              (Leapfrog_value f ts) U0 time_points self s1 ts
              Hscalar Hts Hprep Hval (Leapfrog_reads_only f ts))
    as (us & self' & u0 & Hsolve & Hlen & HU & H0 & Hrec).
  exists us, self', u0. split; [exact Hsolve|]. split; [exact Hlen|].
  split; [exact HU|]. split; [exact H0|]. split.
  - intros t0 t1 Ht0 Ht1.
    assert (Hk : (0 + 1 < length ts)%nat).
    { apply lookup_lt_is_Some. eauto. }
    rewrite (Hrec 0%nat Hk). unfold Leapfrog_value. cbn [Nat.leb].
    rewrite (nth_take_lookup us 1 0 (VFloat u0)) by (lia || done).
    rewrite (nth_lookup_Some ts 0 VNone t0 Ht0).
    now rewrite (nth_lookup_Some ts (0 + 1) VNone t1 Ht1).
  - intros k ukm1 uk tkm1 tk tk1 Hukm1 Huk Htkm1 Htk Htk1.
    assert (Hk : (S k + 1 < length ts)%nat).
    { apply lookup_lt_is_Some. replace (S k + 1)%nat with (k + 2)%nat by lia.
      eauto. }
    replace (k + 2)%nat with (S (S k)) in * by lia.
    replace (k + 1)%nat with (S k) in * by lia.
    rewrite (Hrec (S k) Hk). unfold Leapfrog_value. cbn [Nat.leb].
    replace (S k - 1)%nat with k by lia.
    replace (S k + 1)%nat with (S (S k)) by lia.
    rewrite (nth_take_lookup us (S (S k)) k ukm1) by (lia || done).
    rewrite (nth_take_lookup us (S (S k)) (S k) uk) by (lia || done).
    rewrite (nth_lookup_Some ts k VNone tkm1 Htkm1).
    rewrite (nth_lookup_Some ts (S k) VNone tk Htk).
    now rewrite (nth_lookup_Some ts (S (S k)) VNone tk1 Htk1).
Qed.

(** X8. [LeapfrogFiltered.advance] inside the loop of [solve]: called at a
    step [n] inside the grid it returns, and although it writes into
    [self.u] it leaves [u[0]], the length of [u] and the grid [t] as they
    are. *)
Theorem LeapfrogFiltered_frame (f : Q -> Q -> Q) (ts : list pyval)
    (row : pyval) :
  advance_frame (LeapfrogFiltered_advance f) ts row.
Proof.
  intros s n (Ht & rest & Hu & Hlen) Hn Hlt.
  unfold LeapfrogFiltered_advance. run_M.
  rewrite Hu, Hn, Ht. cbn [index]. rewrite Nat2Z.id.
  unfold getitem, setitem. cbn [items].
  destruct (lookup_lt_is_Some_2 ts (n + 1)) as [tn1 E1]; [lia|].
  destruct (lookup_lt_is_Some_2 ts n) as [tn E2]; [lia|].
  destruct (lookup_lt_is_Some_2 (row :: rest) n) as [un E3]; [simpl; lia|].
  destruct (1 <=? n)%nat eqn:E.
  - apply Nat.leb_le in E.
    destruct (lookup_lt_is_Some_2 ts (n - 1)) as [tnm1 E4]; [lia|].
    destruct (lookup_lt_is_Some_2 (row :: rest) (n - 1)) as [unm1 E5];
      [simpl; lia|].
    rewrite E1, E4, E5, E3, E2.
    rewrite bool_decide_eq_true_2 by (simpl; lia).
    eexists _, _. split; [reflexivity|].
    split; [now rewrite lookup_insert_ne|].
    rewrite lookup_insert_eq. destruct n as [|m]; [lia|].
    eexists (<[m := _]> rest). split; [reflexivity|].
    now rewrite length_insert.
  - rewrite E1, E2, E3.
    eexists _, s. split; [reflexivity|]. split; [exact Ht|]. now exists rest.
Qed.

(** The theorem for [Heun] on [u' = -u], [U0 = 1.0] and the grid
    [0, 0.5, 1, 1.5]. *)
Lemma one_step_solve_witness :
  exists us self',
    solve (Heun_advance decay) (validate_data Solver_required)
      never_terminate (VList grid_uniform) Euler_decay
      = (Ok (VArray us, VArray grid_uniform), self')
    /\ length us = 4%nat
    /\ us !! 0%nat = Some (VFloat 1)
    /\ us !! 1%nat = Some (VFloat (Heun_unew decay 1 0 (1 # 2))).
Proof.
  pose (s1 := snd (set_internal_parameters
                     (<["t" := VArray grid_uniform]> Euler_decay))).
  destruct (one_step_solve (Heun_unew decay) (validate_data Solver_required)
              (VFloat 1) (VList grid_uniform) (construct Euler_parameters)
              s1 grid_uniform)
    as (us & self' & u0 & Hsolve & Hlen & Hu0 & H0 & Hrec).
  - reflexivity.
  - reflexivity.
  - apply ConfigMore.run_of_fst. vm_compute. reflexivity.
  - exists true.
    rewrite <- (TimeLoopFacts.validate_data_state Solver_required s1) at 2.
    apply ConfigMore.run_of_fst. vm_compute. reflexivity.
  - inversion Hu0; subst u0.
    exists us, self'. split; [exact Hsolve|]. split; [exact Hlen|].
    split; [exact H0|].
    exact (Hrec 0%nat (VFloat 1) (VFloat 0) (VFloat (1 # 2))
             H0 eq_refl eq_refl).
Defined.

(** The theorem for [Leapfrog] on the same problem. *)
Lemma Leapfrog_solve_witness :
  exists us self',
    solve (Leapfrog_advance decay) (validate_data Solver_required)
      never_terminate (VList grid_uniform) Euler_decay
      = (Ok (VArray us, VArray grid_uniform), self')
    /\ us !! 1%nat = Some (VFloat (1 + ((1 # 2) - 0) * decay 1 0))
    /\ forall u1, us !! 1%nat = Some u1 ->
         us !! 2%nat
         = Some (VFloat (1 + (1 - 0) * decay (num u1) (1 # 2))).
Proof.
  pose (s1 := snd (set_internal_parameters
                     (<["t" := VArray grid_uniform]> Euler_decay))).
  destruct (Leapfrog_solve decay (validate_data Solver_required)
              (VFloat 1) (VList grid_uniform) (construct Euler_parameters)
              s1 grid_uniform)
    as (us & self' & u0 & Hsolve & Hlen & Hu0 & H0 & Hfirst & Hrec).
  - reflexivity.
  - reflexivity.
  - apply ConfigMore.run_of_fst. vm_compute. reflexivity.
  - exists true.
    rewrite <- (TimeLoopFacts.validate_data_state Solver_required s1) at 2.
    apply ConfigMore.run_of_fst. vm_compute. reflexivity.
  - inversion Hu0; subst u0.
    exists us, self'. split; [exact Hsolve|]. split.
    + exact (Hfirst (VFloat 0) (VFloat (1 # 2)) eq_refl eq_refl).
    + intros u1 Hu1.
      exact (Hrec 0%nat (VFloat 1) u1 (VFloat 0) (VFloat (1 # 2)) (VFloat 1)
               H0 Hu1 eq_refl eq_refl eq_refl).
Defined.

(** The theorem for [LeapfrogFiltered] at step 1 of the grid
    [0, 0.5, 1, 1.5], with [u = [1, 0.5, 0, 0]]. *)
Lemma LeapfrogFiltered_frame_witness :
  let s := <["n" := VInt 1]>
             (<["u" := VArray [VFloat 1; VFloat (1 # 2); VFloat 0; VFloat 0]]>
                (<["t" := VArray grid_uniform]> ∅)) in
  exists v s',
    LeapfrogFiltered_advance decay s = (Ok v, s')
    /\ well_formed grid_uniform (VFloat 1) s'.
Proof.
  cbv zeta.
  apply (LeapfrogFiltered_frame decay grid_uniform (VFloat 1) _ 1%nat).
  - split; [reflexivity|].
    exists [VFloat (1 # 2); VFloat 0; VFloat 0]. split; reflexivity.
  - reflexivity.
  - simpl. lia.
Defined.

(** X9. On the test equation [u' = lam*u] one step of each Runge-Kutta
    scheme multiplies [u[n]] by the Taylor polynomial of [exp(z)] in
    [z = lam*dt]: of degree 2 for [Heun] and [RK2], of degree 3 for [RK3]
    and of degree 4 for [RK4]. *)
Theorem RK_amplification (lam un tn tn1 : Q) :
  let z := (lam * (tn1 - tn))%Q in
  let f := fun (u t : Q) => (lam * u)%Q in
  (Heun_unew f un tn tn1 == un * (1 + z + z ^ 2 / 2))%Q
  /\ (RK2_unew f un tn tn1 == un * (1 + z + z ^ 2 / 2))%Q
  /\ (RK3_unew f un tn tn1 == un * (1 + z + z ^ 2 / 2 + z ^ 3 / 6))%Q
  /\ (RK4_unew f un tn tn1
      == un * (1 + z + z ^ 2 / 2 + z ^ 3 / 6 + z ^ 4 / 24))%Q.
Proof.
  cbv zeta. unfold Heun_unew, RK2_unew, RK3_unew, RK4_unew.
  repeat split; field.
Qed.

(** X10. When the right-hand side depends on [t] only, one step adds the
    exact integral over the step for every polynomial of degree at most 3
    with [RK3] and [RK4] (Simpson's rule), and for every polynomial of
    degree at most 1 with [Heun] (trapezoidal rule) and [RK2] (midpoint
    rule). *)
Theorem RK_quadrature (a b c d un tn tn1 : Q) :
  let cubic := fun (u t : Q) => (a + b * t + c * t ^ 2 + d * t ^ 3)%Q in
  let linear := fun (u t : Q) => (a + b * t)%Q in
  let P := fun t : Q =>
    (a * t + b * t ^ 2 / 2 + c * t ^ 3 / 3 + d * t ^ 4 / 4)%Q in
  let L := fun t : Q => (a * t + b * t ^ 2 / 2)%Q in
  (RK4_unew cubic un tn tn1 == un + (P tn1 - P tn))%Q
  /\ (RK3_unew cubic un tn tn1 == un + (P tn1 - P tn))%Q
  /\ (Heun_unew linear un tn tn1 == un + (L tn1 - L tn))%Q
  /\ (RK2_unew linear un tn tn1 == un + (L tn1 - L tn))%Q.
Proof.
  cbv zeta. unfold Heun_unew, RK2_unew, RK3_unew, RK4_unew.
  repeat split; field.
Qed.

End ExplicitFacts.

(* ===================================================================== *)
(** ** Uniform grids *)
(* ===================================================================== *)

Module UniformFacts.

Import TimeLoop Multistep Examples.

Lemma lookup_map {A B : Type} (g : A -> B) (l : list A) (i : nat) :
  List.map g l !! i = g <$> l !! i.
Proof.
  revert i. induction l as [|x l IH]; intros [|i]; simpl; auto.
Qed.

Lemma allclose_pointwise (a : list Q) :
  forall b : list Q,
    length a = length b ->
    (forall i x y, a !! i = Some x -> b !! i = Some y -> (x == y)%Q) ->
    allclose a b = true.
Proof.
  induction a as [|x a IH]; intros [|y b] Hlen H; simpl in *; try done.
  apply andb_true_intro. split.
  - apply Qle_bool_iff.
    assert (Hxy : (x == y)%Q) by (apply (H 0%nat); reflexivity).
    assert (H0 : (Qabs (x - y) == 0)%Q).
    { assert (Hd : (x - y == 0)%Q) by (rewrite Hxy; ring).
      now rewrite Hd. }
    rewrite H0.
    apply Qle_trans with ((1 # 100000000) + 0)%Q; [discriminate|].
    apply Qplus_le_r.
    apply Qmult_le_0_compat; [discriminate|apply Qabs_nonneg].
  - apply IH; [lia|]. intros i x' y' Hx Hy. apply (H (S i)); assumption.
Qed.

(** On a grid with constant increment [h], point [i] is [t[0] + i*h]. *)
Lemma uniform_values (ts : list pyval) (h : Q) :
  (forall i x y, ts !! i = Some x -> ts !! S i = Some y ->
                 (num y - num x == h)%Q) ->
  forall i x0 x,
    ts !! 0%nat = Some x0 -> ts !! i = Some x ->
    (num x == num x0 + inject_Z (Z.of_nat i) * h)%Q.
Proof.
  intros Hstep i. induction i as [|i IH]; intros x0 x H0 Hx.
  - rewrite H0 in Hx. inversion Hx; subst. simpl. ring.
  - destruct (lookup_lt_is_Some_2 ts i) as [xi Hxi].
    { apply lookup_lt_Some in Hx. lia. }
    pose proof (IH x0 xi H0 Hxi) as Hi.
    pose proof (Hstep i xi x Hxi Hx) as Hs.
    rewrite Nat2Z.inj_succ. unfold Z.succ. rewrite inject_Z_plus.
    assert (Hx' : (num x == num xi + h)%Q) by (rewrite <- Hs; ring).
    rewrite Hx', Hi. simpl. ring.
Qed.

(** X11. On a grid with a constant increment, of any length from one
    point on, [constant_time_step] answers [True], and the [validate_data]
    of the Adams-Bashforth and Adams-Bashforth-Moulton classes returns
    [True]; neither changes the instance. *)
Theorem uniform_grid_accepted (self : attrs) (ts : list pyval) (h : Q) :
  self !! "t" = Some (VArray ts) ->
  (0 < length ts)%nat ->
  (forall i x y, ts !! i = Some x -> ts !! S i = Some y ->
                 (num y - num x == h)%Q) ->
  constant_time_step self = (Ok true, self)
  /\ Multistep.validate_data self = (Ok true, self).
Proof.
  intros Ht Hpos Hstep.
  assert (Hc : constant_time_step self = (Ok true, self)).
  { unfold constant_time_step. run_M. rewrite Ht.
    unfold getitem, getlast. cbn [items].
    destruct (lookup_lt_is_Some_2 ts 0) as [first H0]; [lia|].
    assert (Hl : is_Some (last ts)).
    { rewrite last_lookup. apply lookup_lt_is_Some_2. lia. }
    destruct Hl as [final Hl]. rewrite H0, Hl. cbn [lift].
    do 2 f_equal. apply allclose_pointwise.
    { unfold linspace. rewrite length_map.
      destruct (length ts) as [|[|k]] eqn:E; [lia|reflexivity|].
      now rewrite length_map, length_seq. }
    intros i x y Hx Hy. rewrite lookup_map in Hx.
    destruct (ts !! i) as [xi|] eqn:Hxi; [|done].
    simpl in Hx. inversion Hx; subst x.
    rewrite last_lookup in Hl.
    pose proof (uniform_values ts h Hstep i first xi H0 Hxi) as Hi.
    pose proof (uniform_values ts h Hstep _ first final H0 Hl) as Hf.
    unfold linspace in Hy.
    destruct (length ts) as [|[|k]] eqn:E; [lia| |].
    - destruct i as [|i]; [|done]. simpl in Hy. inversion Hy; subst y.
      rewrite H0 in Hxi. now inversion Hxi.
    - rewrite lookup_map in Hy.
      assert (Hi' : (i < S (S k))%nat).
      { rewrite <- E. now apply lookup_lt_Some in Hxi. }
      rewrite (lookup_seq_lt 0 (S (S k)) i Hi') in Hy.
      simpl in Hy. inversion Hy; subst y. clear Hy.
      rewrite Hi, Hf.
      replace (Z.of_nat (S (S k)) - 1)%Z with (Z.of_nat (S k)) by lia.
      change (Nat.pred (S (S k))) with (S k).
      assert (Hk : ~ (inject_Z (Z.of_nat (S k)) == 0)%Q).
      { intros Hz. unfold Qeq in Hz. simpl in Hz. lia. }
      field. exact Hk. }
  split; [exact Hc|].
  rewrite (MultistepFacts.validate_data_uniform self); now rewrite Hc.
Qed.

(** The theorem at the grid [0, 0.5, 1, 1.5]. *)
Lemma uniform_grid_accepted_witness :
  let self := <["t" := VArray grid_uniform]> ∅ in
  constant_time_step self = (Ok true, self)
  /\ Multistep.validate_data self = (Ok true, self).
Proof.
  cbv zeta.
  apply (uniform_grid_accepted _ grid_uniform (1 # 2)).
  - apply lookup_insert_eq.
  - simpl. lia.
  - intros [|[|[|[|i]]]] x y Hx Hy; simpl in Hx, Hy; try done;
      inversion Hx; inversion Hy; subst; reflexivity.
Defined.

End UniformFacts.

(* ===================================================================== *)
(** ** The Adams-Bashforth family inside the time loop *)
(* ===================================================================== *)

Module AdamsFacts.

Import TimeLoop Explicit Adams Examples.

Section History.

Variable advance : M pyval.
Variable ts : list pyval.
Variable G : list pyval -> nat -> Q.
Variable Inv : nat -> list pyval -> attrs -> Prop.

Hypothesis Inv_frame :
  forall n pre s v,
    Inv n pre s ->
    Inv n pre (<["u" := v]> s) /\ Inv n pre (<["n" := v]> s).

Hypothesis Hadv : keeps_history advance ts G Inv.

(** One pass of the loop body. *)
Lemma step_history (s : attrs) (us : list pyval) (n : nat) :
  s !! "u" = Some (VArray us) ->
  s !! "t" = Some (VArray ts) ->
  length us = length ts ->
  (n + 1 < length ts)%nat ->
  Inv n (take (S n) us) s ->
  exists s1,
    step advance n s
    = (Ok (VArray (<[S n := VFloat (G (take (S n) us) n)]> us)), s1)
    /\ s1 !! "u"
       = Some (VArray (<[S n := VFloat (G (take (S n) us) n)]> us))
    /\ s1 !! "t" = Some (VArray ts)
    /\ Inv (S n)
         (take (S (S n)) (<[S n := VFloat (G (take (S n) us) n)]> us)) s1.
Proof.
  intros Hu Ht Hlen Hn HI. unfold step. run_M.
  destruct (Hadv (<["n" := VInt (Z.of_nat n)]> s) us n)
    as (s' & Ha & Hu' & Ht' & HI').
  { now rewrite lookup_insert_ne. }
  { now rewrite lookup_insert_ne. }
  { apply lookup_insert_eq. }
  { exact Hlen. }
  { exact Hn. }
  { now apply Inv_frame. }
  rewrite Ha, Hu'. unfold setitem. simpl.
  rewrite bool_decide_eq_true_2 by lia. rewrite Nat.add_1_r.
  eexists. split; [reflexivity|]. split; [apply lookup_insert_eq|].
  split; [now rewrite lookup_insert_ne|].
  assert (Htake : take (S (S n)) (<[S n := VFloat (G (take (S n) us) n)]> us)
                  = take (S n) us ++ [VFloat (G (take (S n) us) n)]).
  { rewrite (take_S_r _ (S n) (VFloat (G (take (S n) us) n)))
      by (apply list_lookup_insert_eq; lia).
    now rewrite take_insert_ge by lia. }
  rewrite Htake. now apply Inv_frame.
Qed.

(** The loop with the default [terminate]: it runs to the end of the
    grid, and every entry written is [G] of the entries before it. *)
Lemma loop_history (len : nat) :
  forall (from : nat) (s : attrs) (us : list pyval),
    s !! "u" = Some (VArray us) ->
    s !! "t" = Some (VArray ts) ->
    length us = length ts ->
    (from + len + 1 = length ts)%nat ->
    Inv from (take (S from) us) s ->
    exists us' s',
      time_loop advance never_terminate (seq from len) s = (Ok tt, s')
      /\ s' !! "u" = Some (VArray us')
      /\ s' !! "t" = Some (VArray ts)
      /\ length us' = length ts
      /\ take (S from) us' = take (S from) us
      /\ forall k, (from <= k < from + len)%nat ->
           us' !! S k = Some (VFloat (G (take (S k) us') k)).
Proof.
  induction len as [|len IH]; intros from s us Hu Ht Hlen Hfrom HI.
  - exists us, s. simpl. repeat split; try done. intros k Hk. lia.
  - destruct (step_history s us from Hu Ht Hlen) as (s1 & Hs & Hu1 & Ht1 & HI1);
      [lia|exact HI|].
    set (v := VFloat (G (take (S from) us) from)) in *.
    destruct (IH (S from) s1 (<[S from := v]> us) Hu1 Ht1)
      as (us' & s' & Hloop & Hu' & Ht' & Hlen' & Htake & Hrec).
    { now rewrite length_insert. }
    { lia. }
    { exact HI1. }
    assert (Hpre : take (S from) us' = take (S from) us).
    { transitivity (take (S from) (take (S (S from)) us')).
      - rewrite take_take. now rewrite Nat.min_l by lia.
      - rewrite Htake, take_take, Nat.min_l by lia.
        apply take_insert_ge. lia. }
    exists us', s'. split.
    { change (seq from (S len)) with (from :: seq (S from) len).
      cbn [time_loop]. unfold mbind at 1, M_bind at 1, bind at 1.
      rewrite Hs. run_M. rewrite Ht1. cbn [never_terminate]. exact Hloop. }
    split; [exact Hu'|]. split; [exact Ht'|]. split; [exact Hlen'|].
    split; [exact Hpre|]. intros k Hk.
    destruct (decide (k = from)) as [->|Hne]; [|apply Hrec; lia].
    rewrite Hpre.
    rewrite <- (lookup_take_lt us' (S (S from)) (S from)) by lia.
    rewrite Htake, lookup_take_lt by lia.
    apply list_lookup_insert_eq. lia.
Qed.

End History.

(** [solve] around an [advance] that keeps a history, with the default
    [terminate]. *)
Lemma solve_history (prepare : M unit) (advance : M pyval)
    (validate : M bool) (ts : list pyval) (G : list pyval -> nat -> Q)
    (Inv : nat -> list pyval -> attrs -> Prop)
    (time_points : pyval) (self s1 : attrs) (u0 : Q) (rest : list pyval) :
  (forall n pre s v,
     Inv n pre s ->
     Inv n pre (<["u" := v]> s) /\ Inv n pre (<["n" := v]> s)) ->
  keeps_history advance ts G Inv ->
  asarray time_points = VArray ts ->
  prepare (<["t" := VArray ts]> self) = (Ok tt, s1) ->
  (exists b, validate s1 = (Ok b, s1)) ->
  s1 !! "u" = Some (VArray (VFloat u0 :: rest)) ->
  s1 !! "t" = Some (VArray ts) ->
  (length rest + 1 = length ts)%nat ->
  Inv 0%nat [VFloat u0] s1 ->
  exists us self',
    solve_with prepare advance validate never_terminate time_points self
      = (Ok (VArray us, VArray ts), self')
    /\ length us = length ts
    /\ us !! 0%nat = Some (VFloat u0)
    /\ forall k, (k + 1 < length ts)%nat ->
         us !! S k = Some (VFloat (G (take (S k) us) k)).
Proof.
  intros Hframe Hadv Hts Hprep [b Hval] Hu Ht Hlen HI.
  destruct (loop_history advance ts G Inv Hframe Hadv (length rest) 0 s1
              (VFloat u0 :: rest) Hu Ht)
    as (us & s' & Hloop & Hu' & Ht' & Hlen' & Htake & Hrec);
    [simpl; lia|simpl; lia|exact HI|].
  exists us, s'. split.
  { unfold solve_with. rewrite Hts. run_M. simpl.
    rewrite Hprep, Hval, Ht. simpl.
    replace (length ts - 1)%nat with (length rest) by lia.
    rewrite Hloop. simpl. now rewrite Hu', Ht'. }
  split; [exact Hlen'|]. split.
  { rewrite <- (lookup_take_lt us 1 0) by lia. now rewrite Htake. }
  intros k Hk. apply Hrec. lia.
Qed.

(** [Solver.set_internal_parameters] on a scalar problem: slot 0 of [u]
    holds a float and [u] is as long as the grid. *)
Lemma scalar_prepared (s s1 : attrs) (ts : list pyval) :
  set_internal_parameters s = (Ok tt, s1) ->
  s !! "neq" = Some (VInt 1) ->
  s !! "t" = Some (VArray ts) ->
  exists u0 rest,
    s1 !! "u" = Some (VArray (VFloat u0 :: rest))
    /\ s1 !! "t" = Some (VArray ts)
    /\ (length rest + 1 = length ts)%nat
    /\ forall name, name <> "u" -> name <> "complex_valued" ->
         name <> "dtype" -> s1 !! name = s !! name.
Proof.
  intros H Hneq Ht.
  apply TimeLoopFacts.set_internal_parameters_u in H.
  destruct H as (U0 & t & neq & row & HU & Ht' & Hn & Hrow & Hpos & ->).
  rewrite Ht in Ht'. inversion Ht'; subst t.
  rewrite Hneq in Hn. inversion Hn; subst neq. simpl in Hpos.
  assert (Hfloat : exists u0, row = VFloat u0).
  { unfold initial_row in Hrow. simpl in Hrow. unfold as_float in Hrow.
    destruct U0 as [| | | | | | |[|x [|y l]]| |]; simpl in Hrow;
      try discriminate;
      try (destruct x; simpl in Hrow; try discriminate);
      inversion Hrow; eauto. }
  destruct Hfloat as [u0 ->].
  destruct ts as [|t0 ts]; [simpl in Hpos; lia|].
  exists u0, (replicate (length ts) (zero_slot 1)).
  split; [rewrite lookup_insert_eq; reflexivity|].
  split; [now rewrite !lookup_insert_ne|].
  split; [rewrite length_replicate; simpl; lia|].
  intros name H1 H2 H3. now rewrite !lookup_insert_ne.
Qed.

Lemma nth_app_pre (pre l : list pyval) (k : nat) :
  (k < length pre)%nat -> nth k (pre ++ l) VNone = nth k pre VNone.
Proof. intros H. now apply app_nth1. Qed.

Lemma F_app (f : Q -> Q -> Q) (ts pre l : list pyval) (k : nat) :
  (k < length pre)%nat -> F f ts (pre ++ l) k = F f ts pre k.
Proof. intros H. unfold F. now rewrite nth_app_pre. Qed.

Lemma F_take (f : Q -> Q -> Q) (ts us : list pyval) (n k : nat)
    (uk tk : pyval) :
  (k < n)%nat -> us !! k = Some uk -> ts !! k = Some tk ->
  F f ts (take n us) k = f (num uk) (num tk).
Proof.
  intros Hk Hu Ht. unfold F.
  rewrite (ExplicitFacts.nth_take_lookup us n k uk Hk Hu).
  now rewrite (nth_lookup_Some ts k VNone tk Ht).
Qed.

Lemma history_frame1 (f : Q -> Q -> Q) (ts : list pyval) :
  forall n pre s v,
    history1 f ts n pre s ->
    history1 f ts n pre (<["u" := v]> s)
    /\ history1 f ts n pre (<["n" := v]> s).
Proof.
  intros n pre s v H. unfold history1, holds in *.
  split; intros Hn; rewrite lookup_insert_ne by done; auto.
Qed.

Lemma history_frame2 (f : Q -> Q -> Q) (ts : list pyval) :
  forall n pre s v,
    history2 f ts n pre s ->
    history2 f ts n pre (<["u" := v]> s)
    /\ history2 f ts n pre (<["n" := v]> s).
Proof.
  intros n pre s v [H1 H2]. unfold history2, holds in *.
  split; (split; [intros Hn|intros Hn; split]);
    rewrite lookup_insert_ne by done; auto; now apply H2.
Qed.

Lemma history_frame3 (f : Q -> Q -> Q) (ts : list pyval) :
  forall n pre s v,
    history3 f ts n pre s ->
    history3 f ts n pre (<["u" := v]> s)
    /\ history3 f ts n pre (<["n" := v]> s).
Proof.
  intros n pre s v (H1 & H2 & H3). unfold history3, holds in *.
  split; (split; [intros Hn|split; [intros Hn; split|intros Hn; repeat split]]);
    rewrite lookup_insert_ne by done; auto;
    try (now apply H2); now apply H3.
Qed.

Section Scalar.

Variable f : Q -> Q -> Q.
Variable starter : Q -> Q -> Q -> result Q.
Variable S : Q -> Q -> Q -> Q.
Hypothesis Hstart : forall a b c, starter a b c = Ok (S a b c).

Lemma AdamsBashforth2_history (ts : list pyval) :
  keeps_history (AdamsBashforth2_advance f starter) ts
    (AdamsBashforth2_value f S ts) (history1 f ts).
Proof.
  intros s us n Hu Ht Hn Hlen Hlt HI.
  unfold AdamsBashforth2_advance, store_f, load, start, number. run_M.
  rewrite Hu, Hn, Ht. cbn [index]. rewrite Nat2Z.id.
  unfold getitem. cbn [items].
  destruct (lookup_lt_is_Some_2 ts (n + 1)) as [tn1 E1]; [lia|].
  destruct (lookup_lt_is_Some_2 ts n) as [tn E2]; [lia|].
  destruct (lookup_lt_is_Some_2 us n) as [un E3]; [lia|].
  assert (Hpre : length (take (Datatypes.S n) us) = Datatypes.S n).
  { apply length_take_le. lia. }
  unfold AdamsBashforth2_value, started, dt.
  rewrite (ExplicitFacts.nth_take_lookup us (Datatypes.S n) n un)
    by (lia || done).
  rewrite (nth_lookup_Some ts n VNone tn E2).
  rewrite (nth_lookup_Some ts (n + 1) VNone tn1 E1).
  destruct (1 <=? n)%nat eqn:E.
  - apply Nat.leb_le in E. specialize (HI E). unfold holds in HI.
    rewrite E1, E2, E3. simpl.
    rewrite lookup_insert_eq. simpl.
    rewrite lookup_insert_ne by done. rewrite HI. simpl.
    rewrite (F_take f ts us (Datatypes.S n) n un tn) by (lia || done).
    eexists. split; [reflexivity|].
    split; [now rewrite !lookup_insert_ne|].
    split; [now rewrite !lookup_insert_ne|].
    intros _. unfold holds. rewrite lookup_insert_eq.
    replace (Datatypes.S n - 1)%nat with n by lia.
    rewrite F_app by lia.
    now rewrite (F_take f ts us (Datatypes.S n) n un tn) by (lia || done).
  - apply Nat.leb_gt in E. assert (n = 0%nat) as -> by lia.
    rewrite E3, E2, E1. simpl. rewrite Hstart. simpl.
    eexists. split; [reflexivity|].
    split; [now rewrite !lookup_insert_ne|].
    split; [now rewrite !lookup_insert_ne|].
    intros _. unfold holds. rewrite lookup_insert_eq.
    rewrite F_app by (simpl; lia). change (1 - 1)%nat with 0%nat.
    now rewrite (F_take f ts us 1 0 un tn) by (lia || done).
Qed.

Lemma AdamsBashforth3_history (ts : list pyval) :
  keeps_history (AdamsBashforth3_advance f starter) ts
    (AdamsBashforth3_value f S ts) (history2 f ts).
Proof.
  intros s us n Hu Ht Hn Hlen Hlt [HI1 HI2].
  unfold AdamsBashforth3_advance, store_f, load, start, number. run_M.
  rewrite Hu, Hn, Ht. cbn [index]. rewrite Nat2Z.id.
  unfold getitem. cbn [items].
  destruct (lookup_lt_is_Some_2 ts (n + 1)) as [tn1 E1]; [lia|].
  destruct (lookup_lt_is_Some_2 ts n) as [tn E2]; [lia|].
  destruct (lookup_lt_is_Some_2 us n) as [un E3]; [lia|].
  assert (Hpre : length (take (Datatypes.S n) us) = Datatypes.S n).
  { apply length_take_le. lia. }
  unfold AdamsBashforth3_value, started, dt.
  rewrite (ExplicitFacts.nth_take_lookup us (Datatypes.S n) n un)
    by (lia || done).
  rewrite (nth_lookup_Some ts n VNone tn E2).
  rewrite (nth_lookup_Some ts (n + 1) VNone tn1 E1).
  destruct (2 <=? n)%nat eqn:E.
  - apply Nat.leb_le in E. destruct (HI2 E) as [H1 H2].
    unfold holds in H1, H2.
    rewrite E1, E2, E3. simpl.
    repeat (first [rewrite lookup_insert_eq
                  |rewrite lookup_insert_ne by done
                  |rewrite H1|rewrite H2]; simpl).
    rewrite (F_take f ts us (Datatypes.S n) n un tn) by (lia || done).
    eexists. split; [reflexivity|].
    split; [now rewrite !lookup_insert_ne|].
    split; [now rewrite !lookup_insert_ne|].
    split; [intros Hc; lia|]. intros _. unfold holds.
    rewrite !F_app by lia.
    replace (Datatypes.S n - 1)%nat with n by lia.
    replace (Datatypes.S n - 2)%nat with (n - 1)%nat by lia.
    rewrite (F_take f ts us (Datatypes.S n) n un tn) by (lia || done).
    split.
    + rewrite !lookup_insert_ne by done. apply lookup_insert_eq.
    + rewrite lookup_insert_ne by done. apply lookup_insert_eq.
  - apply Nat.leb_gt in E.
    rewrite E3, E2, E1. simpl. rewrite Hstart. simpl.
    destruct n as [|[|n]]; [| |lia]; cbn [Nat.eqb].
    + rewrite E3, E2. simpl.
      eexists. split; [reflexivity|].
      split; [now rewrite !lookup_insert_ne|].
      split; [now rewrite !lookup_insert_ne|].
      split; [|intros Hc; lia]. intros _. unfold holds.
      rewrite lookup_insert_eq. rewrite F_app by (simpl; lia).
      now rewrite (F_take f ts us 1 0 un tn) by (lia || done).
    + rewrite E3, E2. simpl.
      eexists. split; [reflexivity|].
      split; [now rewrite !lookup_insert_ne|].
      split; [now rewrite !lookup_insert_ne|].
      split; [intros Hc; lia|]. intros _. unfold holds.
      rewrite !F_app by lia. change (2 - 1)%nat with 1%nat.
      change (2 - 2)%nat with 0%nat.
      rewrite (F_take f ts us 2 1 un tn) by (lia || done).
      split; [apply lookup_insert_eq|].
      rewrite lookup_insert_ne by done. now apply HI1.
Qed.

Lemma AdamsBashMoulton2_history (ts : list pyval) :
  keeps_history (AdamsBashMoulton2_advance f starter) ts
    (AdamsBashMoulton2_value f S ts) (history2 f ts).
Proof.
  intros s us n Hu Ht Hn Hlen Hlt [HI1 HI2].
  unfold AdamsBashMoulton2_advance, store_f, load, start, number. run_M.
  rewrite Hu, Hn, Ht. cbn [index]. rewrite Nat2Z.id.
  unfold getitem. cbn [items].
  destruct (lookup_lt_is_Some_2 ts (n + 1)) as [tn1 E1]; [lia|].
  destruct (lookup_lt_is_Some_2 ts n) as [tn E2]; [lia|].
  destruct (lookup_lt_is_Some_2 us n) as [un E3]; [lia|].
  assert (Hpre : length (take (Datatypes.S n) us) = Datatypes.S n).
  { apply length_take_le. lia. }
  unfold AdamsBashMoulton2_value, AdamsBashforth3_value, started, dt.
  rewrite (ExplicitFacts.nth_take_lookup us (Datatypes.S n) n un)
    by (lia || done).
  rewrite (nth_lookup_Some ts n VNone tn E2).
  rewrite (nth_lookup_Some ts (n + 1) VNone tn1 E1).
  destruct (2 <=? n)%nat eqn:E.
  - apply Nat.leb_le in E. destruct (HI2 E) as [H1 H2].
    unfold holds in H1, H2.
    rewrite E1, E2, E3. simpl.
    repeat (first [rewrite lookup_insert_eq
                  |rewrite lookup_insert_ne by done
                  |rewrite H1|rewrite H2|rewrite E1]; simpl).
    rewrite (F_take f ts us (Datatypes.S n) n un tn) by (lia || done).
    eexists. split; [reflexivity|].
    split; [now rewrite !lookup_insert_ne|].
    split; [now rewrite !lookup_insert_ne|].
    split; [intros Hc; lia|]. intros _. unfold holds.
    rewrite !F_app by lia.
    replace (Datatypes.S n - 1)%nat with n by lia.
    replace (Datatypes.S n - 2)%nat with (n - 1)%nat by lia.
    rewrite (F_take f ts us (Datatypes.S n) n un tn) by (lia || done).
    split.
    + rewrite !lookup_insert_ne by done. apply lookup_insert_eq.
    + apply lookup_insert_eq.
  - apply Nat.leb_gt in E.
    rewrite E3, E2, E1. simpl. rewrite Hstart. simpl.
    destruct n as [|[|n]]; [| |lia]; cbn [Nat.eqb].
    + rewrite E3, E2. simpl.
      eexists. split; [reflexivity|].
      split; [now rewrite !lookup_insert_ne|].
      split; [now rewrite !lookup_insert_ne|].
      split; [|intros Hc; lia]. intros _. unfold holds.
      rewrite lookup_insert_eq. rewrite F_app by (simpl; lia).
      now rewrite (F_take f ts us 1 0 un tn) by (lia || done).
    + rewrite E3, E2. simpl.
      eexists. split; [reflexivity|].
      split; [now rewrite !lookup_insert_ne|].
      split; [now rewrite !lookup_insert_ne|].
      split; [intros Hc; lia|]. intros _. unfold holds.
      rewrite !F_app by lia. change (2 - 1)%nat with 1%nat.
      change (2 - 2)%nat with 0%nat.
      rewrite (F_take f ts us 2 1 un tn) by (lia || done).
      split; [apply lookup_insert_eq|].
      rewrite lookup_insert_ne by done. now apply HI1.
Qed.

Lemma AdamsBashforth4_history (ts : list pyval) :
  keeps_history (AdamsBashforth4_advance f starter) ts
    (AdamsBashforth4_value f S ts) (history3 f ts).
Proof.
  intros s us n Hu Ht Hn Hlen Hlt (HI1 & HI2 & HI3).
  unfold AdamsBashforth4_advance, store_f, load, start, number. run_M.
  rewrite Hu, Hn, Ht. cbn [index]. rewrite Nat2Z.id.
  unfold getitem. cbn [items].
  destruct (lookup_lt_is_Some_2 ts (n + 1)) as [tn1 E1]; [lia|].
  destruct (lookup_lt_is_Some_2 ts n) as [tn E2]; [lia|].
  destruct (lookup_lt_is_Some_2 us n) as [un E3]; [lia|].
  assert (Hpre : length (take (Datatypes.S n) us) = Datatypes.S n).
  { apply length_take_le. lia. }
  unfold AdamsBashforth4_value, started, dt.
  rewrite (ExplicitFacts.nth_take_lookup us (Datatypes.S n) n un)
    by (lia || done).
  rewrite (nth_lookup_Some ts n VNone tn E2).
  rewrite (nth_lookup_Some ts (n + 1) VNone tn1 E1).
  destruct (3 <=? n)%nat eqn:E.
  - apply Nat.leb_le in E. destruct (HI3 E) as (H1 & H2 & H3).
    unfold holds in H1, H2, H3.
    rewrite E1, E2, E3. simpl.
    repeat (first [rewrite lookup_insert_eq
                  |rewrite lookup_insert_ne by done
                  |rewrite H1|rewrite H2|rewrite H3]; simpl).
    rewrite (F_take f ts us (Datatypes.S n) n un tn) by (lia || done).
    eexists. split; [reflexivity|].
    split; [now rewrite !lookup_insert_ne|].
    split; [now rewrite !lookup_insert_ne|].
    split; [intros Hc; lia|]. split; [intros Hc; lia|].
    intros _. unfold holds.
    rewrite !F_app by lia.
    replace (Datatypes.S n - 1)%nat with n by lia.
    replace (Datatypes.S n - 2)%nat with (n - 1)%nat by lia.
    replace (Datatypes.S n - 3)%nat with (n - 2)%nat by lia.
    rewrite (F_take f ts us (Datatypes.S n) n un tn) by (lia || done).
    split; [|split].
    + rewrite !lookup_insert_ne by done. apply lookup_insert_eq.
    + rewrite lookup_insert_ne by done. apply lookup_insert_eq.
    + apply lookup_insert_eq.
  - apply Nat.leb_gt in E.
    rewrite E3, E2, E1. simpl. rewrite Hstart. simpl.
    destruct n as [|[|[|n]]]; [| | |lia]; cbn [Nat.eqb].
    + rewrite E3, E2. simpl.
      eexists. split; [reflexivity|].
      split; [now rewrite !lookup_insert_ne|].
      split; [now rewrite !lookup_insert_ne|].
      split; [|split; intros Hc; lia]. intros _. unfold holds.
      rewrite lookup_insert_eq. rewrite F_app by (simpl; lia).
      now rewrite (F_take f ts us 1 0 un tn) by (lia || done).
    + rewrite E3, E2. simpl.
      eexists. split; [reflexivity|].
      split; [now rewrite !lookup_insert_ne|].
      split; [now rewrite !lookup_insert_ne|].
      split; [intros Hc; lia|]. split; [|intros Hc; lia].
      intros _. unfold holds. rewrite !F_app by lia.
      rewrite (F_take f ts us 2 1 un tn) by (lia || done).
      split; [|apply lookup_insert_eq].
      rewrite lookup_insert_ne by done. now apply HI1.
    + rewrite E3, E2. simpl.
      eexists. split; [reflexivity|].
      split; [now rewrite !lookup_insert_ne|].
      split; [now rewrite !lookup_insert_ne|].
      split; [intros Hc; lia|]. split; [intros Hc; lia|].
      intros _. unfold holds. rewrite !F_app by lia.
      change (3 - 1)%nat with 2%nat. change (3 - 2)%nat with 1%nat.
      change (3 - 3)%nat with 0%nat.
      rewrite (F_take f ts us 3 2 un tn) by (lia || done).
      destruct (HI2 eq_refl) as [H3 H2]. unfold holds in H2, H3.
      split; [apply lookup_insert_eq|].
      split; now rewrite lookup_insert_ne by done.
Qed.

Lemma AdamsBashMoulton3_history (ts : list pyval) :
  keeps_history (AdamsBashMoulton3_advance f starter) ts
    (AdamsBashMoulton3_value f S ts) (history3 f ts).
Proof.
  intros s us n Hu Ht Hn Hlen Hlt (HI1 & HI2 & HI3).
  unfold AdamsBashMoulton3_advance, store_f, load, start, number. run_M.
  rewrite Hu, Hn, Ht. cbn [index]. rewrite Nat2Z.id.
  unfold getitem. cbn [items].
  destruct (lookup_lt_is_Some_2 ts (n + 1)) as [tn1 E1]; [lia|].
  destruct (lookup_lt_is_Some_2 ts n) as [tn E2]; [lia|].
  destruct (lookup_lt_is_Some_2 us n) as [un E3]; [lia|].
  assert (Hpre : length (take (Datatypes.S n) us) = Datatypes.S n).
  { apply length_take_le. lia. }
  unfold AdamsBashMoulton3_value, AdamsBashforth4_value, started, dt.
  rewrite (ExplicitFacts.nth_take_lookup us (Datatypes.S n) n un)
    by (lia || done).
  rewrite (nth_lookup_Some ts n VNone tn E2).
  rewrite (nth_lookup_Some ts (n + 1) VNone tn1 E1).
  destruct (3 <=? n)%nat eqn:E.
  - apply Nat.leb_le in E. destruct (HI3 E) as (H1 & H2 & H3).
    unfold holds in H1, H2, H3.
    rewrite E1, E2, E3. simpl.
    repeat (first [rewrite lookup_insert_eq
                  |rewrite lookup_insert_ne by done
                  |rewrite H1|rewrite H2|rewrite H3|rewrite E1]; simpl).
    rewrite (F_take f ts us (Datatypes.S n) n un tn) by (lia || done).
    eexists. split; [reflexivity|].
    split; [now rewrite !lookup_insert_ne|].
    split; [now rewrite !lookup_insert_ne|].
    split; [intros Hc; lia|]. split; [intros Hc; lia|].
    intros _. unfold holds.
    rewrite !F_app by lia.
    replace (Datatypes.S n - 1)%nat with n by lia.
    replace (Datatypes.S n - 2)%nat with (n - 1)%nat by lia.
    replace (Datatypes.S n - 3)%nat with (n - 2)%nat by lia.
    rewrite (F_take f ts us (Datatypes.S n) n un tn) by (lia || done).
    split; [|split].
    + rewrite !lookup_insert_ne by done. apply lookup_insert_eq.
    + rewrite lookup_insert_ne by done. apply lookup_insert_eq.
    + apply lookup_insert_eq.
  - apply Nat.leb_gt in E.
    rewrite E3, E2, E1. simpl. rewrite Hstart. simpl.
    destruct n as [|[|[|n]]]; [| | |lia]; cbn [Nat.eqb].
    + rewrite E3, E2. simpl.
      eexists. split; [reflexivity|].
      split; [now rewrite !lookup_insert_ne|].
      split; [now rewrite !lookup_insert_ne|].
      split; [|split; intros Hc; lia]. intros _. unfold holds.
      rewrite lookup_insert_eq. rewrite F_app by (simpl; lia).
      now rewrite (F_take f ts us 1 0 un tn) by (lia || done).
    + rewrite E3, E2. simpl.
      eexists. split; [reflexivity|].
      split; [now rewrite !lookup_insert_ne|].
      split; [now rewrite !lookup_insert_ne|].
      split; [intros Hc; lia|]. split; [|intros Hc; lia].
      intros _. unfold holds. rewrite !F_app by lia.
      rewrite (F_take f ts us 2 1 un tn) by (lia || done).
      split; [|apply lookup_insert_eq].
      rewrite lookup_insert_ne by done. now apply HI1.
    + rewrite E3, E2. simpl.
      eexists. split; [reflexivity|].
      split; [now rewrite !lookup_insert_ne|].
      split; [now rewrite !lookup_insert_ne|].
      split; [intros Hc; lia|]. split; [intros Hc; lia|].
      intros _. unfold holds. rewrite !F_app by lia.
      change (3 - 1)%nat with 2%nat. change (3 - 2)%nat with 1%nat.
      change (3 - 3)%nat with 0%nat.
      rewrite (F_take f ts us 3 2 un tn) by (lia || done).
      destruct (HI2 eq_refl) as [H3 H2]. unfold holds in H2, H3.
      split; [apply lookup_insert_eq|].
      split; now rewrite lookup_insert_ne by done.
Qed.

Lemma history1_start (ts : list pyval) (u0 : Q) (s : attrs) :
  history1 f ts 0 [VFloat u0] s.
Proof. intros H. lia. Qed.

Lemma history2_start (ts : list pyval) (u0 : Q) (s : attrs) :
  history2 f ts 0 [VFloat u0] s.
Proof. unfold history2. repeat split; intros; lia. Qed.

Lemma history3_start (ts : list pyval) (u0 : Q) (s : attrs) :
  history3 f ts 0 [VFloat u0] s.
Proof. unfold history3. repeat split; intros; lia. Qed.

End Scalar.

(** Closes a [solve] theorem of the family: [Hprep] is the run of the
    class's [set_internal_parameters] written as a run of the method of
    [Solver]. *)
Ltac adams_solve ts Hprep Hneq Hts Hval Hframe Hhist Hstart0 :=
  let u0 := fresh "u0" in
  let rest := fresh "rest" in
  let Hu := fresh "Hu" in
  let Ht := fresh "Ht" in
  let Hlen := fresh "Hlen" in
  let Hsip := fresh "Hsip" in
  let Hsolve := fresh "Hsolve" in
  pose proof Hprep as Hsip;
  unfold AdamsBashforth2_set_internal_parameters,
         AdamsBashforth3_set_internal_parameters,
         AdamsBashMoulton2_set_internal_parameters,
         AdamsBashforth4_set_internal_parameters,
         AdamsBashMoulton3_set_internal_parameters in Hsip;
  run_M; simpl in Hsip;
  apply scalar_prepared with (ts := ts) in Hsip;
  [|now rewrite !lookup_insert_ne
   |rewrite !lookup_insert_ne by done; apply lookup_insert_eq];
  destruct Hsip as (u0 & rest & Hu & Ht & Hlen & _);
  pose proof (solve_history _ _ _ ts _ _ _ _ _ u0 rest
                Hframe Hhist Hts Hprep Hval Hu Ht Hlen (Hstart0 ts u0 _))
    as Hsolve;
  destruct Hsolve as (? & ? & ? & ? & ? & ?);
  do 3 eexists; split; [eassumption|]; split; [eassumption|];
  split; eassumption.

(** X12. [solve] with [AdamsBashforth2] and the default [terminate], on a
    scalar problem: the arrays returned have the length of the grid, the
    first step is the start method's, and every later entry is the
    formula of the class,
    [u[n+1] = u[n] + dt/2*(3*f(u[n], t[n]) - f(u[n-1], t[n-1]))]: the
    attribute [f_n_1] holds [f(u[n-1], t[n-1])] whenever it is read. *)
Theorem AdamsBashforth2_solve (f : Q -> Q -> Q)
    (starter : Q -> Q -> Q -> result Q) (S : Q -> Q -> Q -> Q)
    (validate : M bool) (time_points : pyval) (self s1 : attrs)
    (ts : list pyval) :
  (forall a b c, starter a b c = Ok (S a b c)) ->
  self !! "neq" = Some (VInt 1) ->
  asarray time_points = VArray ts ->
  AdamsBashforth2_set_internal_parameters (<["t" := VArray ts]> self)
    = (Ok tt, s1) ->
  (exists b, validate s1 = (Ok b, s1)) ->
  exists us self' u0,
    solve_with AdamsBashforth2_set_internal_parameters
      (AdamsBashforth2_advance f starter) validate never_terminate
      time_points self
      = (Ok (VArray us, VArray ts), self')
    /\ length us = length ts
    /\ us !! 0%nat = Some (VFloat u0)
    /\ forall k, (k + 1 < length ts)%nat ->
         us !! Datatypes.S k
         = Some (VFloat (AdamsBashforth2_value f S ts
                           (take (Datatypes.S k) us) k)).
Proof.
  intros Hstart Hneq Hts Hprep Hval.
  adams_solve ts Hprep Hneq Hts Hval (history_frame1 f ts)
    (AdamsBashforth2_history f starter S Hstart ts) (history1_start f).
Qed.

(** X13. [solve] with [AdamsBashforth3]: after two steps of the start
    method every entry is
    [u[n] + dt/12*(23*f(u[n], t[n]) - 16*f(u[n-1], t[n-1])
                   + 5*f(u[n-2], t[n-2]))];
    [f_n_1] and [f_n_2] hold the right-hand side at the last two points
    whenever they are read. *)
Theorem AdamsBashforth3_solve (f : Q -> Q -> Q)
    (starter : Q -> Q -> Q -> result Q) (S : Q -> Q -> Q -> Q)
    (validate : M bool) (time_points : pyval) (self s1 : attrs)
    (ts : list pyval) :
  (forall a b c, starter a b c = Ok (S a b c)) ->
  self !! "neq" = Some (VInt 1) ->
  asarray time_points = VArray ts ->
  AdamsBashforth3_set_internal_parameters (<["t" := VArray ts]> self)
    = (Ok tt, s1) ->
  (exists b, validate s1 = (Ok b, s1)) ->
  exists us self' u0,
    solve_with AdamsBashforth3_set_internal_parameters
      (AdamsBashforth3_advance f starter) validate never_terminate
      time_points self
      = (Ok (VArray us, VArray ts), self')
    /\ length us = length ts
    /\ us !! 0%nat = Some (VFloat u0)
    /\ forall k, (k + 1 < length ts)%nat ->
         us !! Datatypes.S k
         = Some (VFloat (AdamsBashforth3_value f S ts
                           (take (Datatypes.S k) us) k)).
Proof.
  intros Hstart Hneq Hts Hprep Hval.
  adams_solve ts Hprep Hneq Hts Hval (history_frame2 f ts)
    (AdamsBashforth3_history f starter S Hstart ts) (history2_start f).
Qed.

(** X14. [solve] with [AdamsBashforth4]: after three steps of the start
    method every entry is
    [u[n] + dt/24*(55*f(u[n], t[n]) - 59*f(u[n-1], t[n-1])
                   + 37*f(u[n-2], t[n-2]) - 9*f(u[n-3], t[n-3]))]. *)
Theorem AdamsBashforth4_solve (f : Q -> Q -> Q)
    (starter : Q -> Q -> Q -> result Q) (S : Q -> Q -> Q -> Q)
    (validate : M bool) (time_points : pyval) (self s1 : attrs)
    (ts : list pyval) :
  (forall a b c, starter a b c = Ok (S a b c)) ->
  self !! "neq" = Some (VInt 1) ->
  asarray time_points = VArray ts ->
  AdamsBashforth4_set_internal_parameters (<["t" := VArray ts]> self)
    = (Ok tt, s1) ->
  (exists b, validate s1 = (Ok b, s1)) ->
  exists us self' u0,
    solve_with AdamsBashforth4_set_internal_parameters
      (AdamsBashforth4_advance f starter) validate never_terminate
      time_points self
      = (Ok (VArray us, VArray ts), self')
    /\ length us = length ts
    /\ us !! 0%nat = Some (VFloat u0)
    /\ forall k, (k + 1 < length ts)%nat ->
         us !! Datatypes.S k
         = Some (VFloat (AdamsBashforth4_value f S ts
                           (take (Datatypes.S k) us) k)).
Proof.
  intros Hstart Hneq Hts Hprep Hval.
  adams_solve ts Hprep Hneq Hts Hval (history_frame3 f ts)
    (AdamsBashforth4_history f starter S Hstart ts) (history3_start f).
Qed.

(** X15. [solve] with [AdamsBashMoulton2]: after two steps of the start
    method every entry is the corrector
    [u[n] + dt/12*(8*f(u[n], t[n]) - f(u[n-1], t[n-1])
                   + 5*f(predictor, t[n+1]))]
    with the third-order Adams-Bashforth value as predictor. *)
Theorem AdamsBashMoulton2_solve (f : Q -> Q -> Q)
    (starter : Q -> Q -> Q -> result Q) (S : Q -> Q -> Q -> Q)
    (validate : M bool) (time_points : pyval) (self s1 : attrs)
    (ts : list pyval) :
  (forall a b c, starter a b c = Ok (S a b c)) ->
  self !! "neq" = Some (VInt 1) ->
  asarray time_points = VArray ts ->
  AdamsBashMoulton2_set_internal_parameters (<["t" := VArray ts]> self)
    = (Ok tt, s1) ->
  (exists b, validate s1 = (Ok b, s1)) ->
  exists us self' u0,
    solve_with AdamsBashMoulton2_set_internal_parameters
      (AdamsBashMoulton2_advance f starter) validate never_terminate
      time_points self
      = (Ok (VArray us, VArray ts), self')
    /\ length us = length ts
    /\ us !! 0%nat = Some (VFloat u0)
    /\ forall k, (k + 1 < length ts)%nat ->
         us !! Datatypes.S k
         = Some (VFloat (AdamsBashMoulton2_value f S ts
                           (take (Datatypes.S k) us) k)).
Proof.
  intros Hstart Hneq Hts Hprep Hval.
  adams_solve ts Hprep Hneq Hts Hval (history_frame2 f ts)
    (AdamsBashMoulton2_history f starter S Hstart ts) (history2_start f).
Qed.

(** X16. [solve] with [AdamsBashMoulton3]: after three steps of the start
    method every entry is the corrector
    [u[n] + dt/24*(f(u[n-2], t[n-2]) - 5*f(u[n-1], t[n-1])
                   + 19*f(u[n], t[n]) + 9*f(predictor, t[n+1]))]
    with the fourth-order Adams-Bashforth value as predictor. *)
Theorem AdamsBashMoulton3_solve (f : Q -> Q -> Q)
    (starter : Q -> Q -> Q -> result Q) (S : Q -> Q -> Q -> Q)
    (validate : M bool) (time_points : pyval) (self s1 : attrs)
    (ts : list pyval) :
  (forall a b c, starter a b c = Ok (S a b c)) ->
  self !! "neq" = Some (VInt 1) ->
  asarray time_points = VArray ts ->
  AdamsBashMoulton3_set_internal_parameters (<["t" := VArray ts]> self)
    = (Ok tt, s1) ->
  (exists b, validate s1 = (Ok b, s1)) ->
  exists us self' u0,
    solve_with AdamsBashMoulton3_set_internal_parameters
      (AdamsBashMoulton3_advance f starter) validate never_terminate
      time_points self
      = (Ok (VArray us, VArray ts), self')
    /\ length us = length ts
    /\ us !! 0%nat = Some (VFloat u0)
    /\ forall k, (k + 1 < length ts)%nat ->
         us !! Datatypes.S k
         = Some (VFloat (AdamsBashMoulton3_value f S ts
                           (take (Datatypes.S k) us) k)).
Proof.
  intros Hstart Hneq Hts Hprep Hval.
  adams_solve ts Hprep Hneq Hts Hval (history_frame3 f ts)
    (AdamsBashMoulton3_history f starter S Hstart ts) (history3_start f).
Qed.

Lemma Multistep_validate_data_state (s : attrs) :
  snd (Multistep.validate_data s) = s.
Proof.
  unfold Multistep.validate_data, Multistep.constant_time_step. run_M.
  destruct (s !! "t") as [t|]; [|done]. simpl.
  destruct (getitem t 0); [|done]. simpl.
  destruct (getlast t); [|done]. simpl.
  destruct (items t); [|done]. simpl.
  destruct (negb _); [|done]. now destruct (s !! "__name__").
Qed.

(** The theorem for [u' = -u], [U0 = 1.0], the start method [RK2] and the
    grid [0, 0.5, 1, 1.5, 2, 2.5]. *)
Lemma AdamsBashforth2_solve_witness :
  exists us self' u0,
    solve_with AdamsBashforth2_set_internal_parameters
      (AdamsBashforth2_advance decay AdamsExamples.RK2_starter)
      Multistep.validate_data never_terminate
      (VList AdamsExamples.grid_six) AdamsExamples.Adams_decay
      = (Ok (VArray us, VArray AdamsExamples.grid_six), self')
    /\ length us = length AdamsExamples.grid_six
    /\ us !! 0%nat = Some (VFloat u0)
    /\ forall k, (k + 1 < length AdamsExamples.grid_six)%nat ->
         us !! Datatypes.S k
         = Some (VFloat (AdamsBashforth2_value decay (RK2_unew decay)
                           AdamsExamples.grid_six
                           (take (Datatypes.S k) us) k)).
Proof.
  pose (s1 := snd (AdamsBashforth2_set_internal_parameters
                     (<["t" := VArray AdamsExamples.grid_six]>
                        AdamsExamples.Adams_decay))).
  apply (AdamsBashforth2_solve decay AdamsExamples.RK2_starter
           (RK2_unew decay) Multistep.validate_data
           (VList AdamsExamples.grid_six) AdamsExamples.Adams_decay s1).
  - reflexivity.
  - vm_compute. reflexivity.
  - reflexivity.
  - apply ConfigMore.run_of_fst. vm_compute. reflexivity.
  - exists true. rewrite <- (Multistep_validate_data_state s1) at 2.
    apply ConfigMore.run_of_fst. vm_compute. reflexivity.
Defined.

Lemma AdamsBashforth3_solve_witness :
  exists us self' u0,
    solve_with AdamsBashforth3_set_internal_parameters
      (AdamsBashforth3_advance decay AdamsExamples.RK2_starter)
      Multistep.validate_data never_terminate
      (VList AdamsExamples.grid_six) AdamsExamples.Adams_decay
      = (Ok (VArray us, VArray AdamsExamples.grid_six), self')
    /\ length us = length AdamsExamples.grid_six
    /\ us !! 0%nat = Some (VFloat u0)
    /\ forall k, (k + 1 < length AdamsExamples.grid_six)%nat ->
         us !! Datatypes.S k
         = Some (VFloat (AdamsBashforth3_value decay (RK2_unew decay)
                           AdamsExamples.grid_six
                           (take (Datatypes.S k) us) k)).
Proof.
  pose (s1 := snd (AdamsBashforth3_set_internal_parameters
                     (<["t" := VArray AdamsExamples.grid_six]>
                        AdamsExamples.Adams_decay))).
  apply (AdamsBashforth3_solve decay AdamsExamples.RK2_starter
           (RK2_unew decay) Multistep.validate_data
           (VList AdamsExamples.grid_six) AdamsExamples.Adams_decay s1).
  - reflexivity.
  - vm_compute. reflexivity.
  - reflexivity.
  - apply ConfigMore.run_of_fst. vm_compute. reflexivity.
  - exists true. rewrite <- (Multistep_validate_data_state s1) at 2.
    apply ConfigMore.run_of_fst. vm_compute. reflexivity.
Defined.

Lemma AdamsBashforth4_solve_witness :
  exists us self' u0,
    solve_with AdamsBashforth4_set_internal_parameters
      (AdamsBashforth4_advance decay AdamsExamples.RK2_starter)
      Multistep.validate_data never_terminate
      (VList AdamsExamples.grid_six) AdamsExamples.Adams_decay
      = (Ok (VArray us, VArray AdamsExamples.grid_six), self')
    /\ length us = length AdamsExamples.grid_six
    /\ us !! 0%nat = Some (VFloat u0)
    /\ forall k, (k + 1 < length AdamsExamples.grid_six)%nat ->
         us !! Datatypes.S k
         = Some (VFloat (AdamsBashforth4_value decay (RK2_unew decay)
                           AdamsExamples.grid_six
                           (take (Datatypes.S k) us) k)).
Proof.
  pose (s1 := snd (AdamsBashforth4_set_internal_parameters
                     (<["t" := VArray AdamsExamples.grid_six]>
                        AdamsExamples.Adams_decay))).
  apply (AdamsBashforth4_solve decay AdamsExamples.RK2_starter
           (RK2_unew decay) Multistep.validate_data
           (VList AdamsExamples.grid_six) AdamsExamples.Adams_decay s1).
  - reflexivity.
  - vm_compute. reflexivity.
  - reflexivity.
  - apply ConfigMore.run_of_fst. vm_compute. reflexivity.
  - exists true. rewrite <- (Multistep_validate_data_state s1) at 2.
    apply ConfigMore.run_of_fst. vm_compute. reflexivity.
Defined.

Lemma AdamsBashMoulton2_solve_witness :
  exists us self' u0,
    solve_with AdamsBashMoulton2_set_internal_parameters
      (AdamsBashMoulton2_advance decay AdamsExamples.RK2_starter)
      Multistep.validate_data never_terminate
      (VList AdamsExamples.grid_six) AdamsExamples.Adams_decay
      = (Ok (VArray us, VArray AdamsExamples.grid_six), self')
    /\ length us = length AdamsExamples.grid_six
    /\ us !! 0%nat = Some (VFloat u0)
    /\ forall k, (k + 1 < length AdamsExamples.grid_six)%nat ->
         us !! Datatypes.S k
         = Some (VFloat (AdamsBashMoulton2_value decay (RK2_unew decay)
                           AdamsExamples.grid_six
                           (take (Datatypes.S k) us) k)).
Proof.
  pose (s1 := snd (AdamsBashMoulton2_set_internal_parameters
                     (<["t" := VArray AdamsExamples.grid_six]>
                        AdamsExamples.Adams_decay))).
  apply (AdamsBashMoulton2_solve decay AdamsExamples.RK2_starter
           (RK2_unew decay) Multistep.validate_data
           (VList AdamsExamples.grid_six) AdamsExamples.Adams_decay s1).
  - reflexivity.
  - vm_compute. reflexivity.
  - reflexivity.
  - apply ConfigMore.run_of_fst. vm_compute. reflexivity.
  - exists true. rewrite <- (Multistep_validate_data_state s1) at 2.
    apply ConfigMore.run_of_fst. vm_compute. reflexivity.
Defined.

Lemma AdamsBashMoulton3_solve_witness :
  exists us self' u0,
    solve_with AdamsBashMoulton3_set_internal_parameters
      (AdamsBashMoulton3_advance decay AdamsExamples.RK2_starter)
      Multistep.validate_data never_terminate
      (VList AdamsExamples.grid_six) AdamsExamples.Adams_decay
      = (Ok (VArray us, VArray AdamsExamples.grid_six), self')
    /\ length us = length AdamsExamples.grid_six
    /\ us !! 0%nat = Some (VFloat u0)
    /\ forall k, (k + 1 < length AdamsExamples.grid_six)%nat ->
         us !! Datatypes.S k
         = Some (VFloat (AdamsBashMoulton3_value decay (RK2_unew decay)
                           AdamsExamples.grid_six
                           (take (Datatypes.S k) us) k)).
Proof.
  pose (s1 := snd (AdamsBashMoulton3_set_internal_parameters
                     (<["t" := VArray AdamsExamples.grid_six]>
                        AdamsExamples.Adams_decay))).
  apply (AdamsBashMoulton3_solve decay AdamsExamples.RK2_starter
           (RK2_unew decay) Multistep.validate_data
           (VList AdamsExamples.grid_six) AdamsExamples.Adams_decay s1).
  - reflexivity.
  - vm_compute. reflexivity.
  - reflexivity.
  - apply ConfigMore.run_of_fst. vm_compute. reflexivity.
  - exists true. rewrite <- (Multistep_validate_data_state s1) at 2.
    apply ConfigMore.run_of_fst. vm_compute. reflexivity.
Defined.

(** X17. When the right-hand side depends on [t] only and the last steps
    of the grid have the same length [h], the formulas of the family add
    the exact integral over the next step: for polynomials of degree at
    most 1 with [AdamsBashforth2], of degree at most 2 with
    [AdamsBashforth3] and [AdamsBashMoulton2], and of degree at most 3
    with [AdamsBashforth4] and [AdamsBashMoulton3]. *)
Theorem Adams_quadrature (a b c d tn h : Q) (S : Q -> Q -> Q -> Q)
    (ts computed : list pyval) (n : nat) :
  (3 <= n)%nat ->
  (num (nth (n + 1) ts VNone) == tn + h)%Q ->
  (num (nth n ts VNone) == tn)%Q ->
  (num (nth (n - 1) ts VNone) == tn - h)%Q ->
  (num (nth (n - 2) ts VNone) == tn - 2 * h)%Q ->
  (num (nth (n - 3) ts VNone) == tn - 3 * h)%Q ->
  let linear := fun (u t : Q) => (a + b * t)%Q in
  let quadratic := fun (u t : Q) => (a + b * t + c * t ^ 2)%Q in
  let cubic := fun (u t : Q) => (a + b * t + c * t ^ 2 + d * t ^ 3)%Q in
  let P := fun t : Q =>
    (a * t + b * t ^ 2 / 2 + c * t ^ 3 / 3 + d * t ^ 4 / 4)%Q in
  let P2 := fun t : Q => (a * t + b * t ^ 2 / 2 + c * t ^ 3 / 3)%Q in
  let P1 := fun t : Q => (a * t + b * t ^ 2 / 2)%Q in
  let un := num (nth n computed VNone) in
  (AdamsBashforth2_value linear S ts computed n
   == un + (P1 (tn + h) - P1 tn))%Q
  /\ (AdamsBashforth3_value quadratic S ts computed n
      == un + (P2 (tn + h) - P2 tn))%Q
  /\ (AdamsBashMoulton2_value quadratic S ts computed n
      == un + (P2 (tn + h) - P2 tn))%Q
  /\ (AdamsBashforth4_value cubic S ts computed n
      == un + (P (tn + h) - P tn))%Q
  /\ (AdamsBashMoulton3_value cubic S ts computed n
      == un + (P (tn + h) - P tn))%Q.
Proof.
  intros Hn H1 H0 Hm1 Hm2 Hm3. cbv zeta.
  unfold AdamsBashMoulton3_value, AdamsBashMoulton2_value,
         AdamsBashforth4_value, AdamsBashforth3_value,
         AdamsBashforth2_value, F, dt.
  assert (E1 : (1 <=? n)%nat = true) by (apply Nat.leb_le; lia).
  assert (E2 : (2 <=? n)%nat = true) by (apply Nat.leb_le; lia).
  assert (E3 : (3 <=? n)%nat = true) by (apply Nat.leb_le; lia).
  rewrite E1, E2, E3.
  repeat split; rewrite ?H1, ?H0, ?Hm1, ?Hm2, ?Hm3; field.
Qed.

(** The theorem at step 3 of the grid [0, 0.5, 1, 1.5, 2, 2.5], for the
    polynomial [1 + t + t^2 + t^3] and its truncations. *)
Lemma Adams_quadrature_witness :
  (AdamsBashforth4_value (fun u t => 1 + 1 * t + 1 * t ^ 2 + 1 * t ^ 3)
     (RK2_unew decay) AdamsExamples.grid_six [] 3
   == 0 + ((1 * ((3 # 2) + (1 # 2)) + 1 * ((3 # 2) + (1 # 2)) ^ 2 / 2
            + 1 * ((3 # 2) + (1 # 2)) ^ 3 / 3
            + 1 * ((3 # 2) + (1 # 2)) ^ 4 / 4)
           - (1 * (3 # 2) + 1 * (3 # 2) ^ 2 / 2 + 1 * (3 # 2) ^ 3 / 3
              + 1 * (3 # 2) ^ 4 / 4)))%Q.
Proof.
  apply (Adams_quadrature 1 1 1 1 (3 # 2) (1 # 2) (RK2_unew decay)
           AdamsExamples.grid_six [] 3); reflexivity.
Defined.

End AdamsFacts.

(* ===================================================================== *)
(** ** Implicit schemes: Newton's method on linear problems, the
       [FixedPoint] branch, and the choice of the nonlinear solver *)
(* ===================================================================== *)

Module ImplicitMore.

Import Implicit ImplicitSetup Examples.

Local Open Scope Q_scope.

Lemma item_inside (a : list Q) (k : nat) :
  (k < length a)%nat -> exists x, item a (Z.of_nat k) = Ok x.
Proof.
  intros Hk. unfold item.
  assert (E : (Z.of_nat k <? 0)%Z = false) by (apply Z.ltb_ge; lia).
  rewrite E, E, Nat2Z.id.
  destruct (lookup_lt_is_Some_2 a k Hk) as [x Hx]. rewrite Hx. eauto.
Qed.

Section Linear.

Variable self : solver.
Variable lam : Q.
Variable g : Q -> Q.

Hypothesis Hf : f self = fun u t => lam * u + g t.
Hypothesis Hjac : jac self = fun _ _ => lam.
Hypothesis Ht : (S (n self) < length (t self))%nat.
Hypothesis Hu : (n self < length (u self))%nat.

Lemma reads_inside :
  exists tn1 tn un,
    t_ self (n_ self + 1) = Ok tn1 /\ t_ self (n_ self) = Ok tn
    /\ u_ self (n_ self) = Ok un
    /\ ((n_ self =? 0)%Z = false ->
        exists tp up, t_ self (n_ self - 1) = Ok tp
                      /\ u_ self (n_ self - 1) = Ok up).
Proof.
  unfold t_, u_, n_.
  destruct (item_inside (t self) (S (n self)) Ht) as [tn1 H1].
  destruct (item_inside (t self) (n self)) as [tn H2]; [lia|].
  destruct (item_inside (u self) (n self) Hu) as [un H3].
  exists tn1, tn, un.
  replace (Z.of_nat (n self) + 1)%Z with (Z.of_nat (S (n self))) by lia.
  repeat split; try assumption. intros Hn. apply Z.eqb_neq in Hn.
  destruct (item_inside (t self) (n self - 1)) as [tp H4]; [lia|].
  destruct (item_inside (u self) (n self - 1)) as [up H5]; [lia|].
  exists tp, up.
  replace (Z.of_nat (n self) - 1)%Z with (Z.of_nat (n self - 1)) by lia.
  now split.
Qed.

(** One Newton step lands on a solution of the scheme's equation. *)
Lemma Newton_step_solves (s : scheme) (x : Q) :
  s <> MidpointImplicit ->
  (forall y F J, Newton_system self s y = Ok (F, J) -> ~ J == 0) ->
  exists F J,
    Newton_system self s x = Ok (F, J) /\ solves self s (x - F / J).
Proof.
  intros Hs HJ.
  destruct reads_inside as (tn1 & tn & un & H1 & H2 & H3 & Hprev).
  pose proof (HJ x) as HJx. unfold solves.
  destruct s as [| |theta|]; [| | |done]; simpl in *.
  - rewrite H1, H2, H3 in *. simpl in *. rewrite Hf, Hjac in *.
    eexists _, _. split; [reflexivity|].
    eexists. split; [reflexivity|]. field. exact (HJx _ _ eq_refl).
  - destruct (n_ self =? 0)%Z eqn:En.
    + rewrite H1, H2, H3 in *. simpl in *. rewrite Hf, Hjac in *.
      eexists _, _. split; [reflexivity|].
      eexists. split; [reflexivity|]. field. exact (HJx _ _ eq_refl).
    + destruct (Hprev eq_refl) as (tp & up & H4 & H5).
      rewrite H1, H3, H4, H5 in *. simpl in *. rewrite Hf, Hjac in *.
      eexists _, _. split; [reflexivity|].
      eexists. split; [reflexivity|]. field. exact (HJx _ _ eq_refl).
  - rewrite H1, H2, H3 in *. simpl in *. rewrite Hf, Hjac in *.
    eexists _, _. split; [reflexivity|].
    eexists. split; [reflexivity|]. field. exact (HJx _ _ eq_refl).
Qed.

Lemma solves_proper (s : scheme) (x y : Q) :
  x == y -> solves self s x -> solves self s y.
Proof.
  intros Hxy (rhs & Hp & Hr). unfold solves.
  destruct s as [| |theta|]; simpl in *;
    try destruct (n_ self =? 0)%Z;
    repeat match goal with
           | H : context [rbind ?r _] |- _ =>
               destruct r; simpl in H; [|discriminate]
           end;
    simpl; rewrite Hf in *; inversion Hp; subst rhs;
    (eexists; split; [reflexivity|]); rewrite <- Hxy; exact Hr.
Qed.

(** The loop with Newton's method and relaxation 1, entered with a
    solution, returns a solution. *)
Lemma iterate_solves (s : scheme) (un tn dt : Q) :
  s <> MidpointImplicit ->
  nonlinear self = Newton ->
  relaxation self == 1 ->
  (forall y F J, Newton_system self s y = Ok (F, J) -> ~ J == 0) ->
  forall (left : nat) (error x : Q),
    solves self s x ->
    exists y, iterate self s un tn dt left error x = Ok y /\ solves self s y.
Proof.
  intros Hs Hn Hr HJ left.
  induction left as [|left IH]; intros error x Hx; simpl; [eauto|].
  destruct (Qle_bool error (eps_iter self)); [eauto|].
  destruct (Newton_step_solves s x Hs HJ) as (F & J & HN & Hz).
  unfold trial. rewrite Hn, HN. simpl.
  apply IH. apply (solves_proper s (x - F / J)); [|exact Hz].
  rewrite Hr. ring.
Qed.

End Linear.

(** X18. Newton's method with the exact Jacobian on a linear scalar
    problem [u' = lam*u + g(t)], with relaxation 1, at least one pass
    allowed and a nonzero Jacobian of the scheme, in exact arithmetic
    (the floats of the code taken as rationals, rounding left out):
    [advance] of [BackwardEuler], [Backward2Step] and [ThetaRule] returns
    a value that satisfies the equation of the scheme,
    [u[n+1] = Picard_update(u[n+1])], as an equality of rationals.  In
    floats the two sides can differ by rounding. *)
Theorem Newton_solves_linear (self : solver) (s : scheme) (lam : Q)
    (g : Q -> Q) :
  f self = (fun u t => lam * u + g t) ->
  jac self = (fun _ _ => lam) ->
  nonlinear self = Newton ->
  relaxation self == 1 ->
  (1 <= max_iter self)%Z ->
  eps_iter self < inject_Z (10 ^ 30) ->
  s <> MidpointImplicit ->
  (S (n self) < length (t self))%nat ->
  (n self < length (u self))%nat ->
  (forall y F J, Newton_system self s y = Ok (F, J) -> ~ J == 0) ->
  exists x rhs,
    advance self s = Ok x /\ Picard_update self s x = Ok rhs /\ rhs == x.
Proof.
  intros Hf Hjac Hn Hr Hmax Heps Hs Ht Hu HJ.
  destruct (reads_inside self Ht Hu) as (tn1 & tn & un & H1 & H2 & H3 & _).
  unfold advance. rewrite H3, H1, H2. simpl.
  destruct (Z.to_nat (max_iter self)) as [|left] eqn:El; [lia|].
  cbn [iterate].
  assert (Hgo : Qle_bool (inject_Z (10 ^ 30)) (eps_iter self) = false).
  { destruct (Qle_bool _ _) eqn:E; [|done].
    apply Qle_bool_iff in E. exfalso. now apply (Qlt_not_le _ _ Heps). }
  rewrite Hgo.
  destruct (Newton_step_solves self lam g Hf Hjac Ht Hu s
              (un + (tn1 - tn) * f self un tn) Hs HJ)
    as (F & J & HN & Hz).
  unfold trial. rewrite Hn, HN. simpl.
  destruct (iterate_solves self lam g Hf Hjac Ht Hu s un tn (tn1 - tn)
              Hs Hn Hr HJ left
              (Qabs (un + (tn1 - tn) * f self un tn - F / J
                     - (un + (tn1 - tn) * f self un tn)))
              (relaxation self * (un + (tn1 - tn) * f self un tn - F / J)
               + (1 - relaxation self) * un))
    as (y & Hy & rhs & Hp & Hq).
  { apply (solves_proper self lam g Hf s
             (un + (tn1 - tn) * f self un tn - F / J)); [|exact Hz].
    rewrite Hr. ring. }
  exists y, rhs. now repeat split.
Qed.

(** The theorem for [ThetaRule] with [theta = 1/2] on [u' = -u + t]. *)
Lemma Newton_solves_linear_witness :
  exists x rhs,
    advance linear_Newton (ThetaRule (1 # 2)) = Ok x
    /\ Picard_update linear_Newton (ThetaRule (1 # 2)) x = Ok rhs
    /\ rhs == x.
Proof.
  apply (Newton_solves_linear linear_Newton (ThetaRule (1 # 2)) (- (1))
           (fun t => t)); try reflexivity; try discriminate.
  - simpl. lia.
  - simpl. lia.
  - intros y F J H. simpl in H. inversion H. subst. vm_compute. discriminate.
Defined.

Lemma iterate_FixedPoint (self : solver) (s1 s2 : scheme) (un tn dt : Q) :
  nonlinear self = FixedPoint ->
  forall (left : nat) (error x : Q),
    iterate self s1 un tn dt left error x
    = iterate self s2 un tn dt left error x.
Proof.
  intros Hn left. induction left as [|left IH]; intros error x; simpl; [done|].
  destruct (Qle_bool error (eps_iter self)); [done|].
  unfold trial. rewrite Hn. simpl. apply IH.
Qed.

(** X19. With [nonlinear_solver = 'FixedPoint'] the update inside
    [advance] is [u[n] + dt*f(u_new, t[n])] whatever the class: the four
    implicit classes return the same value. *)
Theorem FixedPoint_ignores_scheme (self : solver) (s1 s2 : scheme) :
  nonlinear self = FixedPoint ->
  advance self s1 = advance self s2.
Proof.
  intros Hn. unfold advance.
  destruct (u_ self (n_ self)) as [un|]; simpl; [|done].
  destruct (t_ self (n_ self + 1)) as [tn1|]; simpl; [|done].
  destruct (t_ self (n_ self)) as [tn|]; simpl; [|done].
  now apply iterate_FixedPoint.
Qed.

(** The theorem for [BackwardEuler] and [MidpointImplicit] on
    [u' = -u + t]. *)
Lemma FixedPoint_ignores_scheme_witness :
  advance linear_FixedPoint BackwardEuler
  = advance linear_FixedPoint MidpointImplicit.
Proof.
  apply (FixedPoint_ignores_scheme linear_FixedPoint). reflexivity.
Defined.

End ImplicitMore.

(* ===================================================================== *)
(** ** The choice of the nonlinear solver *)
(* ===================================================================== *)

Module ImplicitSetupFacts.

Import Config TimeLoop ImplicitSetup Examples ImplicitExamples.

(** [Solver.set_internal_parameters] writes [u], [complex_valued] and
    [dtype] only. *)
Lemma set_internal_parameters_frame (s s' : attrs) (name : string) :
  TimeLoop.set_internal_parameters s = (Ok tt, s') ->
  name <> "u" -> name <> "complex_valued" -> name <> "dtype" ->
  s' !! name = s !! name.
Proof.
  intros H H1 H2 H3.
  apply TimeLoopFacts.set_internal_parameters_u in H.
  destruct H as (U0 & t & neq & row & _ & _ & _ & _ & _ & ->).
  now rewrite !lookup_insert_ne.
Qed.

(** What [SolverImplicit.set_internal_parameters] leaves under
    [nonlinear_solver] and [jac]. *)
Lemma implicit_setup (s s' : attrs) :
  ImplicitSetup.set_internal_parameters s = (Ok tt, s') ->
  exists ns,
    s' !! "nonlinear_solver" = Some ns
    /\ ns <> VNone
    /\ (forall v, s !! "nonlinear_solver" = Some v -> v <> VNone -> ns = v)
    /\ (is_str ns "Newton" = true ->
        exists c, s' !! "jac" = Some (VCallable c)).
Proof.
  unfold ImplicitSetup.set_internal_parameters, getattr_or_None. run_M.
  intros H.
  destruct (s !! "jac") as [jac|] eqn:Ej;
    [destruct (is_None jac) eqn:Ejn|]; simpl in H.
  all: destruct (s !! "nonlinear_solver") as [ns|] eqn:En;
    [destruct (is_None ns) eqn:Enn|]; simpl in H;
    rewrite ?En, ?Ej in H; simpl in H;
    rewrite ?lookup_insert_ne in H by done; rewrite ?Ej in H; simpl in H.
  all: try (destruct (is_str ns "Newton") eqn:Es; simpl in H).
  all: match type of H with
       | TimeLoop.set_internal_parameters ?m = _ =>
           pose proof (set_internal_parameters_frame m s' "nonlinear_solver"
                         H ltac:(done) ltac:(done) ltac:(done)) as Hns;
           pose proof (set_internal_parameters_frame m s' "jac"
                         H ltac:(done) ltac:(done) ltac:(done)) as Hjac
       end.
  all: rewrite ?lookup_insert_eq, ?lookup_insert_ne in Hns by done;
       rewrite ?lookup_insert_eq in Hns;
       rewrite ?lookup_insert_eq, ?lookup_insert_ne in Hjac by done;
       rewrite ?lookup_insert_eq in Hjac.
  all: rewrite ?En in Hns.
  all: eexists; split; [exact Hns|].
  all: split; [try (intros ->; discriminate); try discriminate|].
  all: split;
    [intros v Hv Hne; inversion Hv; subst; try reflexivity;
     try (destruct v; simpl in *; congruence)
    |intros Hnewton; try discriminate; try congruence; eauto].
Qed.

(** X20. When [SolverImplicit.set_internal_parameters] returns,
    [nonlinear_solver] is set and is not [None]; a value other than
    [None] that it held before is the value it holds; and if it is
    ['Newton'], [jac] is a callable. *)
Theorem implicit_solver_chosen (s s' : attrs) :
  ImplicitSetup.set_internal_parameters s = (Ok tt, s') ->
  exists ns,
    s' !! "nonlinear_solver" = Some ns
    /\ ns <> VNone
    /\ (forall v, s !! "nonlinear_solver" = Some v -> v <> VNone -> ns = v)
    /\ (ns = VStr "Newton" ->
        exists c, s' !! "jac" = Some (VCallable c)).
Proof.
  intros H. destruct (implicit_setup s s' H) as (ns & H1 & H2 & H3 & H4).
  exists ns. repeat split; try assumption.
  intros ->. now apply H4.
Qed.

(** X21. An implicit solver made by the constructor without a
    [nonlinear_solver] argument (or with [None]) iterates with Picard,
    also when a Jacobian was supplied: the constructor has stored the
    registered default ['Picard'], and [set_internal_parameters] keeps
    it. *)
Theorem implicit_default_is_Picard
    (f2py_compile : string -> option (string -> option pyval))
    (py_str : pyval -> string) (parameters : registry)
    (f : pyval) (kwargs : kwargs_t) (self s s' : attrs) (sp : ParameterSpec) :
  NoDup (List.map fst parameters) ->
  NoDup (List.map fst kwargs) ->
  List.filter is_string_function kwargs = [] ->
  reg_get "nonlinear_solver" parameters = Some sp ->
  Registry.default sp = Some (VStr "Picard") ->
  (kw_get "nonlinear_solver" kwargs = None
   \/ kw_get "nonlinear_solver" kwargs = Some VNone) ->
  init f2py_compile py_str parameters f kwargs ∅ = (Ok tt, self) ->
  s !! "nonlinear_solver" = self !! "nonlinear_solver" ->
  ImplicitSetup.set_internal_parameters s = (Ok tt, s') ->
  s' !! "nonlinear_solver" = Some (VStr "Picard").
Proof.
  intros Hp Hk Hs Hreg Hdef Hkw Hinit Hsame Hsip.
  pose proof (ConfigMore.init_lookup f2py_compile py_str parameters f kwargs
                self Hp Hk Hs Hinit "nonlinear_solver"
                ltac:(done) ltac:(done)) as Hl.
  rewrite Hreg in Hl.
  assert (Hself : self !! "nonlinear_solver" = Some (VStr "Picard")).
  { destruct Hkw as [Hkw|Hkw]; rewrite Hkw in Hl; simpl in Hl;
      now rewrite Hl, Hdef. }
  destruct (implicit_setup s s' Hsip) as (ns & H1 & _ & H3 & _).
  rewrite H1. f_equal. apply H3; [|done]. now rewrite Hsame.
Qed.

(** The two theorems at [BackwardEuler(f, jac=J)]. *)
Lemma implicit_solver_chosen_witness :
  exists ns,
    snd (ImplicitSetup.set_internal_parameters BackwardEuler_ready)
      !! "nonlinear_solver" = Some ns
    /\ ns <> VNone.
Proof.
  destruct (implicit_solver_chosen BackwardEuler_ready
              (snd (ImplicitSetup.set_internal_parameters
                      BackwardEuler_ready)))
    as (ns & H1 & H2 & _).
  - apply ConfigMore.run_of_fst. vm_compute. reflexivity.
  - exists ns. split; [exact H1|exact H2].
Defined.

Lemma implicit_default_is_Picard_witness :
  snd (ImplicitSetup.set_internal_parameters BackwardEuler_ready)
    !! "nonlinear_solver" = Some (VStr "Picard").
Proof.
  apply (implicit_default_is_Picard no_f2py str_of BackwardEuler_parameters
           (VCallable "f") [("jac", VCallable "J")] BackwardEuler_with_jac
           BackwardEuler_ready _
           (spec "Newton or Picard nonlinear solver"
              (OneType (TClass CStr)) (Some (VStr "Picard"))
              (Some [VStr "Newton"; VStr "Picard"]))).
  - apply (bool_decide_unpack _). vm_compute. reflexivity.
  - apply (bool_decide_unpack _). vm_compute. reflexivity.
  - reflexivity.
  - vm_compute. reflexivity.
  - reflexivity.
  - left. reflexivity.
  - apply ConfigMore.run_of_fst. vm_compute. reflexivity.
  - vm_compute. reflexivity.
  - apply ConfigMore.run_of_fst. vm_compute. reflexivity.
Defined.

End ImplicitSetupFacts.



(* ===================================================================== *)
(** ** [MidpointIter] with few passes *)
(* ===================================================================== *)

Module MidpointFacts.

Import TimeLoop Explicit Midpoint Examples.

Section Scalar.

Variable f : Q -> Q -> Q.

(** One pass of the [while] loop on an array [v] that has room for
    [v[q+1]]. *)
Lemma loop_pass (un tn tn1 dt vprev : Q) (left q : nat) (l : list pyval)
    (eps : pyval) (s : attrs) :
  l !! q = Some (VFloat vprev) ->
  (S q < length l)%nat ->
  s !! "eps_iter" = Some eps ->
  loop f un tn tn1 dt (S left) q (VArray l) s
  = if lt_number
         (Qabs (un + (1 # 2) * dt * (f vprev tn1 + f un tn) - vprev)) eps
    then (Ok (VFloat (un + (1 # 2) * dt * (f vprev tn1 + f un tn))),
          <["num_iterations" := VInt (Z.of_nat (S q))]>
            (<["v" := VArray (<[S q := VFloat (un + (1 # 2) * dt
                                                * (f vprev tn1 + f un tn))]> l)]>
               s))
    else loop f un tn tn1 dt left (S q)
           (VArray (<[S q := VFloat (un + (1 # 2) * dt
                                     * (f vprev tn1 + f un tn))]> l))
           (<["v" := VArray (<[S q := VFloat (un + (1 # 2) * dt
                                              * (f vprev tn1 + f un tn))]> l)]>
              s).
Proof.
  intros Hq Hlen Heps. cbn [loop]. run_M.
  unfold getitem, setitem. cbn [items].
  replace (S q - 1)%nat with q by lia. rewrite Hq.
  rewrite bool_decide_eq_true_2 by exact Hlen. cbn [items].
  rewrite list_lookup_insert_eq by exact Hlen.
  rewrite list_lookup_insert_ne by lia. rewrite Hq.
  rewrite lookup_insert_ne by done. rewrite Heps.
  cbn [num as_number].
  destruct (lt_number _ eps); reflexivity.
Qed.

(** The part of [advance] before the loop, at the first call on an
    instance of a scalar problem: [v] is allocated with [max_iter + 1]
    slots and [v[0]] is [u[n]]. *)
Lemma advance_enters (s : attrs) (us ts : list pyval) (n : nat) (un : Q)
    (tn tn1 : pyval) (m : Z) :
  s !! "v" = None ->
  s !! "neq" = Some (VInt 1) ->
  s !! "max_iter" = Some (VInt m) ->
  s !! "u" = Some (VArray us) ->
  s !! "t" = Some (VArray ts) ->
  s !! "n" = Some (VInt (Z.of_nat n)) ->
  us !! n = Some (VFloat un) ->
  ts !! n = Some tn ->
  ts !! (n + 1)%nat = Some tn1 ->
  (0 <= m)%Z ->
  MidpointIter_advance f s
  = loop f un (num tn) (num tn1) (num tn1 - num tn) (Z.to_nat m) 0
      (VArray (VFloat un :: replicate (Z.to_nat m) (VFloat 0)))
      (<["v" := VArray (VFloat un :: replicate (Z.to_nat m) (VFloat 0))]>
         (<["v" := zeros (Z.to_nat (m + 1)) 1]> s)).
Proof.
  intros Hv Hneq Hm Hu Ht Hn Hun Htn Htn1 Hpos.
  unfold MidpointIter_advance, integer. run_M.
  rewrite Hv.
  rewrite bool_decide_eq_false_2 by (intros [x Hx]; discriminate).
  rewrite Hneq, Hm, Hu.
  assert (E : (m + 1 <? 0)%Z = false) by (apply Z.ltb_ge; lia).
  rewrite E. cbn beta iota.
  rewrite lookup_insert_ne by done. rewrite Hu. cbn beta iota.
  rewrite lookup_insert_ne by done. rewrite Hn. cbn beta iota.
  rewrite lookup_insert_ne by done. rewrite Ht. cbn beta iota.
  rewrite lookup_insert_eq. cbn beta iota.
  cbn [index]. rewrite Nat2Z.id.
  unfold getitem. cbn [items]. rewrite Htn1, Htn, Hun.
  unfold as_float. cbn [as_number].
  replace (Z.to_nat (m + 1)) with (S (Z.to_nat m)) by lia.
  unfold zeros, zero_slot, setitem. cbn [Z.eqb Pos.eqb replicate items].
  rewrite bool_decide_eq_true_2 by (simpl; lia).
  cbn [insert list_insert].
  rewrite lookup_insert_ne by done. rewrite lookup_insert_ne by done.
  rewrite Hm. reflexivity.
Qed.

End Scalar.

(** X22. [MidpointIter.advance] on a scalar problem, at its first call on
    an instance.  With [max_iter = 0] no step is taken: the value
    returned is [u[n]].  With [max_iter = 1] and a right-hand side that
    does not depend on [t], the value is the Forward Euler step.  With
    [max_iter = 2], a right-hand side that does not depend on [t], and a
    first increment that is not below [eps_iter], the value is the step
    of Heun's method. *)
Theorem MidpointIter_few_passes (f : Q -> Q -> Q) (s : attrs)
    (us ts : list pyval) (n : nat) (un : Q) (tn tn1 eps : pyval) (m : Z) :
  s !! "v" = None ->
  s !! "neq" = Some (VInt 1) ->
  s !! "max_iter" = Some (VInt m) ->
  s !! "eps_iter" = Some eps ->
  s !! "u" = Some (VArray us) ->
  s !! "t" = Some (VArray ts) ->
  s !! "n" = Some (VInt (Z.of_nat n)) ->
  us !! n = Some (VFloat un) ->
  ts !! n = Some tn ->
  ts !! (n + 1)%nat = Some tn1 ->
  (0 <= m <= 2)%Z ->
  (forall u a b, f u a = f u b) ->
  (forall x y a, (x == y)%Q -> (f x a == f y a)%Q) ->
  exists x,
    fst (MidpointIter_advance f s) = Ok (VFloat x)
    /\ (m = 0%Z -> x = un)
    /\ (m = 1%Z -> (x == un + (num tn1 - num tn) * f un (num tn))%Q)
    /\ (m = 2%Z ->
        lt_number (Qabs ((num tn1 - num tn) * f un (num tn))) eps = false ->
        (x == Heun_unew f un (num tn) (num tn1))%Q).
Proof.
  intros Hv Hneq Hm Heps Hu Ht Hn Hun Htn Htn1 Hrange Hindep Hproper.
  rewrite (advance_enters f s us ts n un tn tn1 m) by (assumption || lia).
  remember (num tn1 - num tn)%Q as dt eqn:Edt.
  remember (un + (1 # 2) * dt * (f un (num tn1) + f un (num tn)))%Q
    as v1 eqn:Ev1.
  assert (Hv1 : (v1 == un + dt * f un (num tn))%Q).
  { rewrite Ev1, (Hindep un (num tn1) (num tn)). field. }
  assert (Hinc : lt_number (Qabs (v1 - un)) eps
                 = lt_number (Qabs (dt * f un (num tn))) eps).
  { assert (E : (Qabs (v1 - un) == Qabs (dt * f un (num tn)))%Q).
    { apply Qabs_wd. rewrite Hv1. ring. }
    unfold lt_number, cmp_number. destruct (as_number eps) as [e|]; [|done].
    now rewrite E. }
  assert (Hcases : m = 0%Z \/ m = 1%Z \/ m = 2%Z) by lia.
  destruct Hcases as [->|[->| ->]].
  - exists un. split; [reflexivity|].
    split; [done|]. split; intros Hc; discriminate.
  - change (Z.to_nat 1) with 1%nat. cbn [replicate].
    rewrite (loop_pass f un (num tn) (num tn1) dt un 0 0 _ eps)
      by (reflexivity || (simpl; lia)
          || (rewrite !lookup_insert_ne by done; exact Heps)).
    rewrite <- Ev1. exists v1.
    split; [match goal with |- context [if ?b then _ else _] => destruct b end;
             reflexivity|].
    split; [intros Hc; discriminate|].
    split; [intros _; exact Hv1|intros Hc; discriminate].
  - change (Z.to_nat 2) with 2%nat. cbn [replicate].
    rewrite (loop_pass f un (num tn) (num tn1) dt un 1 0 _ eps)
      by (reflexivity || (simpl; lia)
          || (rewrite !lookup_insert_ne by done; exact Heps)).
    rewrite <- Ev1. rewrite Hinc.
    destruct (lt_number (Qabs (dt * f un (num tn))) eps) eqn:E1.
    + exists v1. split; [reflexivity|].
      split; [intros Hc; discriminate|].
      split; [intros Hc; discriminate|]. intros _ Hc. discriminate.
    + cbn [insert list_insert].
      rewrite (loop_pass f un (num tn) (num tn1) dt v1 0 1 _ eps)
        by (reflexivity || (simpl; lia)
            || (rewrite !lookup_insert_ne by done; exact Heps)).
      exists (un + (1 # 2) * dt * (f v1 (num tn1) + f un (num tn)))%Q.
      split; [match goal with |- context [if ?b then _ else _] => destruct b end;
             reflexivity|].
      split; [intros Hc; discriminate|].
      split; [intros Hc; discriminate|]. intros _ _.
      unfold Heun_unew. cbv zeta. rewrite <- Edt.
      rewrite (Hindep (un + dt * f un (num tn))%Q (num tn1) (num tn)).
      rewrite (Hindep v1 (num tn1) (num tn)).
      rewrite (Hproper v1 (un + dt * f un (num tn))%Q (num tn) Hv1).
      ring.
Qed.

(** The theorem on [u' = -u] with [max_iter = 2] at step 0 of the grid
    [0, 0.5, 1, 1.5]. *)
Lemma MidpointIter_few_passes_witness :
  exists x,
    fst (MidpointIter_advance decay MidpointIter_decay) = Ok (VFloat x)
    /\ (x == Heun_unew decay 1 0 (1 # 2))%Q.
Proof.
  destruct (MidpointIter_few_passes decay MidpointIter_decay
              [VFloat 1; VFloat 0; VFloat 0; VFloat 0] grid_uniform 0 1
              (VFloat 0) (VFloat (1 # 2)) (VFloat (1 # 10000)) 2)
    as (x & Hx & _ & _ & H2).
  - vm_compute. reflexivity.
  - vm_compute. reflexivity.
  - vm_compute. reflexivity.
  - vm_compute. reflexivity.
  - vm_compute. reflexivity.
  - vm_compute. reflexivity.
  - vm_compute. reflexivity.
  - reflexivity.
  - reflexivity.
  - reflexivity.
  - lia.
  - reflexivity.
  - intros x y a Hxy. unfold decay. rewrite Hxy. reflexivity.
  - exists x. split; [exact Hx|]. apply H2; [reflexivity|].
    vm_compute. reflexivity.
Defined.

End MidpointFacts.

(* ===================================================================== *)
(** ** [RKFehlberg.advance]: the tableau and the end of the loop *)
(* ===================================================================== *)

Module FehlbergMore.

Import Fehlberg FehlbergLoop Examples.

Local Open Scope R_scope.

(** X23. On a step of length zero ([t[n+1] = t[n]]) the loop of
    [RKFehlberg.advance] is never entered and the [return u_new] raises:
    the call ends in a [NameError] whatever the other attributes are. *)
Theorem advance_repeated_point (s : solver) (fuel : nat) (u_n : vec)
    (a : R) :
  u s !! n s = Some u_n ->
  t s !! n s = Some a ->
  t s !! S (n s) = Some a ->
  advance s fuel = Some (Raise NameError).
Proof.
  intros Hu Ht Ht1. unfold advance. rewrite Hu, Ht, Ht1.
  unfold step_sizes.
  destruct fuel; cbn [loop t_cur];
    rewrite bool_decide_eq_false_2 by apply Rlt_irrefl; reflexivity.
Qed.

(** The theorem on the grid [0, 0]. *)
Lemma advance_repeated_point_witness :
  advance (still [0; 0]) 5 = Some (Raise NameError).
Proof. apply (advance_repeated_point (still [0; 0]) 5 [1] 0); reflexivity. Defined.

(** X24. The tableau on a scalar problem whose right-hand side is a
    polynomial in [t] of degree at most 3: one pass of length [h] adds
    the exact integral over the pass to [u], and the local error it
    estimates is zero. *)
Theorem stages_cubic (s : solver) (a0 a1 a2 a3 u0 t0 h0 : R) :
  f s = (fun _ t => [a0 + a1 * t + a2 * t ^ 2 + a3 * t ^ 3]) ->
  stages s [u0] t0 h0
  = ([u0 + ((a0 * (t0 + h0) + a1 * (t0 + h0) ^ 2 / 2
             + a2 * (t0 + h0) ^ 3 / 3 + a3 * (t0 + h0) ^ 4 / 4)
            - (a0 * t0 + a1 * t0 ^ 2 / 2 + a2 * t0 ^ 3 / 3
               + a3 * t0 ^ 4 / 4))],
     [0]).
Proof.
  intros Hf. unfold stages. cbv zeta. rewrite Hf.
  cbn [vscale vmul vadd vabs zip_with List.map].
  unfold c. cbn [nth]. f_equal.
  - f_equal. field.
  - f_equal.
    match goal with |- Rabs ?x = 0 => replace x with 0 by field end.
    apply Rabs_R0.
Qed.

(** The theorem for the right-hand side [1 + t + t^2 + t^3]. *)
Lemma stages_cubic_witness :
  let s := {| f := fun _ t => [1 + 1 * t + 1 * t ^ 2 + 1 * t ^ 3];
              neq := 1; rtol := 0; atol := 1; u := [[0]; [0]];
              t := [0; 1]; n := 0; first_step := None;
              min_step := None; max_step := None |} in
  snd (stages s [0] 0 1) = [0].
Proof.
  cbv zeta.
  rewrite (stages_cubic _ 1 1 1 1 0 0 1); reflexivity.
Defined.

(** *** The loop on an ascending step *)

#[local] Existing Instance Rlt_decision.
#[local] Existing Instance Rle_decision.

Lemma stages_length (s : solver) (u : vec) (t0 h0 : R) :
  (forall u t, length (f s u t) = length u) ->
  length (fst (stages s u t0 h0)) = length u
  /\ length (snd (stages s u t0 h0)) = length u.
Proof.
  intros Hf. unfold stages. cbv zeta. cbn [fst snd].
  unfold vabs, vadd, vmul, vscale.
  repeat (rewrite ?length_zip_with, ?List.length_map, ?Hf).
  split; lia.
Qed.

Lemma tolerance_length (s : solver) (v : vec) :
  length (tolerance s v) = length v.
Proof. unfold tolerance, vabs. now rewrite !List.length_map. Qed.

Lemma rescale_factor_returns (s : solver) (error tol : vec) :
  (0 < neq s)%nat -> length error = neq s -> length tol = neq s ->
  exists sf, rescale_factor s error tol = Ok sf.
Proof.
  intros Hneq He Ht. unfold rescale_factor. cbv zeta.
  assert (Hl : length (rescale_ratios error tol) = neq s).
  { unfold rescale_ratios.
    rewrite length_zip_with, List.length_map. lia. }
  destruct (bool_decide (1 < neq s)%nat) eqn:E.
  - destruct (rescale_ratios error tol) as [|x l]; [simpl in Hl; lia|].
    unfold list_min, array_min. cbn [List.map]. eauto.
  - apply bool_decide_eq_false in E.
    destruct (rescale_ratios error tol) as [|x [|y l]]; simpl in Hl;
      [lia|eauto|lia].
Qed.

Lemma accepted_small_step (s : solver) (error tol : vec)
    (h0 min_step : R) :
  h0 <= min_step -> accepted s error tol h0 min_step = true.
Proof.
  intros H. unfold accepted. cbv zeta.
  apply bool_decide_eq_true_2. now right.
Qed.

(** A pass on working arrays that are not empty returns. *)
Lemma substep_returns (s : solver) (min_step max_step t_next : R)
    (w : work) (u : vec) (t0 : R) :
  (forall u t, length (f s u t) = length u) ->
  (0 < neq s)%nat ->
  last (uwork w) = Some u -> last (twork w) = Some t0 ->
  length u = neq s ->
  exists sf,
    substep s min_step max_step t_next w
    = Ok {| uwork := if accepted s (snd (stages s u t0 (h w)))
                          (tolerance s (fst (stages s u t0 (h w))))
                          (h w) min_step
                     then uwork w ++ [fst (stages s u t0 (h w))]
                     else uwork w;
            twork := if accepted s (snd (stages s u t0 (h w)))
                          (tolerance s (fst (stages s u t0 (h w))))
                          (h w) min_step
                     then twork w ++ [t0 + h w]
                     else twork w;
            h := next_step sf (h w) min_step max_step t_next
                   (if accepted s (snd (stages s u t0 (h w)))
                         (tolerance s (fst (stages s u t0 (h w))))
                         (h w) min_step
                    then t0 + h w else t0);
            u_new := Some (fst (stages s u t0 (h w)));
            t_cur := t0 |}.
Proof.
  intros Hf Hneq Hu Ht Hlen. unfold substep. rewrite Hu, Ht.
  destruct (stages_length s u t0 (h w) Hf) as [Hl1 Hl2].
  destruct (stages s u t0 (h w)) as [un er]. cbn [fst snd] in *.
  destruct (rescale_factor_returns s er (tolerance s un) Hneq) as [sf Hsf].
  { lia. }
  { rewrite tolerance_length. lia. }
  exists sf. rewrite Hsf.
  destruct (accepted s er (tolerance s un) (h w) min_step).
  - rewrite last_snoc. reflexivity.
  - rewrite Ht. reflexivity.
Qed.

(** What a pass keeps. *)
Lemma substep_inside (s : solver) (min_step max_step t_n t_next : R)
    (w : work) :
  (forall u t, length (f s u t) = length u) ->
  (0 < neq s)%nat ->
  0 <= min_step <= max_step ->
  inside t_n t_next w -> shaped s w -> uwork w <> [] ->
  Forall (fun t => t_n <= t <= t_next) (twork w) ->
  exists w',
    substep s min_step max_step t_next w = Ok w'
    /\ inside t_n t_next w' /\ shaped s w' /\ uwork w' <> []
    /\ Forall (fun t => t_n <= t <= t_next) (twork w').
Proof.
  intros Hf Hneq Hsteps (last_t & Hlast & Hcur & Hle & Hh & Hnew)
    Hshape Hne Htimes.
  destruct (last (uwork w)) as [u|] eqn:Eu;
    [|apply last_None in Eu; contradiction].
  assert (Hlen : length u = neq s).
  { unfold shaped in Hshape. rewrite Forall_forall in Hshape.
    apply Hshape. now apply last_Some_elem_of. }
  destruct (substep_returns s min_step max_step t_next w u last_t
              Hf Hneq Eu Hlast Hlen) as [sf Hsub].
  eexists. split; [exact Hsub|].
  destruct (stages_length s u last_t (h w) Hf) as [Hl1 _].
  assert (Hmid : forall x, 0 <= middle x min_step max_step).
  { intros x.
    pose proof (FehlbergFacts.middle_bounds x min_step max_step
                  (proj2 Hsteps)). lra. }
  destruct (accepted s (snd (stages s u last_t (h w)))
              (tolerance s (fst (stages s u last_t (h w)))) (h w) min_step)
    eqn:Eacc.
  - split; [|split; [|split]].
    + exists (last_t + h w). cbn [twork t_cur h u_new uwork].
      rewrite !last_snoc. split; [reflexivity|].
      split; [lra|]. split; [lra|]. split; [|reflexivity].
      unfold next_step. cbv zeta. specialize (Hmid (h w * sf)).
      unfold Rmin. destruct (Rle_dec _ _); lra.
    + unfold shaped. cbn [uwork]. apply Forall_app. split; [exact Hshape|].
      apply Forall_singleton. lia.
    + cbn [uwork]. intros H. apply app_eq_nil in H as [_ H]. discriminate.
    + cbn [twork]. apply Forall_app. split; [exact Htimes|].
      apply Forall_singleton. lra.
  - split; [|split; [|split]].
    + exists last_t. cbn [twork t_cur h u_new uwork].
      split; [exact Hlast|]. split; [lra|]. split; [lra|]. split.
      * unfold next_step. cbv zeta. specialize (Hmid (h w * sf)).
        unfold Rmin. destruct (Rle_dec _ _); lra.
      * intros Hend. exfalso.
        rewrite accepted_small_step in Eacc; [discriminate|]. lra.
    + exact Hshape.
    + exact Hne.
    + exact Htimes.
Qed.

(** The loop ends at [t_next]. *)
Lemma loop_exit (t_n t_next : R) (w : work) :
  t_n < t_next ->
  inside t_n t_next w -> uwork w <> [] ->
  bool_decide (Rabs (t_cur w - t_n) < Rabs (t_next - t_n)) = false ->
  t_cur w = t_next /\ last (twork w) = Some t_next
  /\ exists v, u_new w = Some v /\ last (uwork w) = Some v.
Proof.
  intros Hlt (last_t & Hlast & Hcur & Hle & Hh & Hnew) Hne E.
  apply bool_decide_eq_false in E.
  rewrite !Rabs_pos_eq in E by lra.
  assert (Hend : t_cur w = t_next) by lra.
  split; [exact Hend|]. split.
  - rewrite Hlast. f_equal. lra.
  - rewrite (Hnew Hend).
    destruct (last (uwork w)) as [v|] eqn:Ev; [eauto|].
    apply last_None in Ev. contradiction.
Qed.

Lemma loop_inside (s : solver) (min_step max_step t_n t_next : R)
    (fuel : nat) :
  (forall u t, length (f s u t) = length u) ->
  (0 < neq s)%nat ->
  0 <= min_step <= max_step ->
  t_n < t_next ->
  forall (w : work) (r : result work),
    inside t_n t_next w -> shaped s w -> uwork w <> [] ->
    Forall (fun t => t_n <= t <= t_next) (twork w) ->
    loop s min_step max_step t_n t_next fuel w = Some r ->
    exists w',
      r = Ok w' /\ inside t_n t_next w' /\ shaped s w' /\ uwork w' <> []
      /\ Forall (fun t => t_n <= t <= t_next) (twork w')
      /\ bool_decide (Rabs (t_cur w' - t_n) < Rabs (t_next - t_n)) = false.
Proof.
  intros Hf Hneq Hsteps Hlt.
  induction fuel as [|fuel IH]; intros w r Hin Hshape Hne Htimes;
    cbn [loop];
    destruct (bool_decide (Rabs (t_cur w - t_n) < Rabs (t_next - t_n)))
      eqn:E.
  - discriminate.
  - intros [= <-]. exists w. repeat split; assumption.
  - destruct (substep_inside s min_step max_step t_n t_next w
                Hf Hneq Hsteps Hin Hshape Hne Htimes)
      as (w1 & Hsub & Hin1 & Hshape1 & Hne1 & Htimes1).
    rewrite Hsub. apply IH; assumption.
  - intros [= <-]. exists w. repeat split; assumption.
Qed.

(** X29. [RKFehlberg.advance] over an ascending step, for a right-hand
    side that returns arrays of the length of [u], with
    [0 <= min_step <= max_step] and a first step that is not negative
    and not longer than the step.  When the loop ends, the call returns
    a value: no pass raises and [u_new] is bound.  The times the loop
    accepts stay within [[t[n], t[n+1]]], the last of them is [t[n+1]]
    itself, and the value returned is the last accepted value, of the
    length of the problem. *)
Theorem advance_reaches_t_next (s : solver) (fuel : nat) (u_n : vec)
    (t_n t_next min_step max_step h0 : R) (r : result vec) :
  u s !! n s = Some u_n ->
  t s !! n s = Some t_n ->
  t s !! S (n s) = Some t_next ->
  step_sizes s (t_next - t_n) = (min_step, max_step, h0) ->
  (0 < neq s)%nat ->
  length u_n = neq s ->
  (forall u t, length (f s u t) = length u) ->
  t_n < t_next ->
  0 <= min_step <= max_step ->
  0 <= h0 <= t_next - t_n ->
  advance s fuel = Some r ->
  exists w' v,
    loop s min_step max_step t_n t_next fuel (entry u_n t_n h0)
      = Some (Ok w')
    /\ r = Ok v
    /\ u_new w' = Some v
    /\ last (uwork w') = Some v
    /\ length v = neq s
    /\ t_cur w' = t_next
    /\ last (twork w') = Some t_next
    /\ Forall (fun t => t_n <= t <= t_next) (twork w').
Proof.
  intros Hu Ht Ht1 Hsizes Hneq Hlen Hf Hlt Hsteps Hh0 Hadv.
  unfold advance in Hadv. rewrite Hu, Ht, Ht1 in Hadv.
  cbv zeta in Hadv. rewrite Hsizes in Hadv.
  change {| uwork := [u_n]; twork := [t_n]; h := h0; u_new := None;
            t_cur := t_n |} with (entry u_n t_n h0) in Hadv.
  assert (Hin : inside t_n t_next (entry u_n t_n h0)).
  { exists t_n. cbn [entry twork t_cur h u_new uwork last].
    split; [reflexivity|]. split; [lra|]. split; [lra|].
    split; [exact Hh0|]. intros H. lra. }
  assert (Hshape : shaped s (entry u_n t_n h0)).
  { unfold shaped. cbn [entry uwork]. now apply Forall_singleton. }
  assert (Htimes : Forall (fun t => t_n <= t <= t_next)
                     (twork (entry u_n t_n h0))).
  { cbn [entry twork]. apply Forall_singleton. lra. }
  destruct (loop s min_step max_step t_n t_next fuel (entry u_n t_n h0))
    as [r0|] eqn:El; [|discriminate].
  destruct (loop_inside s min_step max_step t_n t_next fuel Hf Hneq Hsteps
              Hlt (entry u_n t_n h0) r0 Hin Hshape ltac:(discriminate)
              Htimes El)
    as (w' & -> & Hin' & Hshape' & Hne' & Htimes' & E).
  destruct (loop_exit t_n t_next w' Hlt Hin' Hne' E)
    as (Hend & Hlast & v & Hv & Hlv).
  rewrite Hv in Hadv. injection Hadv as <-.
  exists w', v. repeat split; try assumption; try reflexivity.
  unfold shaped in Hshape'. rewrite Forall_forall in Hshape'.
  apply Hshape'. now apply last_Some_elem_of.
Qed.

(** The loop on [fixed_step]: two passes. *)
Lemma fixed_step_returns : exists r, advance fixed_step 2 = Some r.
Proof.
  assert (Hf : forall (u : vec) (t : R),
             length (f fixed_step u t) = length u).
  { intros u t. cbn [f fixed_step with_steps still].
    apply List.length_map. }
  unfold advance.
  cbn [u t n fixed_step with_steps still lookup list_lookup].
  cbv zeta. cbn [step_sizes getattr_default min_step max_step first_step
                 fixed_step with_steps].
  cbn [loop t_cur].
  rewrite bool_decide_eq_true_2
    by (rewrite Rminus_diag, Rabs_R0, Rabs_pos_eq; lra).
  destruct (substep_returns fixed_step 1 1 1
              {| uwork := [[1]]; twork := [0]; h := 1; u_new := None;
                 t_cur := 0 |} [1] 0 Hf)
    as [sf1 H1]; [simpl; lia|reflexivity|reflexivity|reflexivity|].
  rewrite H1. cbn [h uwork twork].
  rewrite accepted_small_step by lra.
  cbn [loop t_cur].
  rewrite bool_decide_eq_true_2
    by (rewrite Rminus_diag, Rabs_R0, Rabs_pos_eq; lra).
  match goal with
  | |- context [substep fixed_step 1 1 1 ?w] =>
      destruct (substep_returns fixed_step 1 1 1 w
                  (fst (stages fixed_step [1] 0 1)) (0 + 1) Hf)
        as [sf2 H2];
        [simpl; lia|reflexivity|reflexivity|
         apply (stages_length fixed_step [1] 0 1 Hf)|]
  end.
  rewrite H2. cbn [loop t_cur].
  rewrite bool_decide_eq_false_2
    by (replace (0 + 1 - 0) with (1 - 0) by lra; apply Rlt_irrefl).
  cbn [u_new]. eauto.
Qed.

(** The theorem on [fixed_step]: the loop makes two passes and the call
    returns a value of length 1. *)
Lemma advance_reaches_t_next_witness :
  exists v, advance fixed_step 2 = Some (Ok v) /\ length v = 1%nat.
Proof.
  destruct fixed_step_returns as [r Hr].
  destruct (advance_reaches_t_next fixed_step 2 [1] 0 1 1 1 1 r)
    as (w' & v & _ & -> & _ & _ & Hlen & _).
  - reflexivity.
  - reflexivity.
  - reflexivity.
  - reflexivity.
  - simpl. lia.
  - reflexivity.
  - intros u t. cbn [f fixed_step with_steps still]. apply List.length_map.
  - lra.
  - lra.
  - lra.
  - exact Hr.
  - exists v. split; [exact Hr|exact Hlen].
Defined.

End FehlbergMore.

(* ===================================================================== *)
(** ** [MidpointIter.adjust_parameters] and the constructor *)
(* ===================================================================== *)

Module MidpointSetup.

Import Registry Config Switch Midpoint Examples.

Lemma adjust_parameters_keys (p : registry) :
  List.map fst (adjust_parameters p) = List.map fst p.
Proof.
  unfold adjust_parameters. induction p as [|[k sp] p IH]; [done|].
  cbn [List.map fst]. rewrite IH. now destruct (String.eqb k "max_iter").
Qed.

(** What [adjust_parameters] does to the defaults: the one of [max_iter]
    becomes 3, the others stay. *)
Lemma adjust_parameters_default (name : string) (p : registry) :
  Registry.default <$> reg_get name (adjust_parameters p)
  = (fun sp => if String.eqb name "max_iter" then Some (VInt 3)
               else Registry.default sp) <$> reg_get name p.
Proof.
  unfold reg_get, adjust_parameters.
  induction p as [|[k sp] p IH]; [done|].
  cbn [List.map List.find fst snd].
  destruct (String.eqb k "max_iter") eqn:Ek; cbn [fst snd];
    destruct (String.eqb name k) eqn:En.
  - apply String.eqb_eq in Ek, En. subst. done.
  - exact IH.
  - apply String.eqb_eq in En. subst. simpl. now rewrite Ek.
  - exact IH.
Qed.

(** X25. The attributes of a fresh [MidpointIter] instance.
    [adjust_parameters] changes one default of the instance's copy of the
    registry, the one of [max_iter], and the constructor uses the copy:
    when [MidpointIter(f, **kwargs)] returns, [max_iter] holds the
    supplied value if one other than [None] was supplied and 3 otherwise;
    every other parameter holds what the constructor of a class with the
    same parameters and no [adjust_parameters] gives it. *)
Theorem MidpointIter_defaults
    (f2py_compile : string -> option (string -> option pyval))
    (py_str : pyval -> string)
    (f : pyval) (kwargs : kwargs_t) (self : attrs) :
  NoDup (List.map fst kwargs) ->
  List.filter is_string_function kwargs = [] ->
  new f2py_compile py_str MidpointIter f kwargs = Ok self ->
  forall name, name <> "f" -> name <> "users_f" ->
    self !! name
    = match reg_get name
              (class_parameters (plain (_optional_parameters MidpointIter)))
      with
      | Some sp =>
          let d := if String.eqb name "max_iter" then Some (VInt 3)
                   else Registry.default sp in
          match kw_get name kwargs with
          | Some v => if is_None v then d else Some v
          | None => d
          end
      | None => None
      end.
Proof.
  intros Hk Hs Hnew name Hf Hu. unfold new in Hnew.
  destruct (init f2py_compile py_str (class_parameters MidpointIter) f
              kwargs ∅) as [[[]|e] s] eqn:Einit; [|done].
  inversion Hnew; subst s.
  assert (Hp : NoDup (List.map fst (class_parameters MidpointIter))).
  { unfold class_parameters. cbn [Switch.adjust_parameters MidpointIter].
    rewrite adjust_parameters_keys.
    apply (bool_decide_unpack _). vm_compute. reflexivity. }
  rewrite (ConfigMore.init_lookup f2py_compile py_str
             (class_parameters MidpointIter) f kwargs self Hp Hk Hs Einit
             name Hf Hu).
  pose proof (adjust_parameters_default name
                (instance_parameters _parameters
                   (_optional_parameters MidpointIter)
                   (_required_parameters MidpointIter))) as Hd.
  change (class_parameters (plain (_optional_parameters MidpointIter)))
    with (instance_parameters _parameters
            (_optional_parameters MidpointIter)
            (_required_parameters MidpointIter)).
  change (class_parameters MidpointIter)
    with (adjust_parameters
            (instance_parameters _parameters
               (_optional_parameters MidpointIter)
               (_required_parameters MidpointIter))).
  destruct (reg_get name (adjust_parameters _)) as [sp'|],
           (reg_get name (instance_parameters _ _ _)) as [sp|];
    simpl in Hd; try done.
  inversion Hd as [Hd']. cbv zeta. now rewrite Hd'.
Qed.

Lemma MidpointIter_fresh_run :
  new no_f2py str_of MidpointIter (VCallable "f") [] = Ok MidpointIter_fresh.
Proof. apply SwitchFacts.result_of_is_ok. vm_compute. reflexivity. Qed.

(** The theorem at [MidpointIter(f)]: [max_iter] is 3, and [eps_iter]
    is the registered 1e-4. *)
Lemma MidpointIter_defaults_witness :
  MidpointIter_fresh !! "max_iter" = Some (VInt 3)
  /\ MidpointIter_fresh !! "eps_iter" = Some (VFloat (1 # 10000)).
Proof.
  pose proof (MidpointIter_defaults no_f2py str_of (VCallable "f") []
                MidpointIter_fresh (NoDup_nil_2 (A:=string)) eq_refl
                MidpointIter_fresh_run) as H.
  split.
  - rewrite (H "max_iter") by discriminate. vm_compute. reflexivity.
  - rewrite (H "eps_iter") by discriminate. vm_compute. reflexivity.
Defined.

End MidpointSetup.

(* ===================================================================== *)
(** ** [Solver.check_conditional_parameters] *)
(* ===================================================================== *)

Module ConditionalFacts.

Import Registry Config.





End ConditionalFacts.

(* ===================================================================== *)
(** ** [Solver.get]: all parameters against one *)
(* ===================================================================== *)

Module GetFacts.

Import Registry Getattr.

Lemma reg_has_cons (name k : string) (sp : ParameterSpec) (p : registry) :
  reg_has name ((k, sp) :: p)
  = if String.eqb name k then true else reg_has name p.
Proof.
  unfold reg_has, reg_get. cbn [List.find fst].
  destruct (String.eqb name k); [|done].
  apply bool_decide_eq_true_2. cbn. eauto.
Qed.

Lemma reg_has_In (e : string * ParameterSpec) (p : registry) :
  In e p -> reg_has (fst e) p = true.
Proof.
  induction p as [|[k sp] p IH]; [done|]. intros [<-|Hin].
  - rewrite reg_has_cons. cbn [fst]. now rewrite String.eqb_refl.
  - rewrite reg_has_cons. destruct (String.eqb (fst e) k); [done|].
    now apply IH.
Qed.

(** The dictionary comprehension of [get()]. *)
Lemma kw_get_get_all (outside : string -> option pyval) (self : attrs)
    (name : string) (p : registry) :
  kw_get name
    (omap (fun e : string * ParameterSpec =>
             (fun v => (fst e, v)) <$> getattr_opt outside (fst e) self) p)
  = if reg_has name p then getattr_opt outside name self else None.
Proof.
  unfold omap. induction p as [|[k sp] p IH].
  - reflexivity.
  - cbn [list_omap fst]. rewrite reg_has_cons.
    destruct (String.eqb name k) eqn:E.
    + apply String.eqb_eq in E. subst k.
      destruct (getattr_opt outside name self) as [v|] eqn:Ev;
        cbn [fmap option_fmap option_map].
      * unfold kw_get. cbn [List.find fst]. now rewrite String.eqb_refl.
      * rewrite IH. now destruct (reg_has name p).
    + rewrite <- IH.
      destruct (getattr_opt outside k self) as [v|];
        cbn [fmap option_fmap option_map]; [|done].
      unfold kw_get. cbn [List.find fst]. now rewrite E.
Qed.

(** Where the class has nothing under the names of the parameters, the
    comprehension reads the dictionary only. *)
Lemma get_all_dictionary (outside : string -> option pyval) (self : attrs)
    (p : registry) :
  (forall e, In e p -> outside (fst e) = None) ->
  omap (fun e : string * ParameterSpec =>
          (fun v => (fst e, v)) <$> getattr_opt outside (fst e) self) p
  = omap (fun e : string * ParameterSpec =>
            (fun v => (fst e, v)) <$> self !! fst e) p.
Proof.
  unfold omap. induction p as [|e p IH]; intros H; [reflexivity|].
  cbn [list_omap]. rewrite IH by (intros e' He'; apply H; now right).
  unfold getattr_opt. rewrite (H e) by now left.
  now destruct (self !! fst e).
Qed.

(** X27. [get()] against [get(name)], with [hasattr] and [getattr] as
    Python has them: the instance dictionary first, then the class.
    Neither call changes the instance.  The dictionary [get()] returns has
    an entry for a name exactly when the name is a parameter of the class
    and [hasattr] finds it, and the entry is what [getattr] returns; so
    for a parameter of the class [get(name)] returns what [get()] holds
    under the name and raises [AttributeError] when [get()] has no such
    key, while for a name that is no parameter [get(name)] returns
    whatever [getattr] finds, an instance attribute such as [u] or a
    method such as [solve], and [get()] has no entry.  Where lookup finds
    nothing outside the dictionary, as for the names of the parameters,
    both are the dictionary-only [Config.get] and [Config.get_all]. *)
Theorem get_all_agrees (outside : string -> option pyval)
    (parameters : registry) (self : attrs) :
  exists d,
    get_all outside parameters self = (Ok d, self)
    /\ (forall name,
          snd (get outside name self) = self
          /\ kw_get name d
             = (if reg_has name parameters
                then getattr_opt outside name self else None)
          /\ fst (get outside name self)
             = (if reg_has name parameters
                then match kw_get name d with
                     | Some v => Ok v
                     | None => Raise AttributeError
                     end
                else match getattr_opt outside name self with
                     | Some v => Ok v
                     | None => Raise AttributeError
                     end)
          /\ (outside name = None ->
              get outside name self = Config.get name self))
    /\ ((forall name, reg_has name parameters = true ->
                      outside name = None) ->
        Config.get_all parameters self = (Ok d, self)).
Proof.
  eexists. split; [reflexivity|]. split.
  - intros name.
    pose proof (kw_get_get_all outside self name parameters) as Hd.
    split; [|split; [exact Hd|split]].
    + unfold get. now destruct (getattr_opt outside name self).
    + rewrite Hd. unfold get.
      destruct (reg_has name parameters);
        now destruct (getattr_opt outside name self).
    + intros Hout. unfold get, Config.get, getattr_opt. rewrite Hout.
      now destruct (self !! name).
  - intros Hout. unfold Config.get_all. f_equal. f_equal. symmetry.
    apply get_all_dictionary. intros e He. apply Hout.
    now apply reg_has_In.
Qed.

End GetFacts.

(* ===================================================================== *)
(** ** [AdaptiveResidual.residual] and the implicit midpoint rule *)
(* ===================================================================== *)

Module ResidualFacts.

Import Implicit Residual.

Local Open Scope Q_scope.

Lemma item_lookup (a : list Q) (k : nat) (x : Q) :
  a !! k = Some x -> item a (Z.of_nat k) = Ok x.
Proof.
  intros H. unfold item.
  assert (E : (Z.of_nat k <? 0)%Z = false) by (apply Z.ltb_ge; lia).
  now rewrite E, E, Nat2Z.id, H.
Qed.

Lemma Qabs_zero (x : Q) : Qabs x == 0 <-> x == 0.
Proof.
  split; intros H.
  - assert (Hle : Qabs x <= 0) by (rewrite H; apply Qle_refl).
    apply Qabs_Qle_condition in Hle as [H1 H2].
    apply Qle_antisym; [exact H2|exact H1].
  - rewrite H. reflexivity.
Qed.

(** X28. The residual that [AdaptiveResidual] measures is the defect of
    the implicit midpoint rule: over a step of nonzero length,
    [residual(u[n], ukp1, t[n], t[n+1])] is zero exactly when [ukp1] is a
    fixed point of [MidpointImplicit.Picard_update], that is, solves
    [ukp1 = u[n] + dt*f((ukp1 + u[n])/2, t[n] + dt/2)] (exact arithmetic,
    [f] respecting equality of rationals). *)
Theorem residual_zero_iff_midpoint (self : solver) (un tn tn1 ukp1 : Q) :
  u self !! n self = Some un ->
  t self !! n self = Some tn ->
  t self !! S (n self) = Some tn1 ->
  ~ tn1 == tn ->
  (forall x y a b, x == y -> a == b -> f self x a == f self y b) ->
  exists r v,
    residual (f self) un ukp1 tn tn1 = Some r
    /\ Picard_update self MidpointImplicit ukp1 = Ok v
    /\ (r == 0 <-> ukp1 == v).
Proof.
  intros Hu Ht Ht1 Hdt Hf.
  unfold residual, Picard_update, t_, u_, n_. cbv zeta.
  replace (Z.of_nat (n self) + 1)%Z with (Z.of_nat (S (n self))) by lia.
  rewrite (item_lookup _ _ _ Ht1), (item_lookup _ _ _ Ht),
    (item_lookup _ _ _ Hu).
  cbn [rbind].
  assert (Hd : ~ tn1 - tn == 0).
  { intros H. apply Hdt. rewrite <- (Qplus_0_l tn), <- H. ring. }
  destruct (Qeq_bool (tn1 - tn) 0) eqn:E.
  { apply Qeq_bool_iff in E. contradiction. }
  eexists _, _. split; [reflexivity|]. split; [reflexivity|].
  rewrite Qabs_zero.
  assert (HF : f self ((1 # 2) * (un + ukp1)) ((1 # 2) * (tn + tn1))
               == f self ((ukp1 + un) / 2) (tn + (tn1 - tn) / 2)).
  { apply Hf; field. }
  rewrite HF.
  remember (f self ((ukp1 + un) / 2) (tn + (tn1 - tn) / 2)) as F.
  split; intros H.
  - assert (H' : ukp1 - un == (tn1 - tn) * F).
    { transitivity ((tn1 - tn) * ((ukp1 - un) / (tn1 - tn) - F)
                    + (tn1 - tn) * F); [field; exact Hd|].
      rewrite H. ring. }
    transitivity (un + (ukp1 - un)); [ring|]. rewrite H'. reflexivity.
  - rewrite H at 1. field. exact Hd.
Qed.

(** The theorem on [u' = -u] over the step from 0 to 1 with [u[0] = 1]:
    the midpoint rule gives 1/3, and the residual there is zero. *)
Lemma residual_zero_iff_midpoint_witness :
  exists r, residual (fun u _ => - u) 1 (1 # 3) 0 1 = Some r /\ r == 0.
Proof.
  destruct (residual_zero_iff_midpoint midpoint_decay 1 0 1 (1 # 3))
    as (r & v & Hr & Hv & Hiff).
  - reflexivity.
  - reflexivity.
  - reflexivity.
  - discriminate.
  - intros x y a b Hxy _. cbn [f midpoint_decay]. now rewrite Hxy.
  - exists r. split; [exact Hr|]. apply Hiff.
    cbn in Hv. inversion Hv. reflexivity.
Defined.

End ResidualFacts.

(* ===================================================================== *)
(** ** [approximate_Jacobian] on affine right-hand sides *)
(* ===================================================================== *)

Module JacobianFacts.

Import Jacobian.

Local Open Scope Q_scope.

Lemma nth_alter (g : Q -> Q) (u : list Q) :
  forall i k : nat,
    (i < length u)%nat ->
    nth k (alter g i u) 0
    = if (k =? i)%nat then g (nth k u 0) else nth k u 0.
Proof.
  induction u as [|x u IH]; intros i k Hi; [simpl in Hi; lia|].
  destruct i as [|i], k as [|k]; cbn [alter list_alter nth Nat.eqb];
    try reflexivity.
  apply IH. simpl in Hi. lia.
Qed.

Lemma nth_zip_with_minus (a : list Q) :
  forall (b : list Q) (j : nat),
    (j < length a)%nat -> (j < length b)%nat ->
    nth j (zip_with Qminus a b) 0 = nth j a 0 - nth j b 0.
Proof.
  induction a as [|x a IH]; intros [|y b] j Ha Hb; simpl in *; try lia.
  destruct j as [|j]; [reflexivity|]. apply IH; lia.
Qed.

Lemma nth_map_inside {X Y : Type} (g : X -> Y) (l : list X) (d : Y)
    (d' : X) (j : nat) :
  (j < length l)%nat -> nth j (List.map g l) d = g (nth j l d').
Proof.
  intros Hj. rewrite (nth_indep _ d (g d')) by (rewrite List.length_map; lia).
  apply map_nth.
Qed.

Lemma Qsum_ext (g g' : nat -> Q) (l : list nat) :
  (forall k, In k l -> g k == g' k) -> Qsum g l == Qsum g' l.
Proof.
  induction l as [|k l IH]; intros H; cbn [Qsum fold_right]; [reflexivity|].
  fold (Qsum g l). fold (Qsum g' l).
  rewrite (H k) by now left. rewrite IH; [reflexivity|].
  intros k' Hk'. apply H. now right.
Qed.

(** Raising one entry by [h] raises the weighted sum by the weight times
    [h]. *)
Lemma Qsum_bump (a g : nat -> Q) (h : Q) (i n : nat) :
  forall s : nat,
    (s <= i < s + n)%nat ->
    Qsum (fun k => a k * (if (k =? i)%nat then g k + h else g k)) (seq s n)
    == Qsum (fun k => a k * g k) (seq s n) + a i * h.
Proof.
  induction n as [|n IH]; intros s Hi; [lia|].
  cbn [seq Qsum fold_right].
  fold (Qsum (fun k => a k * (if (k =? i)%nat then g k + h else g k))
          (seq (S s) n)).
  fold (Qsum (fun k => a k * g k) (seq (S s) n)).
  destruct (Nat.eqb_spec s i) as [->|Hne].
  - rewrite (Qsum_ext
               (fun k => a k * (if (k =? i)%nat then g k + h else g k))
               (fun k => a k * g k)); [ring|].
    intros k Hk. apply in_seq in Hk.
    destruct (Nat.eqb_spec k i); [lia|reflexivity].
  - rewrite IH by lia. ring.
Qed.

Section Affine.

Variable f : list Q -> Q -> list Q.
Variable A : nat -> nat -> Q.
Variable b : nat -> Q.
Variable u0 : list Q.
Variable t0 h : Q.

Hypothesis Hh : ~ h == 0.
Hypothesis Haffine :
  forall u, length u = length u0 ->
    length (f u t0) = length u0
    /\ forall j, (j < length u0)%nat ->
         nth j (f u t0) 0
         == Qsum (fun i => A j i * nth i u 0) (seq 0 (length u0)) + b j.

(** The quotient of differences in the direction [i]. *)
Lemma difference_quotient (i j : nat) :
  (i < length u0)%nat -> (j < length u0)%nat ->
  (nth j (f (alter (fun x => x + h) i u0) t0) 0 - nth j (f u0 t0) 0) / h
  == A j i.
Proof.
  intros Hi Hj.
  destruct (Haffine (alter (fun x => x + h) i u0)) as [_ H1];
    [apply length_alter|].
  destruct (Haffine u0 eq_refl) as [_ H0].
  rewrite (H1 j Hj), (H0 j Hj).
  rewrite (Qsum_ext
             (fun k => A j k * nth k (alter (fun x => x + h) i u0) 0)
             (fun k => A j k * (if (k =? i)%nat then nth k u0 0 + h
                                else nth k u0 0))).
  - rewrite (Qsum_bump (A j) (fun k => nth k u0 0) h i (length u0) 0)
      by lia.
    field. exact Hh.
  - intros k _. now rewrite (nth_alter _ u0 i k Hi).
Qed.

Lemma rows_affine (range : list nat) :
  Forall (fun i => (i < length u0)%nat) range ->
  exists Jr,
    rows f u0 t0 h (f u0 t0) (length u0) range = Ok Jr
    /\ length Jr = length range
    /\ forall k, (k < length range)%nat ->
         length (nth k Jr []) = length u0
         /\ forall j, (j < length u0)%nat ->
              nth j (nth k Jr []) 0 == A j (nth k range 0%nat).
Proof.
  induction range as [|i rest IH]; intros Hr.
  - exists []. split; [reflexivity|]. split; [reflexivity|].
    intros k Hk. simpl in Hk. lia.
  - apply Forall_cons in Hr as [Hi Hrest].
    destruct (IH Hrest) as (Jr & Hrows & Hlen & Hent).
    destruct (Haffine (alter (fun x => x + h) i u0)) as [Hl1 _];
      [apply length_alter|].
    destruct (Haffine u0 eq_refl) as [Hl0 _].
    cbn [rows]. cbv zeta. unfold broadcast_sub.
    rewrite Hl1, Hl0, Nat.eqb_refl. cbn [rbind]. unfold assign_row.
    rewrite List.length_map, length_zip_with, Hl1, Hl0, Nat.min_id,
      Nat.eqb_refl.
    cbn [rbind]. rewrite Hrows. cbn [rbind].
    eexists. split; [reflexivity|]. split; [simpl; now rewrite Hlen|].
    intros [|k] Hk.
    + cbn [nth]. split.
      * rewrite List.length_map, length_zip_with, Hl1, Hl0. apply Nat.min_id.
      * intros j Hj.
        rewrite (nth_map_inside (fun x => x / h) _ 0 0)
          by (rewrite length_zip_with, Hl1, Hl0; lia).
        rewrite nth_zip_with_minus by lia.
        now apply difference_quotient.
    + cbn [nth]. apply Hent. simpl in Hk. lia.
Qed.

End Affine.

(** X30. [approximate_Jacobian] is exact on affine right-hand sides.  For
    a one-dimensional [u0] of length [neq], a step [h] that is not zero,
    and an [f] with [f(u, t0)[j] = sum_i A[j][i]*u[i] + b[j]] on arrays of
    that length, the call returns an array of shape [(neq, neq)] whose
    entry [[j][i]] is [A[j][i]]: the derivative of component [j] in the
    direction [i], whatever [u0] and [h] are (exact arithmetic). *)
Theorem approximate_Jacobian_affine (f : list Q -> Q -> list Q)
    (A : nat -> nat -> Q) (b : nat -> Q) (u0 : list Q) (t0 h : Q) :
  ~ h == 0 ->
  (forall u, length u = length u0 ->
     length (f u t0) = length u0
     /\ forall j, (j < length u0)%nat ->
          nth j (f u t0) 0
          == Qsum (fun i => A j i * nth i u 0) (seq 0 (length u0)) + b j) ->
  exists J,
    approximate_Jacobian f u0 t0 h = Some (Ok J)
    /\ length J = length u0
    /\ forall j i, (j < length u0)%nat -> (i < length u0)%nat ->
         length (nth j J []) = length u0
         /\ nth i (nth j J []) 0 == A j i.
Proof.
  intros Hh Haffine. unfold approximate_Jacobian. cbv zeta.
  destruct (rows_affine f A b u0 t0 h Hh Haffine (seq 0 (length u0)))
    as (Jr & Hrows & Hlen & Hent).
  { apply List.Forall_forall. intros i Hi. apply in_seq in Hi. lia. }
  rewrite Hrows.
  destruct (Qeq_bool h 0) eqn:E; [apply Qeq_bool_iff in E; contradiction|].
  cbn [andb]. rewrite List.length_seq in Hlen, Hent.
  eexists. split; [reflexivity|]. unfold transpose.
  split; [now rewrite List.length_map, List.length_seq|].
  intros j i Hj Hi.
  rewrite (nth_map_inside
             (fun j => List.map (fun row => nth j row 0) Jr)
             (seq 0 (length u0)) [] 0%nat j)
    by (rewrite List.length_seq; lia).
  rewrite List.seq_nth by lia. cbn [Nat.add].
  split; [now rewrite List.length_map|].
  rewrite (nth_map_inside (fun row => nth j row 0) Jr 0 [] i) by lia.
  destruct (Hent i Hi) as [_ He]. rewrite (He j Hj).
  now rewrite List.seq_nth by lia.
Qed.

(** The theorem on [coupled] at [u0 = (1, 1)], [t0 = 0] with
    [h = 1/100]: the entry [[0][1]] of the result is 3. *)
Lemma approximate_Jacobian_affine_witness :
  exists J,
    approximate_Jacobian coupled [1; 1] 0 (1 # 100) = Some (Ok J)
    /\ nth 1 (nth 0 J []) 0 == 3.
Proof.
  destruct (approximate_Jacobian_affine coupled coupled_matrix
              (fun j => match j with O => 0 | _ => 0 end)
              [1; 1] 0 (1 # 100))
    as (J & HJ & _ & Hent).
  - discriminate.
  - intros u Hu. split; [reflexivity|].
    intros [|[|j]] Hj; simpl in Hj; [| |lia];
      unfold coupled, coupled_matrix, Qsum; cbn [seq length fold_right nth];
      ring.
  - exists J. split; [exact HJ|].
    apply (Hent 0%nat 1%nat); simpl; lia.
Defined.

End JacobianFacts.
